(** * Folder synchronisation: a model of [main.py] and its properties

    One pass of [sync_folders] scans the source tree, copies the pending
    files into the replica and prunes the replica.  The two trees are
    modelled as finite maps from relative paths to entries; the pass is a
    computation in a state-and-exception monad over the replica, the log
    and the list of pending pairs.

    What the model covers: regular files with their bytes, modification
    time and read and write permission, directories, the exceptions of
    [os.makedirs], [os.remove], [shutil.rmtree], [shutil.copy2] and
    [open], and the log. What it leaves out: symbolic links, permissions
    of directories (a directory can always be listed and changed), the
    clock, and the interleaving of the workers of the pool, which copy in
    the order of the list. The source and the replica are two separate
    trees: neither contains the other.

    The loop of [main] is modelled from line 168 on, with the parameters
    [main] resolved: its first iterations, one per source tree given,
    with the exceptions of [time.sleep]. The parsing of the command
    line, the configuration file and [setup_logging] are not modelled.
    The helper [retry_operation] of [test_sync.py] is modelled on the
    outcomes of the successive calls of its function. *)

From stdpp Require Import gmap strings list fin_maps.
From Stdlib Require Import ZArith.

Open Scope Z_scope.

(** ** Paths, entries and trees *)

(** A relative path is the list of its components, innermost first:
    [["f"; "a"]] is [a/f] and [[]] is the root of the tree.  The child
    [d / n] is [n :: d]. *)
Abbreviation path := (list string).

(** What [os.stat] and [open] see of a regular file: its bytes, its
    modification time and the two permission bits the pass depends on. *)
Record file := File_ {
  f_data : string;
  f_mtime : Z;
  f_readable : bool;
  f_writable : bool
}.

Inductive entry :=
| File (f : file)
| Dir.

#[global] Instance file_eq_dec : EqDecision file.
Proof. solve_decision. Defined.
#[global] Instance entry_eq_dec : EqDecision entry.
Proof. solve_decision. Defined.

(** A tree (the source or the replica) maps the relative paths that exist
    to their entries.  The root directory is the entry at [[]]. *)
Abbreviation tree := (gmap path entry).

Definition is_dir (e : entry) : bool :=
  match e with Dir => true | File _ => false end.

(** [Path.exists()] *)
Definition exists_ (t : tree) (p : path) : bool :=
  match t !! p with Some _ => true | None => false end.

(** Every entry but the root lies in a directory. *)
Definition wf (t : tree) : Prop :=
  map_Forall (λ p _, match p with [] => True | _ :: d => t !! d = Some Dir end) t.

(** The length of the longest path of the tree. *)
Definition depth (t : tree) : nat :=
  foldr (λ pe acc, Nat.max (length pe.1) acc) 0%nat (map_to_list t).

(** The entries of directory [d], as [os.scandir] lists them. *)
Definition listdir (t : tree) (d : path) : list (string * entry) :=
  omap (λ pe, match pe.1 with
              | n :: d' => if decide (d' = d) then Some (n, pe.2) else None
              | [] => None
              end) (map_to_list t).

(** One step of [os.walk]: the names of the subdirectories and of the
    other entries of [d]; [None] when [d] is not a directory (the walk
    ignores the error and yields nothing). *)
Definition scandir (t : tree) (d : path) : option (list string * list string) :=
  match t !! d with
  | Some Dir =>
      let es := listdir t d in
      Some ((filter (λ ne, is_dir ne.2 = true) es).*1,
            (filter (λ ne, is_dir ne.2 = false) es).*1)
  | _ => None
  end.


(** ** The log *)

(** The two trees a logged path can belong to. *)
Inductive side := Source | Replica.

(** One constructor per [logging.info] / [logging.error] call of
    [main.py]; the text of a caught exception is not modelled. *)
Inductive record :=
| CreatedReplicaFolder
| WouldCreateReplicaFolder
| CreatedDirectory (replica_root : path)
| ExcludingFile (file_name : string)
| ErrorHashing (sd : side) (file_path : path)
| CopiedUpdated (source_file replica_file : path)
| FailedToCopy (source_file replica_file : path)
| WouldCopyUpdate (source_file replica_file : path)
| RemovedFile (replica_file : path)
| WouldRemoveFile (replica_file : path)
| RemovedDirectory (replica_dir : path)
| WouldRemoveDirectory (replica_dir : path).

#[global] Instance side_eq_dec : EqDecision side.
Proof. solve_decision. Defined.
#[global] Instance record_eq_dec : EqDecision record.
Proof. solve_decision. Defined.

(** ** The monad of a pass *)

(** The exceptions the filesystem calls of the pass raise. *)
Inductive exn :=
| FileExistsError (p : path)
| FileNotFoundError (p : path)
| NotADirectoryError (p : path)
| IsADirectoryError (p : path)
| PermissionError (p : path).

(** The mutable state of a pass: the replica tree, the log written so far
    and the local list [source_replica_pairs]. *)
Record state := State {
  st_rep : tree;
  st_log : list record;
  st_pairs : list (path * path)
}.

(** A computation returns normally, raises (the mutations made before the
    raise remain), or exhausts the fuel of a walk. *)
Inductive result (A : Type) :=
| Ok (a : A) (s : state)
| Raise (e : exn) (s : state)
| OutOfFuel.
Arguments Ok {A} a s.
Arguments Raise {A} e s.
Arguments OutOfFuel {A}.

Definition M (A : Type) : Type := state → result A.

Definition ret {A} (a : A) : M A := λ s, Ok a s.
Definition bind {A B} (m : M A) (f : A → M B) : M B := λ s,
  match m s with
  | Ok a s' => f a s'
  | Raise e s' => Raise e s'
  | OutOfFuel => OutOfFuel
  end.
Arguments ret {A} a s /.
Arguments bind {A B} m f s /.

Declare Scope M_scope.
Delimit Scope M_scope with M.
Bind Scope M_scope with M.
Notation "x ← y ; z" := (bind y (λ x, z))
  (at level 20, y at level 100, z at level 200, only parsing) : M_scope.
Notation "y ;; z" := (bind y (λ _, z))
  (at level 100, z at level 200, only parsing, right associativity) : M_scope.
Local Open Scope M_scope.

Definition get : M state := λ s, Ok s s.
Definition raise {A} (e : exn) : M A := λ s, Raise e s.
Definition set_rep (r : tree) : M unit :=
  λ s, Ok tt (State r (st_log s) (st_pairs s)).
Definition logging (r : record) : M unit :=
  λ s, Ok tt (State (st_rep s) (st_log s ++ [r]) (st_pairs s)).
Definition append_pair (sp : path * path) : M unit :=
  λ s, Ok tt (State (st_rep s) (st_log s) (st_pairs s ++ [sp])).
Arguments get s /.
Arguments raise {A} e s /.
Arguments set_rep r s /.
Arguments logging r s /.
Arguments append_pair sp s /.

(** A [for] loop over a list. *)
Fixpoint forM_ {A} (l : list A) (f : A → M unit) : M unit :=
  match l with
  | [] => ret tt
  | x :: l' => f x ;; forM_ l' f
  end.

(** [try: m except FileExistsError: pass] *)
Definition except_file_exists (m : M unit) : M unit := λ s,
  match m s with
  | Raise (FileExistsError _) s' => Ok tt s'
  | r => r
  end.

(** ** Filesystem calls on the replica *)

Definition os_mkdir (name : path) : M unit :=
  s ← get;
  match st_rep s !! name with
  | Some _ => raise (FileExistsError name)
  | None =>
      match name with
      | [] => set_rep (<[name := Dir]> (st_rep s))
      | _ :: head =>
          match st_rep s !! head with
          | Some Dir => set_rep (<[name := Dir]> (st_rep s))
          | Some (File _) => raise (NotADirectoryError name)
          | None => raise (FileNotFoundError name)
          end
      end
  end.

(** [os.makedirs(name)]: the missing ancestors first, then [name]. The
    parent of the root is outside the tree and exists. *)
Fixpoint os_makedirs (name : path) : M unit :=
  match name with
  | [] => ret tt
  | _ :: head =>
      s ← get;
      if exists_ (st_rep s) head then ret tt
      else except_file_exists (os_makedirs head)
  end ;;
  os_mkdir name.

Definition os_remove (p : path) : M unit :=
  s ← get;
  match st_rep s !! p with
  | Some (File _) => set_rep (delete p (st_rep s))
  | Some Dir => raise (IsADirectoryError p)
  | None => raise (FileNotFoundError p)
  end.

(** [shutil.rmtree(p)] removes [p] and everything below it. *)
Definition shutil_rmtree (p : path) : M unit :=
  s ← get;
  match st_rep s !! p with
  | Some Dir => set_rep (filter (λ qe, ¬ p `suffix_of` qe.1) (st_rep s))
  | Some (File _) => raise (NotADirectoryError p)
  | None => raise (FileNotFoundError p)
  end.

Definition try_except {A} (m : M A) (handler : exn → M A) : M A := λ s,
  match m s with
  | Raise e s' => handler e s'
  | r => r
  end.
Arguments try_except {A} m handler s /.

(** The successive results of [f.read(size)] up to the first empty one. *)
Fixpoint read_chunks_fuel (fuel size : nat) (data : string) : list string :=
  match fuel with
  | O => []
  | S k =>
      if decide (data = EmptyString) then []
      else String.substring 0 size data
             :: read_chunks_fuel k size (String.substring size (String.length data - size) data)
  end.

Definition read_chunks (size : nat) (data : string) : list string :=
  read_chunks_fuel (String.length data) size data.

(** ** The library functions the pass relies on *)

(** [hashlib.md5] (the hash object, [update] and [hexdigest]),
    [fnmatch.fnmatch name pattern], the [st_size] and [st_mtime] of a
    directory of the replica (they depend on the filesystem and are not
    tracked by the trees) and the last component of the path of the
    source folder. *)
Class Env := {
  hash_md5 : Type;
  md5_new : hash_md5;
  md5_update : hash_md5 → string → hash_md5;
  md5_hexdigest : hash_md5 → string;
  fnmatch : string → string → bool;
  dir_stat : path → Z * Z;
  source_name : string
}.

(** ** The pass *)

Section Sync.

Context `{Env}.

Variable source_folder : tree.
Variable dry_run : bool.
Variable exclude_patterns : list string.

Definition tree_of (sd : side) (s : state) : tree :=
  match sd with Source => source_folder | Replica => st_rep s end.

(** [path.stat()]: the pair of [st_size] and [st_mtime]. *)
Definition os_stat (sd : side) (p : path) : M (Z * Z) :=
  s ← get;
  match tree_of sd s !! p with
  | Some (File f) => ret (Z.of_nat (String.length (f_data f)), f_mtime f)
  | Some Dir => ret (dir_stat p)
  | None => raise (FileNotFoundError p)
  end.

(** [open(p, "rb")] followed by reading the whole file. *)
Definition open_rb (sd : side) (p : path) : M file :=
  s ← get;
  match tree_of sd s !! p with
  | Some (File f) => if f_readable f then ret f else raise (PermissionError p)
  | Some Dir => raise (IsADirectoryError p)
  | None => raise (FileNotFoundError p)
  end.

Definition hash_file (sd : side) (file_path : path) : M (option string) :=
  try_except
    (f ← open_rb sd file_path;
     ret (Some (md5_hexdigest
                   (foldl md5_update md5_new (read_chunks 4096 (f_data f))))))
    (λ _, logging (ErrorHashing sd file_path) ;; ret None).

Definition files_are_different (source_file replica_file : path) : M bool :=
  ss ← os_stat Source source_file;
  rs ← os_stat Replica replica_file;
  if bool_decide (ss.1 ≠ rs.1) then ret true
  else if bool_decide (ss.2 > rs.2) then ret true
  else
    hs ← hash_file Source source_file;
    hr ← hash_file Replica replica_file;
    ret (bool_decide (hs ≠ hr)).

Definition should_exclude (file_name : string) (patterns : list string) : bool :=
  existsb (fnmatch file_name) patterns.

Definition basename (p : path) : string :=
  match p with n :: _ => n | [] => source_name end.

(** [shutil.copy2(src, dst)]: into [dst] when it is a directory; the
    content, then the modification time and the permission bits. *)
Definition shutil_copy2 (src dst : path) : M unit :=
  s ← get;
  let dst := match st_rep s !! dst with
             | Some Dir => basename src :: dst
             | _ => dst
             end in
  f ← open_rb Source src;
  match st_rep s !! dst with
  | Some Dir => raise (IsADirectoryError dst)
  | Some (File g) =>
      if f_writable g then set_rep (<[dst := File f]> (st_rep s))
      else raise (PermissionError dst)
  | None =>
      match dst with
      | [] => set_rep (<[dst := File f]> (st_rep s))
      | _ :: head =>
          match st_rep s !! head with
          | Some Dir => set_rep (<[dst := File f]> (st_rep s))
          | Some (File _) => raise (NotADirectoryError dst)
          | None => raise (FileNotFoundError dst)
          end
      end
  end.

Definition copy_or_update_file (pair : path * path) : M unit :=
  let '(source_file, replica_file) := pair in
  if negb dry_run then
    try_except
      (shutil_copy2 source_file replica_file ;;
       logging (CopiedUpdated source_file replica_file))
      (λ _, logging (FailedToCopy source_file replica_file))
  else logging (WouldCopyUpdate source_file replica_file).

(** [for top, dirs, files in os.walk(folder): body], top-down: the
    directory is listed when the walk reaches it, the body runs, then
    the walk descends into the subdirectories that were listed. [fuel]
    bounds the depth of the walk; [sync_folders] gives each walk more
    than the depth of the tree it walks. *)
Fixpoint os_walk (folder : state → tree)
    (body : path → list string → list string → M unit)
    (fuel : nat) (top : path) : M unit := λ s,
  match scandir (folder s) top with
  | None => Ok tt s
  | Some (dirs, files) =>
      match fuel with
      | O => OutOfFuel
      | S fuel' =>
          (body top dirs files ;;
           forM_ dirs (λ dir_name, os_walk folder body fuel' (dir_name :: top))) s
      end
  end.

(** The body of the loop over the source tree (lines 84-101). *)
Definition scan_body (relative_path : path) (_dirs files : list string) : M unit :=
  s ← get;
  (if negb (exists_ (st_rep s) relative_path) && negb dry_run then
     os_makedirs relative_path ;;
     logging (CreatedDirectory relative_path)
   else ret tt) ;;
  forM_ files (λ file_name,
    if should_exclude file_name exclude_patterns then
      logging (ExcludingFile file_name)
    else
      let source_file := file_name :: relative_path in
      let replica_file := file_name :: relative_path in
      s ← get;
      if negb (exists_ (st_rep s) replica_file) then
        append_pair (source_file, replica_file)
      else
        b ← files_are_different source_file replica_file;
        if (b : bool) then append_pair (source_file, replica_file) else ret tt).

(** The body of the loop over the replica tree (lines 110-131). *)
Definition prune_body (relative_path : path) (dirs files : list string) : M unit :=
  forM_ files (λ file_name,
    let replica_file := file_name :: relative_path in
    let source_file := file_name :: relative_path in
    if negb (exists_ source_folder source_file) then
      if negb dry_run then
        os_remove replica_file ;; logging (RemovedFile replica_file)
      else logging (WouldRemoveFile replica_file)
    else ret tt) ;;
  forM_ dirs (λ dir_name,
    let replica_dir := dir_name :: relative_path in
    let source_dir := dir_name :: relative_path in
    if negb (exists_ source_folder source_dir) then
      if negb dry_run then
        shutil_rmtree replica_dir ;; logging (RemovedDirectory replica_dir)
      else logging (WouldRemoveDirectory replica_dir)
    else ret tt).

(** One pass. The pool of workers is modelled by a loop over the pairs
    in the order of the list. *)
Definition sync_folders_M : M unit :=
  s ← get;
  (if negb (exists_ (st_rep s) []) then
     (if negb dry_run then os_makedirs [] else ret tt) ;;
     logging (if dry_run then WouldCreateReplicaFolder else CreatedReplicaFolder)
   else ret tt) ;;
  os_walk (λ _, source_folder) scan_body (S (depth source_folder)) [] ;;
  s ← get;
  forM_ (st_pairs s) copy_or_update_file ;;
  s ← get;
  os_walk st_rep prune_body (S (depth (st_rep s))) [].

Definition sync_folders (replica_folder : tree) : result unit :=
  sync_folders_M (State replica_folder [] []).

End Sync.

Local Close Scope M_scope.

(** ** Closed forms used to state the properties *)

(** The triples [for ... in os.walk(top)] yields over a tree that does not
    change during the loop, in order. *)
Fixpoint walk_list (t : tree) (fuel : nat) (top : path)
    : list (path * (list string * list string)) :=
  match scandir t top with
  | None => []
  | Some (dirs, files) =>
      match fuel with
      | O => []
      | S fuel' =>
          (top, (dirs, files))
            :: (dirs ≫= λ dir_name, walk_list t fuel' (dir_name :: top))
      end
  end.

(** [fuel] suffices to walk the part of [t] below [top]. *)
Definition fuel_ok (t : tree) (fuel : nat) (top : path) : Prop :=
  ∀ p e, t !! p = Some e → top `suffix_of` p → (length p < fuel + length top)%nat.

(** A property of the state a computation ends in, raised or not. *)
Definition post {A} (Q : state → Prop) (r : result A) : Prop :=
  match r with
  | Ok _ s | Raise _ s => Q s
  | OutOfFuel => True
  end.

Definition add_log (s : state) (lg : list record) : state :=
  State (st_rep s) (st_log s ++ lg) (st_pairs s).

Section Spec.

Context `{Env}.

(** The digest [hash_file] computes for a readable file. *)
Definition digest (f : file) : string :=
  md5_hexdigest (foldl md5_update md5_new (read_chunks 4096 (f_data f))).

(** What [hash_file] returns for the path [p] of the tree [t], and what
    it logs. *)
Definition hash_of (t : tree) (p : path) : option string :=
  match t !! p with
  | Some (File f) => if f_readable f then Some (digest f) else None
  | _ => None
  end.

Definition hash_log (sd : side) (t : tree) (p : path) : list record :=
  match hash_of t p with
  | Some _ => []
  | None => [ErrorHashing sd p]
  end.

Definition stat_of (t : tree) (p : path) : option (Z * Z) :=
  match t !! p with
  | Some (File f) => Some (Z.of_nat (String.length (f_data f)), f_mtime f)
  | Some Dir => Some (dir_stat p)
  | None => None
  end.

(** What [files_are_different] returns for two existing paths, and what
    it logs. *)
Definition differs (src rep : tree) (sp rp : path) : bool :=
  match stat_of src sp, stat_of rep rp with
  | Some ss, Some rs =>
      bool_decide (ss.1 ≠ rs.1) || bool_decide (ss.2 > rs.2)
      || bool_decide (hash_of src sp ≠ hash_of rep rp)
  | _, _ => false
  end.

Definition differs_log (src rep : tree) (sp rp : path) : list record :=
  match stat_of src sp, stat_of rep rp with
  | Some ss, Some rs =>
      if bool_decide (ss.1 ≠ rs.1) || bool_decide (ss.2 > rs.2) then []
      else hash_log Source src sp ++ hash_log Replica rep rp
  | _, _ => []
  end.

(** The file at [p] has to be copied: line 100. *)
Definition pending (src rep : tree) (p : path) : bool :=
  negb (exists_ rep p) || differs src rep p p.

(** The pairs and the log lines the scan of one file of the directory
    [d] contributes. *)
Definition file_pairs (src rep : tree) (pats : list string) (d : path)
    (fn : string) : list (path * path) :=
  if should_exclude fn pats then []
  else if pending src rep (fn :: d) then [(fn :: d, fn :: d)] else [].

Definition file_log (src rep : tree) (pats : list string) (d : path)
    (fn : string) : list record :=
  if should_exclude fn pats then [ExcludingFile fn]
  else if exists_ rep (fn :: d) then differs_log src rep (fn :: d) (fn :: d)
  else [].

(** The list of pending pairs of a pass from [src] to [rep]. *)
Definition pending_pairs (src rep : tree) (pats : list string) : list (path * path) :=
  walk_list src (S (depth src)) [] ≫= λ v, v.2.2 ≫= file_pairs src rep pats v.1.

End Spec.

Section CopySpec.

Context `{Env}.

(** Where [shutil.copy2 sp dp] writes. *)
Definition copy_target (r : tree) (sp dp : path) : path :=
  match r !! dp with
  | Some Dir => basename sp :: dp
  | _ => dp
  end.

(** [shutil.copy2 sp dp] does not raise: the source is a readable file
    and the target is a writable file, or is absent from an existing
    directory. *)
Definition copy_ok (src r : tree) (sp dp : path) : bool :=
  match src !! sp with
  | Some (File f) =>
      f_readable f &&
      match r !! copy_target r sp dp with
      | Some Dir => false
      | Some (File g) => f_writable g
      | None =>
          match copy_target r sp dp with
          | [] => true
          | _ :: head =>
              match r !! head with Some Dir => true | _ => false end
          end
      end
  | _ => false
  end.

(** The state after [copy_or_update_file] in a real pass. *)
Definition copy_step (src : tree) (s : state) (pair : path * path) : state :=
  match src !! pair.1 with
  | Some e =>
      if copy_ok src (st_rep s) pair.1 pair.2 then
        State (<[copy_target (st_rep s) pair.1 pair.2 := e]> (st_rep s))
              (st_log s ++ [CopiedUpdated pair.1 pair.2]) (st_pairs s)
      else add_log s [FailedToCopy pair.1 pair.2]
  | None => add_log s [FailedToCopy pair.1 pair.2]
  end.

End CopySpec.

Section DrySpec.

Context `{Env}.

(** The lines the scan writes when it creates no directory. *)
Definition scan_log (src rep : tree) (pats : list string) : list record :=
  walk_list src (S (depth src)) [] ≫= λ v, v.2.2 ≫= file_log src rep pats v.1.

(** The lines the pruning of a dry run writes for one directory of the
    replica, and for the whole replica. *)
Definition would_remove (src : tree) (d : path) (dirs files : list string) : list record :=
  (files ≫= λ fn, if exists_ src (fn :: d) then [] else [WouldRemoveFile (fn :: d)])
  ++ (dirs ≫= λ dn, if exists_ src (dn :: d) then [] else [WouldRemoveDirectory (dn :: d)]).

Definition would_remove_log (src rep : tree) : list record :=
  walk_list rep (S (depth rep)) [] ≫= λ v, would_remove src v.1 v.2.1 v.2.2.

(** The replica after the first lines of [sync_folders] in a real pass. *)
Definition ensure_root (rep : tree) : tree :=
  match rep !! [] with
  | Some _ => rep
  | None => <[ [] := Dir ]> rep
  end.

End DrySpec.

(** [r'] is [r] with new directories at suffixes of [d]: what
    [os.makedirs d] does to the replica. *)
Definition grows_dirs (d : path) (r r' : tree) : Prop :=
  (∀ p e, r !! p = Some e → r' !! p = Some e) ∧
  (∀ p e, r !! p = None → r' !! p = Some e → e = Dir ∧ p `suffix_of` d).

(** The directory a new entry at [p] is created in exists. *)
Definition parent_ok (r : tree) (p : path) : Prop :=
  match p with
  | [] => True
  | _ :: head => r !! head = Some Dir
  end.

(** The state is [s] with another replica tree. *)
Definition same_log_pairs (s s' : state) : Prop :=
  st_log s' = st_log s ∧ st_pairs s' = st_pairs s.

(** The replica [r] of a running scan, against the replica [rep0] the
    scan started from: nothing was lost and what is new is a directory
    the source has too. *)
Definition scan_inv (src rep0 r : tree) : Prop :=
  (∀ p e, rep0 !! p = Some e → r !! p = Some e) ∧
  (∀ p e, rep0 !! p = None → r !! p = Some e → e = Dir ∧ src !! p = Some Dir) ∧
  wf r.

(** The lines the scan of a real pass writes. *)
Definition scan_record (src rep0 : tree) (r : record) : Prop :=
  match r with
  | CreatedDirectory d => rep0 !! d = None ∧ src !! d = Some Dir
  | ExcludingFile _ | ErrorHashing _ _ => True
  | _ => False
  end.

(** [r'] is [r] without the paths in [X]. *)
Definition removes (X : path → Prop) (r r' : tree) : Prop :=
  ∀ p e, r' !! p = Some e ↔ r !! p = Some e ∧ ¬ X p.

(** The paths the pruning walk from [top] removes: those below [top] the
    source does not have. *)
Definition orphan_below (src : tree) (top p : path) : Prop :=
  top `suffix_of` p ∧ p ≠ top ∧ src !! p = None.

(** The lines the pruning of a real pass writes, for a replica [r]. *)
Definition prune_record (src r : tree) (rec : record) : Prop :=
  match rec with
  | RemovedFile p | RemovedDirectory p =>
      is_Some (r !! p) ∧ src !! p = None ∧ p ≠ []
  | _ => False
  end.

(** The lines of a log that report no change of the replica. *)
Definition quiet_record (r : record) : Prop :=
  match r with
  | ExcludingFile _ | ErrorHashing _ _ => True
  | _ => False
  end.

Section PassSpec.

Context `{Env}.

(** The line of the first step of the pass. *)
Definition root_log (dry : bool) (rep : tree) : list record :=
  if exists_ rep [] then []
  else [if dry then WouldCreateReplicaFolder else CreatedReplicaFolder].

(** What a real pass that returns has done, phase by phase: the scan
    turned the replica into [rs], the copies into [st_rep sa], the
    pruning into the final replica. *)
Definition real_pass_post (src : tree) (pats : list string) (rep : tree)
    (s' : state) : Prop :=
  ∃ rs lg_s lg_p,
    let r0 := ensure_root rep in
    let pairs := pending_pairs src r0 pats in
    let sa := foldl (copy_step src) (State rs (root_log false rep ++ lg_s) pairs) pairs in
    scan_inv src r0 rs ∧
    (∀ d, src !! d = Some Dir → is_Some (rs !! d)) ∧
    Forall (scan_record src r0) lg_s ∧
    removes (orphan_below src []) (st_rep sa) (st_rep s') ∧
    wf (st_rep s') ∧
    st_log s' = st_log sa ++ lg_p ∧
    Forall (prune_record src (st_rep sa)) lg_p ∧
    st_pairs s' = pairs.

End PassSpec.

Section Mirror.

Context `{Env}.

(** The entries of the source a pass mirrors: the directories, and the
    files whose bare name matches no pattern. *)
Definition non_excluded (pats : list string) (pe : path * entry) : Prop :=
  match pe with
  | (fn :: _, File _) => should_exclude fn pats = false
  | _ => True
  end.

#[global] Instance non_excluded_dec pats pe : Decision (non_excluded pats pe).
Proof. destruct pe as [[|fn d] [f|]]; simpl; apply _. Defined.

End Mirror.

(** ** The loop of [main] *)

(** The lines [main] writes itself, and the lines of its passes. *)
Inductive main_record :=
| StartingFolderSynchronization
| ErrorDuringSynchronization (e : exn)
| PassRecord (r : record).

(** The exceptions of [time.sleep]: the interval is missing, or is
    negative. *)
Inductive sleep_exn := TypeError | ValueError.

Definition time_sleep (secs : option Z) : option sleep_exn :=
  match secs with
  | None => Some TypeError
  | Some n => if bool_decide (n < 0) then Some ValueError else None
  end.

(** What the loop of [main] works on: the replica and the log. *)
Record world := World {
  w_rep : tree;
  w_log : list main_record
}.

(** The loop is still running after the iterations that were asked for,
    or an exception left it, or a walk of the model had too little
    fuel. *)
Inductive outcome :=
| Looping (w : world)
| Died (e : sleep_exn) (w : world)
| Stuck.

Section Main.

Context `{Env}.

Variable dry_run : bool.
Variable exclude_patterns : list string.
Variable sync_interval : option Z.

(** The [try] statement of the loop (lines 170-173): a pass over the
    source folder as it is now; an exception of the pass is logged. *)
Definition try_sync (source_folder : tree) (w : world) : option world :=
  match sync_folders source_folder dry_run exclude_patterns (w_rep w) with
  | Ok _ s => Some (World (st_rep s) (w_log w ++ (PassRecord <$> st_log s)))
  | Raise e s =>
      Some (World (st_rep s)
              (w_log w ++ (PassRecord <$> st_log s) ++ [ErrorDuringSynchronization e]))
  | OutOfFuel => None
  end.

(** The first iterations of [while True] (lines 169-175), one per tree of
    [sources]: the source folder as the pass of that iteration finds
    it. *)
Fixpoint main_loop (sources : list tree) (w : world) : outcome :=
  match sources with
  | [] => Looping w
  | source_folder :: later =>
      match try_sync source_folder w with
      | None => Stuck
      | Some w' =>
          match time_sleep sync_interval with
          | Some e => Died e w'
          | None => main_loop later w'
          end
      end
  end.

(** [main] from line 168 on, with the parameters it resolved. *)
Definition main (sources : list tree) (replica_folder : tree) : outcome :=
  main_loop sources (World replica_folder [StartingFolderSynchronization]).

End Main.

(** ** The helper [retry_operation] of [test_sync.py] *)

(** What a call of [func] does: it returns or it raises. *)
Inductive attempt (A E : Type) :=
| Returned (a : A)
| Raised (e : E).
Arguments Returned {A E} a.
Arguments Raised {A E} e.

(** [for i in range(retries)] from [i] on, with [todo] iterations left;
    [calls i] is what the call of iteration [i] does and [sleeps] counts
    the calls of [time.sleep(delay)]. The loop that ends without a
    [return] gives [None]. *)
Fixpoint retry_loop {A E} (calls : nat → attempt A E) (retries i todo sleeps : nat)
    : option (attempt A E) * nat :=
  match todo with
  | O => (None, sleeps)
  | S todo' =>
      match calls i with
      | Returned a => (Some (Returned a), sleeps)
      | Raised e =>
          if decide (i < retries - 1)%nat
          then retry_loop calls retries (S i) todo' (S sleeps)
          else (Some (Raised e), sleeps)
      end
  end.

Definition retry_operation {A E} (calls : nat → attempt A E) (retries : nat)
    : option (attempt A E) * nat :=
  retry_loop calls retries 0 retries 0.

Section RealLog.

Context `{Env}.

(** The lines the scan of a real pass writes for one directory of the
    source: the creation of the directory when the replica [r0] does not
    have it, then the lines of its files. *)
Definition dir_log (src r0 : tree) (pats : list string)
    (v : path * (list string * list string)) : list record :=
  (if exists_ r0 v.1 then [] else [CreatedDirectory v.1])
  ++ (v.2.2 ≫= file_log src r0 pats v.1).

(** The lines of the whole scan of a real pass. *)
Definition real_scan_log (src r0 : tree) (pats : list string) : list record :=
  walk_list src (S (depth src)) [] ≫= dir_log src r0 pats.

End RealLog.

(** A line the pruning walk of a real pass from [top] writes, for a
    replica [r]: the removal of an entry the source does not have, in
    [top] or in a directory below it that the source has. *)
Definition prune_line (src r : tree) (top : path) (rec : record) : Prop :=
  ∃ n d,
    top `suffix_of` d ∧ (d = top ∨ is_Some (src !! d)) ∧ src !! (n :: d) = None ∧
    ((∃ f, r !! (n :: d) = Some (File f) ∧ rec = RemovedFile (n :: d)) ∨
     (r !! (n :: d) = Some Dir ∧ rec = RemovedDirectory (n :: d))).

(** ** An environment and trees for the examples *)

#[global] Instance wf_dec (t : tree) : Decision (wf t).
Proof. apply map_Forall_dec. intros [|n d] e; apply _. Defined.

(** Patterns made of [*], [?] and literal characters: what the examples
    use of [fnmatch]. *)
Fixpoint glob (pat : string) : string → bool :=
  match pat with
  | EmptyString => λ name, bool_decide (name = EmptyString)
  | String c pat' =>
      if Ascii.eqb c (Ascii.ascii_of_nat 42) then
        fix star name :=
          glob pat' name
          || match name with
             | String _ name' => star name'
             | EmptyString => false
             end
      else if Ascii.eqb c (Ascii.ascii_of_nat 63) then
        λ name, match name with
                | String _ name' => glob pat' name'
                | EmptyString => false
                end
      else
        λ name, match name with
                | String c' name' => Ascii.eqb c c' && glob pat' name'
                | EmptyString => false
                end
  end.

(** The digest of the examples is the content itself; a directory has
    size 4096 and modification time 0. *)
Definition example_env : Env := {|
  hash_md5 := string;
  md5_new := EmptyString;
  md5_update := String.append;
  md5_hexdigest := λ h, h;
  fnmatch := λ name pat, glob pat name;
  dir_stat := λ _, (4096, 0);
  source_name := "source"
|}.

Definition plain (data : string) (mtime : Z) : entry :=
  File (File_ data mtime true true).

(** A source with an excluded file and a subdirectory, and a replica with
    an orphan file and an orphan directory. *)
Definition ex_source : tree :=
  list_to_map [([], Dir); (["a.txt"], plain "hello" 5); (["skip.tmp"], plain "x" 5);
               (["d"], Dir); (["b"; "d"], plain "bb" 1)].

Definition ex_replica : tree :=
  list_to_map [([], Dir); (["orphan.txt"], plain "o" 1); (["od"], Dir);
               (["x"; "od"], plain "o" 1)].

(** The replica has a file where the source has a directory. *)
Definition conflict_source : tree :=
  list_to_map [([], Dir); (["a"], Dir); (["b"; "a"], Dir)].

Definition conflict_replica : tree :=
  list_to_map [([], Dir); (["a"], plain "k" 1); (["x"], plain "k" 1)].

(** The replica has a directory where the source has a file. *)
Definition shadow_source : tree :=
  list_to_map [([], Dir); (["d"], plain "x" 1)].

Definition shadow_replica : tree :=
  list_to_map [([], Dir); (["d"], Dir)].

(** A file that was synced and is excluded now. *)
Definition tmp_source : tree :=
  list_to_map [([], Dir); (["a.tmp"], plain "x" 1)].


Definition empty_replica : tree := {[ [] := Dir ]}.

(** The state a computation ends in. *)
Definition final {A} (r : result A) : option state :=
  match r with
  | Ok _ s | Raise _ s => Some s
  | OutOfFuel => None
  end.

(** A source whose subdirectory has a name that matches [*.tmp]. *)
Definition tmpdir_source : tree :=
  list_to_map [([], Dir); (["x.tmp"], Dir); (["f.txt"; "x.tmp"], plain "data" 1)].

(** Two files nobody may read, of the same size and modification time. *)
Definition locked_source : tree :=
  list_to_map [([], Dir); (["f"], File (File_ "abc" 1 false true))].

Definition locked_state : state :=
  State (list_to_map [([], Dir); (["f"], File (File_ "xyz" 1 false true))]) [] [].

(** A replica with a file of the size and modification time of the source
    file [a.txt], and other bytes. *)
Definition stale_state : state :=
  State (list_to_map [([], Dir); (["a.txt"], plain "jello" 5)]) [] [].

(** Every file of the tree is readable. *)
Definition all_readable (t : tree) : Prop :=
  map_Forall (λ _ e, match e with File f => f_readable f = true | Dir => True end) t.

#[global] Instance all_readable_dec t : Decision (all_readable t).
Proof. apply map_Forall_dec. intros p [f|]; apply _. Defined.

(** No file of [t] has its path at a directory of [r]. *)
Definition no_shadow (t r : tree) : Prop :=
  map_Forall (λ p e, match e with File _ => r !! p ≠ Some Dir | Dir => True end) t.

#[global] Instance no_shadow_dec t r : Decision (no_shadow t r).
Proof. apply map_Forall_dec. intros p [f|]; apply _. Defined.

(** The state after the pass of the examples. *)
Definition ex_after_pass : state :=
  default (State ∅ [] [])
    (final (sync_folders (H := example_env) ex_source false ["*.tmp"] ex_replica)).

(** A replica with the directories of the source of the examples. *)
Definition skeleton_state : state :=
  State (list_to_map [([], Dir); (["d"], Dir)]) [] [].

(** The trees of [test_error_handling]: the replica has a read-only file
    at the path of a file of the source. *)
Definition readonly_source : tree :=
  list_to_map [([], Dir); (["readonly_file.txt"], plain "new content" 2)].

Definition readonly_replica : tree :=
  list_to_map [([], Dir); (["readonly_file.txt"], File (File_ "old" 1 true false))].

(** Calls that raise twice and then return, and calls that always
    raise. *)
Definition flaky_calls (i : nat) : attempt Z string :=
  if (i <? 2)%nat then Raised "busy" else Returned 7.

Definition failing_calls (i : nat) : attempt Z string :=
  Raised (if (i <? 2)%nat then "busy" else "gone").

(** * Properties *)

(** ** Reading in chunks *)

Example read_chunks_example : read_chunks 2 "hello" = ["he"; "ll"; "o"].
Proof. reflexivity. Qed.

Lemma read_chunks_empty size : read_chunks size EmptyString = [].
Proof. reflexivity. Qed.

(** ** Trees *)

Lemma exists_true (t : tree) p : exists_ t p = true ↔ is_Some (t !! p).
Proof. unfold exists_. destruct (t !! p); split; (done || eauto || by intros []). Qed.

Lemma exists_false (t : tree) p : exists_ t p = false ↔ t !! p = None.
Proof. unfold exists_. by destruct (t !! p). Qed.

Lemma wf_parent (t : tree) n d e :
  wf t → t !! (n :: d) = Some e → t !! d = Some Dir.
Proof. intros Hwf Hl. exact (Hwf _ _ Hl). Qed.

Lemma wf_intro (t : tree) :
  (∀ n d e, t !! (n :: d) = Some e → t !! d = Some Dir) → wf t.
Proof.
  intros H. apply map_Forall_lookup. intros [|n d] e Hl; [done | eauto].
Qed.

Lemma wf_ancestor (t : tree) p q e :
  wf t → t !! p = Some e → q `suffix_of` p → q ≠ p → t !! q = Some Dir.
Proof.
  intros Hwf. revert e. induction p as [|n p IH]; intros e Hl Hs Hne.
  - apply suffix_nil_inv in Hs. done.
  - pose proof (wf_parent _ _ _ _ Hwf Hl) as Hp.
    destruct q as [|m q].
    + destruct p as [|n' p]; [done|].
      eapply IH; [done | apply suffix_nil | done].
    + apply suffix_cons_inv in Hs as [Heq | Hs]; [done|].
      destruct (decide (m :: q = p)) as [-> | Hne']; [done|].
      eapply IH; done.
Qed.

Lemma depth_lookup (t : tree) p e : t !! p = Some e → (length p ≤ depth t)%nat.
Proof.
  intros Hl. apply elem_of_map_to_list in Hl. unfold depth.
  induction (map_to_list t) as [|x l IH]; [by apply elem_of_nil in Hl|].
  apply elem_of_cons in Hl as [<- | Hl]; simpl; [lia|].
  specialize (IH Hl). lia.
Qed.

Lemma elem_of_listdir (t : tree) d n e :
  (n, e) ∈ listdir t d ↔ t !! (n :: d) = Some e.
Proof.
  unfold listdir. rewrite list_elem_of_omap. split.
  - intros [[p e'] [Hin Hf]]. apply elem_of_map_to_list in Hin. simpl in Hf.
    destruct p as [|n' d']; [done|]. case_decide; simplify_eq. done.
  - intros Hl. exists (n :: d, e). split; [by apply elem_of_map_to_list|].
    simpl. rewrite decide_True; done.
Qed.

Lemma NoDup_listdir (t : tree) d : NoDup (listdir t d).*1.
Proof.
  unfold listdir. pose proof (NoDup_fst_map_to_list t) as Hnd.
  induction (map_to_list t) as [|[p e] l IH]; simpl; [constructor|].
  apply NoDup_cons in Hnd as [Hni Hnd]. specialize (IH Hnd).
  destruct p as [|n d']; simpl; [done|]. case_decide; [|done]. subst d'.
  simpl. apply NoDup_cons. split; [|done].
  intros Hin. apply Hni. apply list_elem_of_fmap in Hin as [[n' e'] [? Hin]].
  simplify_eq/=. apply list_elem_of_omap in Hin as [[p e''] [Hin Hf]].
  simpl in Hf. destruct p as [|n'' d'']; [done|]. case_decide; simplify_eq.
  apply list_elem_of_fmap. eexists (_, _). split; [|exact Hin]. done.
Qed.

Lemma scandir_Some (t : tree) d dirs files :
  scandir t d = Some (dirs, files) →
  t !! d = Some Dir ∧
  (∀ n, n ∈ dirs ↔ t !! (n :: d) = Some Dir) ∧
  (∀ n, n ∈ files ↔ ∃ f, t !! (n :: d) = Some (File f)) ∧
  NoDup dirs ∧ NoDup files.
Proof.
  unfold scandir. destruct (t !! d) as [[f|]|] eqn:Hd; try done.
  intros [= <- <-]. split; [done|]. repeat split.
  - intros Hin. apply list_elem_of_fmap in Hin as [[n' e] [-> Hin]].
    apply list_elem_of_filter in Hin as [Hdir Hin]. apply elem_of_listdir in Hin.
    simpl in *. by destruct e.
  - intros Hl. apply list_elem_of_fmap. exists (n, Dir). split; [done|].
    apply list_elem_of_filter. split; [done|]. by apply elem_of_listdir.
  - intros Hin. apply list_elem_of_fmap in Hin as [[n' e] [-> Hin]].
    apply list_elem_of_filter in Hin as [Hdir Hin]. apply elem_of_listdir in Hin.
    simpl in *. destruct e; [eauto | done].
  - intros [f Hl]. apply list_elem_of_fmap. exists (n, File f). split; [done|].
    apply list_elem_of_filter. split; [done|]. by apply elem_of_listdir.
  - eapply sublist_NoDup; [apply NoDup_listdir|]. apply fmap_sublist, sublist_filter.
  - eapply sublist_NoDup; [apply NoDup_listdir|]. apply fmap_sublist, sublist_filter.
Qed.

Lemma scandir_None (t : tree) d : scandir t d = None ↔ t !! d ≠ Some Dir.
Proof.
  unfold scandir. destruct (t !! d) as [[f|]|]; split; try done.
Qed.

(** ** The monad *)

Lemma forM_app {A} (l1 l2 : list A) (f : A → M unit) s :
  forM_ (l1 ++ l2) f s = bind (forM_ l1 f) (λ _, forM_ l2 f) s.
Proof.
  revert s. induction l1 as [|x l1 IH]; intros s; [done|].
  simpl. destruct (f x s) as [[] s'| |]; [|done..].
  rewrite IH. done.
Qed.

Lemma forM_post {A} (I : state → Prop) (l : list A) (f : A → M unit) s :
  (∀ x s, x ∈ l → I s → post I (f x s)) → I s → post I (forM_ l f s).
Proof.
  revert s. induction l as [|x l IH]; intros s Hf HI; [done|].
  simpl.
  pose proof (Hf x s (list_elem_of_here _ _) HI) as Hx.
  destruct (f x s) as [[] s'| |]; [|done..].
  apply IH; [|done]. intros y s'' Hy. apply Hf. by apply list_elem_of_further.
Qed.

(** ** Walks *)

Lemma fuel_ok_child t fuel top x : fuel_ok t (S fuel) top → fuel_ok t fuel (x :: top).
Proof.
  intros H p e Hl Hs. specialize (H p e Hl (suffix_cons_l _ _ _ Hs)). simpl. lia.
Qed.

Lemma fuel_ok_depth (t : tree) : fuel_ok t (S (depth t)) [].
Proof. intros p e Hl _. apply depth_lookup in Hl. lia. Qed.

Lemma fuel_ok_zero t top : fuel_ok t 0 top → t !! top = None.
Proof.
  intros H. destruct (t !! top) as [e|] eqn:Hl; [|done].
  specialize (H top e Hl (reflexivity _)). lia.
Qed.

Lemma suffix_child (top d : path) :
  top `suffix_of` d → d ≠ top → ∃ x, (x :: top) `suffix_of` d.
Proof.
  intros [k ->] Hne. destruct k as [|y k] using rev_ind; [done|].
  exists y. exists k. by rewrite <-(assoc_L (++)).
Qed.

Lemma suffix_same_length (p q d : path) :
  p `suffix_of` d → q `suffix_of` d → length p = length q → p = q.
Proof.
  intros [k1 ->] [k2 Heq] Hlen.
  assert (length k1 = length k2) as Hk.
  { apply (f_equal length) in Heq. rewrite !length_app in Heq. lia. }
  apply app_inj_1 in Heq as [_ ?]; done.
Qed.

Section Walk.
Variable folder : state → tree.
Variable body : path → list string → list string → M unit.

Hypothesis body_folder :
  ∀ d ds fs s, post (λ s', folder s' = folder s) (body d ds fs s).

Lemma os_walk_pure fuel : ∀ top s,
  fuel_ok (folder s) fuel top →
  os_walk folder body fuel top s
  = forM_ (walk_list (folder s) fuel top) (λ v, body v.1 v.2.1 v.2.2) s.
Proof.
  induction fuel as [|fuel IH]; intros top s Hfuel; simpl.
  - destruct (scandir (folder s) top) as [[ds fs]|] eqn:Hsc; [|done].
    apply scandir_Some in Hsc as [Hd _]. apply fuel_ok_zero in Hfuel. congruence.
  - destruct (scandir (folder s) top) as [[ds fs]|] eqn:Hsc; [|done].
    simpl.
    pose proof (body_folder top ds fs s) as Hb.
    destruct (body top ds fs s) as [[] s1| |]; [|done..]. simpl in Hb.
    assert (∀ x, fuel_ok (folder s1) fuel (x :: top)) as Hfuel1.
    { intros x. rewrite Hb. by apply fuel_ok_child. }
    rewrite <-Hb. clear Hsc Hb Hfuel. revert s1 Hfuel1.
    induction ds as [|x ds IHds]; intros s1 Hfuel1; [done|].
    rewrite bind_cons, forM_app. simpl.
    rewrite IH by done.
    assert (post (λ s', folder s' = folder s1)
              (forM_ (walk_list (folder s1) fuel (x :: top))
                     (λ v, body v.1 v.2.1 v.2.2) s1)) as Hp.
    { apply forM_post; [|done]. intros v s' _ <-. apply body_folder. }
    destruct (forM_ _ _ s1) as [[] s2| |]; [|done..]. simpl in Hp.
    rewrite <-Hp. apply IHds. intros y. rewrite Hp. apply Hfuel1.
Qed.
End Walk.

Lemma walk_list_sound (t : tree) fuel : ∀ top d dirs files,
  (d, (dirs, files)) ∈ walk_list t fuel top → scandir t d = Some (dirs, files).
Proof.
  induction fuel as [|fuel IH]; intros top d dirs files; simpl.
  - destruct (scandir t top) as [[ds fs]|]; by intros ?%elem_of_nil.
  - destruct (scandir t top) as [[ds fs]|] eqn:Hsc; [|by intros ?%elem_of_nil].
    intros [[= -> -> ->]|Hin]%elem_of_cons; [done|].
    apply list_elem_of_bind in Hin as (x & Hin & _). by eapply IH.
Qed.

Lemma elem_of_walk_list (t : tree) fuel : ∀ top d dirs files,
  wf t → fuel_ok t fuel top →
  (d, (dirs, files)) ∈ walk_list t fuel top
  ↔ top `suffix_of` d ∧ scandir t d = Some (dirs, files).
Proof.
  induction fuel as [|fuel IH]; intros top d dirs files Hwf Hfuel; simpl.
  - apply fuel_ok_zero in Hfuel.
    assert (scandir t top = None) as -> by (apply scandir_None; congruence).
    split; [by intros ?%elem_of_nil|]. intros [Hs Hsc].
    apply scandir_Some in Hsc as [Hd _].
    destruct (decide (top = d)) as [->|Hne]; [congruence|].
    rewrite (wf_ancestor t d top Dir) in Hfuel; done.
  - destruct (scandir t top) as [[ds fs]|] eqn:Hsc.
    + rewrite elem_of_cons, list_elem_of_bind. split.
      * intros [[= -> -> ->] | [x [Hin Hx]]]; [done|].
        apply IH in Hin as [Hs Hsd]; [|done|by apply fuel_ok_child].
        split; [|done]. by eapply suffix_cons_l.
      * intros [Hs Hsd]. destruct (decide (d = top)) as [->|Hne].
        { left. congruence. }
        right. destruct (suffix_child _ _ Hs Hne) as [x Hx].
        exists x. split.
        { apply IH; [done|by apply fuel_ok_child|done]. }
        apply scandir_Some in Hsc as (_ & Hds & _). apply Hds.
        apply scandir_Some in Hsd as [Hd _].
        destruct (decide (x :: top = d)) as [->|Hne']; [done|].
        by eapply wf_ancestor.
    + split; [by intros ?%elem_of_nil|]. intros [Hs Hsd].
      apply scandir_None in Hsc. apply scandir_Some in Hsd as [Hd _].
      destruct (decide (top = d)) as [->|Hne]; [done|].
      destruct Hsc. by eapply wf_ancestor.
Qed.

Lemma fmap_list_bind {A B C} (g : B → C) (f : A → list B) (l : list A) :
  g <$> (l ≫= f) = l ≫= λ x, g <$> f x.
Proof.
  induction l as [|x l IH]; [done|]. rewrite !bind_cons, fmap_app. by f_equal.
Qed.

Lemma NoDup_walk_list (t : tree) fuel : ∀ top,
  wf t → fuel_ok t fuel top → NoDup (walk_list t fuel top).*1.
Proof.
  induction fuel as [|fuel IH]; intros top Hwf Hfuel; simpl.
  - destruct (scandir t top) as [[ds fs]|]; constructor.
  - destruct (scandir t top) as [[ds fs]|] eqn:Hsc; [|constructor].
    simpl. apply NoDup_cons. split.
    + intros Hin. apply list_elem_of_fmap in Hin as [[d [ds' fs']] [-> Hin]].
      apply list_elem_of_bind in Hin as [x [Hin _]].
      apply elem_of_walk_list in Hin as [Hs _]; [|done|by apply fuel_ok_child].
      by apply suffix_cons_not in Hs.
    + apply scandir_Some in Hsc as (_ & _ & _ & Hnd & _).
      rewrite fmap_list_bind. apply NoDup_bind; [|intros x _; simpl|done].
      * intros x1 x2 d _ _ Hin1 Hin2. simpl in *.
        apply list_elem_of_fmap in Hin1 as [[d1 [ds1 fs1]] [-> Hin1]].
        apply list_elem_of_fmap in Hin2 as [[d2 [ds2 fs2]] [Heq Hin2]].
        simpl in Heq. subst d2.
        apply elem_of_walk_list in Hin1 as [Hs1 _]; [|done|by apply fuel_ok_child].
        apply elem_of_walk_list in Hin2 as [Hs2 _]; [|done|by apply fuel_ok_child].
        assert (x1 :: top = x2 :: top) as [=]; [|done].
        eapply suffix_same_length; done.
      * apply IH; [done|by apply fuel_ok_child].
Qed.

(** ** Filesystem calls *)

Lemma wf_insert (r : tree) p e :
  wf r → parent_ok r p → (r !! p = Some Dir → e = Dir) → wf (<[p := e]> r).
Proof.
  intros Hwf Hpar He. apply wf_intro. intros m d e' Hl.
  destruct (decide (m :: d = p)) as [<-|Hne].
  - simpl in Hpar. rewrite lookup_insert_ne; [done|].
    intros Heq. apply (f_equal length) in Heq. simpl in Heq. lia.
  - rewrite lookup_insert_ne in Hl by done.
    pose proof (wf_parent _ _ _ _ Hwf Hl) as Hd.
    destruct (decide (p = d)) as [->|Hne'].
    + rewrite lookup_insert_eq. by rewrite (He Hd).
    + by rewrite lookup_insert_ne.
Qed.

Lemma grows_dirs_refl d r : grows_dirs d r r.
Proof. split; [done|]. intros p e Hn Hs. congruence. Qed.

Lemma grows_dirs_cons n d r r' : grows_dirs d r r' → grows_dirs (n :: d) r r'.
Proof.
  intros [H1 H2]. split; [done|]. intros p e Hn Hs.
  destruct (H2 p e Hn Hs) as [-> ?]. split; [done|]. by apply suffix_cons_r.
Qed.

Lemma grows_dirs_insert d r r' :
  grows_dirs d r r' → r' !! d = None → grows_dirs d r (<[d := Dir]> r').
Proof.
  intros [H1 H2] Hn. split.
  - intros p e Hl. rewrite lookup_insert_ne; [by apply H1|].
    intros <-. rewrite (H1 _ _ Hl) in Hn. done.
  - intros p e Hl Hl'. destruct (decide (d = p)) as [<-|Hne].
    + rewrite lookup_insert_eq in Hl'. by simplify_eq.
    + rewrite lookup_insert_ne in Hl' by done. eauto.
Qed.

Lemma os_mkdir_spec name s :
  match os_mkdir name s with
  | Ok _ s' =>
      st_rep s !! name = None ∧ parent_ok (st_rep s) name ∧
      st_rep s' = <[name := Dir]> (st_rep s) ∧ same_log_pairs s s'
  | Raise e s' =>
      s' = s ∧
      ((is_Some (st_rep s !! name) ∧ e = FileExistsError name) ∨
       (e = NotADirectoryError name ∧
        ∃ n head f, name = n :: head ∧ st_rep s !! head = Some (File f)) ∨
       (e = FileNotFoundError name ∧
        ∃ n head, name = n :: head ∧ st_rep s !! head = None))
  | OutOfFuel => False
  end.
Proof.
  unfold os_mkdir, same_log_pairs. simpl.
  destruct (st_rep s !! name) as [e|] eqn:Hn; simpl; [by eauto|].
  destruct name as [|n head]; simpl; [done|].
  destruct (st_rep s !! head) as [[f|]|] eqn:Hh; simpl; [|done|].
  - split; [done|]. right. left. split; [done|]. by exists n, head, f.
  - split; [done|]. right. right. split; [done|]. by exists n, head.
Qed.

(** [os.makedirs] of an absent path: it raises only when a file is in the
    way. *)
Lemma os_makedirs_spec name : ∀ s,
  wf (st_rep s) → st_rep s !! name = None →
  match os_makedirs name s with
  | Ok _ s' =>
      grows_dirs name (st_rep s) (st_rep s') ∧ st_rep s' !! name = Some Dir ∧
      wf (st_rep s') ∧ same_log_pairs s s'
  | Raise e s' =>
      (∃ p, e = NotADirectoryError p) ∧
      ∃ q f, q `suffix_of` name ∧ st_rep s !! q = Some (File f)
  | OutOfFuel => False
  end.
Proof.
  assert (∀ nm s0 s, wf (st_rep s) → grows_dirs nm (st_rep s0) (st_rep s) →
            same_log_pairs s0 s → st_rep s !! nm = None → parent_ok (st_rep s) nm →
            match os_mkdir nm s with
            | Ok _ s' =>
                grows_dirs nm (st_rep s0) (st_rep s') ∧ st_rep s' !! nm = Some Dir ∧
                wf (st_rep s') ∧ same_log_pairs s0 s'
            | Raise _ s' => False
            | OutOfFuel => False
            end) as Hmk.
  { intros nm s0 s Hwf Hg [Hlog Hpairs] Hnone Hpar.
    pose proof (os_mkdir_spec nm s) as Hm.
    destruct (os_mkdir nm s) as [[] s'|e s'|]; [| |done].
    - destruct Hm as (Hn & _ & -> & Hlog' & Hpairs'). split_and!.
      + by apply grows_dirs_insert.
      + apply lookup_insert_eq.
      + apply wf_insert; [done..|congruence].
      + split; congruence.
    - destruct Hm as [_ [[[e' He'] _]|[[_ (n & head & f & -> & Hh)]|[_ (n & head & -> & Hh)]]]];
        simpl in *; congruence. }
  induction name as [|n head IH]; intros s Hwf Hnone.
  - simpl. specialize (Hmk [] s s Hwf (grows_dirs_refl _ _) (conj eq_refl eq_refl) Hnone I).
    by destruct (os_mkdir [] s) as [[] s'|e s'|].
  - cbn [os_makedirs]. unfold bind at 1. unfold bind at 1. simpl.
    destruct (exists_ (st_rep s) head) eqn:Hex; simpl.
    + apply exists_true in Hex as [[f|] Hh].
      * pose proof (os_mkdir_spec (n :: head) s) as Hm.
        destruct (os_mkdir (n :: head) s) as [[] s'|e s'|]; [| |done].
        { destruct Hm as (_ & Hpar & _). simpl in Hpar. congruence. }
        destruct Hm as [_ [[[e' He'] _]|[[-> _]|[_ (n' & head' & [= -> ->] & Hh')]]]];
          [congruence| |congruence].
        split; [by eauto|]. exists head, f. split; [by apply suffix_cons_r|done].
      * specialize (Hmk (n :: head) s s Hwf (grows_dirs_refl _ _) (conj eq_refl eq_refl) Hnone Hh).
        by destruct (os_mkdir (n :: head) s) as [[] s'|e s'|].
    + unfold except_file_exists. apply exists_false in Hex. specialize (IH s Hwf Hex).
      destruct (os_makedirs head s) as [[] s1|e s1|]; [| |done].
      * destruct IH as (Hg & Hh & Hwf1 & Hlp).
        assert (st_rep s1 !! (n :: head) = None) as Hn1.
        { destruct (st_rep s1 !! (n :: head)) as [e|] eqn:He; [|done].
          destruct Hg as [_ Hg]. destruct (Hg _ _ Hnone He) as [_ Hs].
          by apply suffix_cons_not in Hs. }
        specialize (Hmk (n :: head) s s1 Hwf1 (grows_dirs_cons _ _ _ _ Hg) Hlp Hn1 Hh).
        by destruct (os_mkdir (n :: head) s1) as [[] s'|e' s'|].
      * destruct IH as ([p ->] & q & f & Hq & Hf).
        split; [by eauto|]. exists q, f. split; [by apply suffix_cons_r|done].
Qed.

(** ** Removals *)

Lemma removes_nothing (r : tree) : removes (λ _, False) r r.
Proof. intros p e. split; [|by intros [? _]]. intros Hl. split; [done|]. by intros []. Qed.

Lemma removes_ext (X Y : path → Prop) (r r' : tree) :
  (∀ p, is_Some (r !! p) → (X p ↔ Y p)) → removes X r r' → removes Y r r'.
Proof.
  intros HXY Hr p e. rewrite (Hr p e). split; intros [Hl Hn]; (split; [done|]);
    intros ?; apply Hn; apply (HXY p); eauto.
Qed.

Lemma removes_trans (X Y : path → Prop) (r r' r'' : tree) :
  removes X r r' → removes Y r' r'' → removes (λ p, X p ∨ Y p) r r''.
Proof. intros H1 H2 p e. rewrite (H2 p e), (H1 p e). tauto. Qed.

Lemma removes_sub (X : path → Prop) (r r' : tree) p e :
  removes X r r' → r' !! p = Some e → r !! p = Some e.
Proof. intros Hr Hl. by apply Hr in Hl as [? _]. Qed.

Lemma removes_keep (X : path → Prop) (r r' : tree) p :
  removes X r r' → ¬ X p → r' !! p = r !! p.
Proof.
  intros Hr Hn. destruct (r !! p) as [e|] eqn:Hl.
  - by apply Hr.
  - destruct (r' !! p) as [e|] eqn:Hl'; [|done].
    apply Hr in Hl' as [? _]. congruence.
Qed.

Lemma removes_wf (X : path → Prop) (r r' : tree) :
  wf r → removes X r r' →
  (∀ n d, X d → is_Some (r !! (n :: d)) → X (n :: d)) → wf r'.
Proof.
  intros Hwf Hr Hcl. apply wf_intro. intros n d e Hl.
  apply Hr in Hl as [Hl Hn]. apply Hr. split; [by eapply wf_parent|].
  intros HX. apply Hn, Hcl; eauto.
Qed.

Lemma removes_fuel_ok (X : path → Prop) (r r' : tree) fuel top :
  removes X r r' → fuel_ok r fuel top → fuel_ok r' fuel top.
Proof. intros Hr Hf p e Hl. apply (Hf p e). by eapply removes_sub. Qed.

Lemma removes_delete (r : tree) q : removes (λ p, p = q) r (delete q r).
Proof.
  intros p e. destruct (decide (q = p)) as [->|Hne].
  - rewrite lookup_delete_eq. split; [done|]. by intros [_ []].
  - rewrite lookup_delete_ne by done. split; [|by intros [? _]].
    intros Hl. split; [done|]. by intros ->.
Qed.

Lemma removes_rmtree (r : tree) q :
  removes (λ p, q `suffix_of` p) r (filter (λ qe, ¬ q `suffix_of` qe.1) r).
Proof. intros p e. rewrite map_lookup_filter_Some. simpl. done. Qed.

Lemma prune_record_mono (src : tree) (X : path → Prop) (r r' : tree) rec :
  removes X r r' → prune_record src r' rec → prune_record src r rec.
Proof.
  intros Hr. destruct rec; simpl; try done.
  all: intros ([e He] & ? & ?); split_and!; [|done..]; exists e; by eapply removes_sub.
Qed.

Lemma os_remove_real p f s :
  st_rep s !! p = Some (File f) →
  os_remove p s = Ok tt (State (delete p (st_rep s)) (st_log s) (st_pairs s)).
Proof. intros Hl. unfold os_remove. simpl. by rewrite Hl. Qed.

Lemma shutil_rmtree_real p s :
  st_rep s !! p = Some Dir →
  shutil_rmtree p s
  = Ok tt (State (filter (λ qe, ¬ p `suffix_of` qe.1) (st_rep s)) (st_log s) (st_pairs s)).
Proof. intros Hl. unfold shutil_rmtree. simpl. by rewrite Hl. Qed.

Lemma removes_id (X : path → Prop) (r r' : tree) :
  removes X r r' → (∀ p, is_Some (r !! p) → ¬ X p) → r' = r.
Proof.
  intros Hr HX. apply map_eq. intros p. destruct (r !! p) as [e|] eqn:Hl.
  - apply Hr. split; [done|]. apply HX. eauto.
  - destruct (r' !! p) as [e|] eqn:Hl'; [|done].
    apply Hr in Hl' as [? _]. congruence.
Qed.

Lemma add_log_nil s : add_log s [] = s.
Proof. destruct s. unfold add_log. simpl. by rewrite app_nil_r. Qed.

Lemma add_log_app s l1 l2 : add_log (add_log s l1) l2 = add_log s (l1 ++ l2).
Proof. unfold add_log. simpl. by rewrite (assoc_L (++)). Qed.


(** A loop whose steps only append to the log and to the pairs. *)
Lemma forM_writer {A} (l : list A) (f : A → M unit)
    (g : A → list record) (h : A → list (path * path)) (r : tree) :
  (∀ x s, x ∈ l → st_rep s = r →
     f x s = Ok tt (State r (st_log s ++ g x) (st_pairs s ++ h x))) →
  ∀ s, st_rep s = r →
    forM_ l f s = Ok tt (State r (st_log s ++ (l ≫= g)) (st_pairs s ++ (l ≫= h))).
Proof.
  intros Hf. induction l as [|x l IH]; intros s Hr; simpl.
  - destruct s; simpl in *. by rewrite !app_nil_r, Hr.
  - rewrite (Hf x s) by (done || left). rewrite IH.
    + simpl. by rewrite <-!(assoc_L (++)).
    + intros y s' Hy. apply Hf. by right.
    + done.
Qed.

Lemma bind_ext_in {A B} (f g : A → list B) (l : list A) :
  (∀ x, x ∈ l → f x = g x) → l ≫= f = l ≫= g.
Proof.
  induction l as [|x l IH]; intros Hfg; [done|].
  rewrite !bind_cons, Hfg, IH; [done| |left].
  intros y Hy. apply Hfg. by right.
Qed.

Lemma post_trivial {A} (Q : state → Prop) (r : result A) : (∀ s, Q s) → post Q r.
Proof. intros HQ. destruct r; simpl; done. Qed.

(** A loop whose steps only append to the log. *)
Lemma forM_logger {A} (l : list A) (f : A → M unit) (g : A → list record) :
  (∀ x s, x ∈ l → f x s = Ok tt (add_log s (g x))) →
  ∀ s, forM_ l f s = Ok tt (add_log s (l ≫= g)).
Proof.
  intros Hf. induction l as [|x l IH]; intros s; simpl.
  - by rewrite add_log_nil.
  - rewrite (Hf x s) by left. rewrite IH.
    + by rewrite add_log_app.
    + intros y s' Hy. apply Hf. by right.
Qed.


Lemma list_empty_no_elem {A} (l : list A) : (∀ x, x ∉ l) → l = [].
Proof. destruct l as [|x l]; [done|]. intros Hx. destruct (Hx x). left. Qed.
(** ** Reading a file in chunks *)

Lemma substring_0_cons c n s :
  String.substring 0 (S n) (String c s) = String c (String.substring 0 n s).
Proof. done. Qed.

Lemma substring_0_0 s : String.substring 0 0 s = EmptyString.
Proof. by destruct s. Qed.

Lemma substring_0_length s : String.substring 0 (String.length s) s = s.
Proof. induction s as [|c s IH]; simpl; [done|]. by rewrite IH. Qed.

Lemma substring_split n : ∀ s,
  String.append (String.substring 0 n s)
    (String.substring n (String.length s - n) s) = s.
Proof.
  induction n as [|n IH]; intros s.
  - rewrite substring_0_0, Nat.sub_0_r. simpl. apply substring_0_length.
  - destruct s as [|c s]; [done|]. simpl.
    change (String c ?a +:+ ?b) with (String c (a +:+ b)). by rewrite IH.
Qed.

Lemma length_substring_0 n : ∀ s,
  String.length (String.substring 0 n s) = Nat.min n (String.length s).
Proof.
  induction n as [|n IH]; intros s.
  - by rewrite substring_0_0.
  - destruct s as [|c s]; [done|]. simpl. by rewrite IH.
Qed.

Lemma length_substring_rest n : ∀ s,
  String.length (String.substring n (String.length s - n) s)
  = (String.length s - n)%nat.
Proof.
  induction n as [|n IH]; intros s.
  - by rewrite Nat.sub_0_r, substring_0_length.
  - destruct s as [|c s]; [done|]. simpl. apply IH.
Qed.

Lemma read_chunks_fuel_spec fuel : ∀ size data,
  (0 < size)%nat → (String.length data ≤ fuel)%nat →
  foldr String.append EmptyString (read_chunks_fuel fuel size data) = data ∧
  Forall (λ chunk, chunk ≠ EmptyString ∧ (String.length chunk ≤ size)%nat)
    (read_chunks_fuel fuel size data).
Proof.
  induction fuel as [|fuel IH]; intros size data Hsize Hlen; simpl.
  - destruct data; [done|simpl in Hlen; lia].
  - destruct (decide (data = EmptyString)) as [->|Hne]; [done|].
    destruct (IH size (String.substring size (String.length data - size) data) Hsize)
      as [Hcat Hall].
    { rewrite length_substring_rest. destruct data; [done|]. simpl in *. lia. }
    split.
    + simpl. rewrite Hcat. apply substring_split.
    + constructor; [|done]. split.
      * intros Heq. apply (f_equal String.length) in Heq.
        rewrite length_substring_0 in Heq. destruct data; [done|]. simpl in Heq. lia.
      * rewrite length_substring_0. lia.
Qed.

(** ** Rules for the state a computation ends in *)

Lemma post_bind {A B} (I : state → Prop) (m : M A) (f : A → M B) s :
  post I (m s) → (∀ a s1, m s = Ok a s1 → post I (f a s1)) → post I (bind m f s).
Proof. simpl. intros Hm Hf. destruct (m s) as [a s1|e s1|]; [by apply Hf|done..]. Qed.

Lemma os_walk_post (folder : state → tree)
    (body : path → list string → list string → M unit) (I : state → Prop) :
  (∀ d ds fs s, I s → scandir (folder s) d = Some (ds, fs) → post I (body d ds fs s)) →
  ∀ fuel top s, I s → post I (os_walk folder body fuel top s).
Proof.
  intros Hbody. induction fuel as [|fuel IH]; intros top s HI; simpl.
  - by destruct (scandir (folder s) top) as [[ds fs]|].
  - destruct (scandir (folder s) top) as [[ds fs]|] eqn:Hsc; [|done].
    pose proof (Hbody _ _ _ _ HI Hsc) as Hb.
    destruct (body top ds fs s) as [[] s1|e s1|]; [|done..].
    apply forM_post; [|done]. intros x s2 _ HI2. by apply IH.
Qed.

(** ** Loops over bodies that agree *)

Lemma forM_ext {A} (l : list A) (f g : A → M unit) :
  (∀ x s, x ∈ l → f x s = g x s) → ∀ s, forM_ l f s = forM_ l g s.
Proof.
  induction l as [|x l IH]; intros Heq s; simpl; [done|].
  rewrite Heq by left. destruct (g x s) as [[] s1|e s1|]; [|done..].
  apply IH. intros y s2 Hy. apply Heq. by right.
Qed.

Lemma os_walk_ext (folder : state → tree)
    (body1 body2 : path → list string → list string → M unit) :
  (∀ d ds fs s, body1 d ds fs s = body2 d ds fs s) →
  ∀ fuel top s, os_walk folder body1 fuel top s = os_walk folder body2 fuel top s.
Proof.
  intros Heq. induction fuel as [|fuel IH]; intros top s; simpl; [done|].
  destruct (scandir (folder s) top) as [[ds fs]|]; [|done].
  rewrite Heq. destruct (body2 top ds fs s) as [[] s1|e s1|]; [|done..].
  apply forM_ext. intros x s2 _. apply IH.
Qed.

(** ** [os.makedirs], raised or not *)

Lemma os_makedirs_post name : ∀ s,
  wf (st_rep s) →
  post (λ s', grows_dirs name (st_rep s) (st_rep s') ∧ wf (st_rep s') ∧
              same_log_pairs s s')
    (os_makedirs name s).
Proof.
  assert (∀ nm s s1,
    wf (st_rep s1) → grows_dirs nm (st_rep s) (st_rep s1) → same_log_pairs s s1 →
    post (λ s', grows_dirs nm (st_rep s) (st_rep s') ∧ wf (st_rep s') ∧
                same_log_pairs s s') (os_mkdir nm s1)) as Hmk.
  { intros nm s s1 Hwf Hg [Hl Hp]. pose proof (os_mkdir_spec nm s1) as Hs.
    destruct (os_mkdir nm s1) as [[] s2|e s2|]; simpl; [| |done].
    - destruct Hs as (Hn & Hpar & -> & Hl2 & Hp2). split_and!.
      + by apply grows_dirs_insert.
      + apply wf_insert; done.
      + split; congruence.
    - destruct Hs as [-> _]. done. }
  induction name as [|n head IH]; intros s Hwf.
  - simpl. apply Hmk; [done|apply grows_dirs_refl|done].
  - cbn [os_makedirs bind get]. destruct (exists_ (st_rep s) head); cbn [ret].
    + apply Hmk; [done|apply grows_dirs_refl|done].
    + specialize (IH s Hwf). unfold except_file_exists.
      destruct (os_makedirs head s) as [[] s1|e s1|]; simpl in IH.
      * destruct IH as (Hg & Hwf1 & Hsame). apply Hmk; [done| |done].
        by apply grows_dirs_cons.
      * destruct IH as (Hg & Hwf1 & Hsame).
        destruct e; simpl; try (split_and!; [by apply grows_dirs_cons|done..]).
        apply Hmk; [done|by apply grows_dirs_cons|done].
      * done.
Qed.
Section Props.

Context `{Env}.
Variable src : tree.
Variable pats : list string.

(** *** The comparator *)

Lemma hash_file_run sd p s :
  hash_file src sd p s
  = Ok (hash_of (tree_of src sd s) p)
       (add_log s (hash_log sd (tree_of src sd s) p)).
Proof.
  unfold hash_file, try_except, open_rb, hash_log, hash_of.
  simpl.
  destruct (tree_of src sd s !! p) as [[f|]|]; simpl; [|done..].
  destruct (f_readable f); simpl; [|done].
  by rewrite add_log_nil.
Qed.

Lemma files_are_different_run sp rp s es er :
  src !! sp = Some es → st_rep s !! rp = Some er →
  files_are_different src sp rp s
  = Ok (differs src (st_rep s) sp rp) (add_log s (differs_log src (st_rep s) sp rp)).
Proof.
  intros Hs Hr.
  unfold files_are_different, differs, differs_log, stat_of, os_stat.
  unfold tree_of. simpl. rewrite Hs, Hr.
  destruct es as [fs|]; simpl; rewrite Hr; destruct er as [fr|]; simpl.
  all: match goal with |- context [bool_decide (?a ≠ ?b)] =>
         destruct (bool_decide (a ≠ b)); simpl; [by rewrite add_log_nil|] end.
  all: match goal with |- context [bool_decide (?a > ?b)] =>
         destruct (bool_decide (a > b)); simpl; [by rewrite add_log_nil|] end.
  all: rewrite hash_file_run; simpl.
  all: rewrite hash_file_run; simpl; rewrite add_log_app; done.
Qed.


(** *** The scan *)

Lemma differs_ext (r1 r2 : tree) sp rp :
  r1 !! rp = r2 !! rp →
  differs src r1 sp rp = differs src r2 sp rp ∧
  differs_log src r1 sp rp = differs_log src r2 sp rp.
Proof.
  intros Heq. unfold differs, differs_log, stat_of, hash_log, hash_of.
  by rewrite Heq.
Qed.

Lemma file_pairs_ext (r1 r2 : tree) d fn :
  r1 !! (fn :: d) = r2 !! (fn :: d) →
  file_pairs src r1 pats d fn = file_pairs src r2 pats d fn ∧
  file_log src r1 pats d fn = file_log src r2 pats d fn.
Proof.
  intros Heq. unfold file_pairs, file_log, pending, exists_.
  destruct (differs_ext r1 r2 (fn :: d) (fn :: d) Heq) as [-> ->].
  by rewrite Heq.
Qed.

Lemma scan_files_run d files s :
  (∀ fn, fn ∈ files → is_Some (src !! (fn :: d))) →
  forM_ files (λ file_name,
    if should_exclude file_name pats then logging (ExcludingFile file_name)
    else
      bind get (λ s,
        if negb (exists_ (st_rep s) (file_name :: d)) then
          append_pair (file_name :: d, file_name :: d)
        else
          bind (files_are_different src (file_name :: d) (file_name :: d))
            (λ b : bool, if b then append_pair (file_name :: d, file_name :: d)
                         else ret tt))) s
  = Ok tt (State (st_rep s)
             (st_log s ++ (files ≫= file_log src (st_rep s) pats d))
             (st_pairs s ++ (files ≫= file_pairs src (st_rep s) pats d))).
Proof.
  intros Hfiles. apply forM_writer; [|done].
  intros fn s' Hin Hr. unfold file_log, file_pairs, pending.
  destruct (should_exclude fn pats); simpl.
  { by rewrite app_nil_r, Hr. }
  destruct (exists_ (st_rep s') (fn :: d)) eqn:Hex; simpl.
  - pose proof Hex as [er Her]%exists_true. destruct (Hfiles fn Hin) as [es Hes].
    rewrite (files_are_different_run _ _ _ _ _ Hes Her). rewrite <-Hr, Hex.
    destruct (differs src (st_rep s') (fn :: d) (fn :: d)); simpl.
    + done.
    + by rewrite app_nil_r.
  - rewrite <-Hr, Hex. simpl. by rewrite app_nil_r.
Qed.

Lemma scan_inv_refl (r : tree) : wf r → scan_inv src r r.
Proof. intros Hwf. split_and!; [done| |done]. intros p e Hn Hs. congruence. Qed.

Lemma scan_inv_file rep0 r p f :
  scan_inv src rep0 r → src !! p = Some (File f) → r !! p = rep0 !! p.
Proof.
  intros (H1 & H2 & _) Hs. destruct (rep0 !! p) as [e|] eqn:H0; [eauto|].
  destruct (r !! p) as [e|] eqn:Hr; [|done].
  destruct (H2 p e H0 Hr) as [_ ?]. congruence.
Qed.

Lemma scan_inv_grows rep0 r r' d :
  wf src → src !! d = Some Dir →
  scan_inv src rep0 r → grows_dirs d r r' → wf r' → scan_inv src rep0 r'.
Proof.
  intros Hwf Hd (H1 & H2 & _) [G1 G2] Hwf'. split_and!; [eauto| |done].
  intros p e H0 Hr'. destruct (r !! p) as [e'|] eqn:Hr.
  - rewrite (G1 _ _ Hr) in Hr'. simplify_eq. eauto.
  - destruct (G2 p e Hr Hr') as [-> Hsuf]. split; [done|].
    destruct (decide (p = d)) as [->|Hne]; [done|]. by eapply wf_ancestor.
Qed.

Lemma file_log_quiet r d fn : Forall quiet_record (file_log src r pats d fn).
Proof.
  unfold file_log. destruct (should_exclude fn pats).
  { by repeat constructor. }
  destruct (exists_ r (fn :: d)); [|constructor].
  unfold differs_log. destruct (stat_of src (fn :: d)), (stat_of r (fn :: d)); try constructor.
  case_match; [constructor|]. apply Forall_app. unfold hash_log.
  split; case_match; by repeat constructor.
Qed.

Lemma file_log_scan_record rep0 r d fn : Forall (scan_record src rep0) (file_log src r pats d fn).
Proof.
  eapply Forall_impl; [apply file_log_quiet|]. intros rec. by destruct rec.
Qed.

Lemma scan_body_real rep0 d ds fs s :
  wf src → scan_inv src rep0 (st_rep s) → scandir src d = Some (ds, fs) →
  match scan_body src false pats d ds fs s with
  | Ok _ s' =>
      scan_inv src rep0 (st_rep s') ∧
      (∀ p e, st_rep s !! p = Some e → st_rep s' !! p = Some e) ∧
      is_Some (st_rep s' !! d) ∧
      st_pairs s' = st_pairs s ++ (fs ≫= file_pairs src rep0 pats d) ∧
      ∃ lg, st_log s' = st_log s ++ lg ∧ Forall (scan_record src rep0) lg
  | Raise _ _ => ∃ q f, src !! q = Some Dir ∧ rep0 !! q = Some (File f)
  | OutOfFuel => False
  end.
Proof.
  intros Hwf Hinv Hsc. apply scandir_Some in Hsc as (Hd & _ & Hfs & _).
  assert (∀ fn, fn ∈ fs → is_Some (src !! (fn :: d))) as Hfiles.
  { intros fn [f Hf]%Hfs. eauto. }
  assert (∀ s1, scan_inv src rep0 (st_rep s1) →
            fs ≫= file_pairs src (st_rep s1) pats d = fs ≫= file_pairs src rep0 pats d)
    as Hpairs.
  { intros s1 Hinv1. apply bind_ext_in. intros fn [f Hf]%Hfs.
    apply file_pairs_ext. by eapply scan_inv_file. }
  unfold scan_body. cbn [bind get]. rewrite andb_true_r.
  destruct (exists_ (st_rep s) d) eqn:Hex; cbn [negb ret].
  - rewrite scan_files_run by done. simpl. split_and!; [done..| |by rewrite Hpairs|].
    + by apply exists_true.
    + eexists. split; [done|]. apply Forall_bind, Forall_forall.
      intros fn _. apply file_log_scan_record.
  - destruct Hinv as (H1 & H2 & Hwfr).
    pose proof (os_makedirs_spec d s Hwfr ltac:(by apply exists_false)) as Hmk.
    cbn [bind].
    destruct (os_makedirs d s) as [[] s1|e s1|]; cbn beta iota; [| |done].
    2:{ destruct Hmk as (_ & q & f & Hq & Hf). exists q, f.
        assert (src !! q = Some Dir) as Hsq.
        { destruct (decide (q = d)) as [->|Hne]; [done|]. by eapply wf_ancestor. }
        split; [done|]. destruct (rep0 !! q) as [e'|] eqn:H0.
        - rewrite (H1 _ _ H0) in Hf. congruence.
        - by destruct (H2 _ _ H0 Hf). }
    destruct Hmk as (Hg & Hd1 & Hwf1 & Hlog1 & Hpairs1). cbn [logging].
    assert (scan_inv src rep0 (st_rep s1)) as Hinv1.
    { eapply scan_inv_grows; [done..|by split_and!|done|done]. }
    rewrite scan_files_run by done. simpl. split_and!; [done|apply Hg|by eauto|..].
    + rewrite Hpairs1. f_equal. by apply Hpairs.
    + rewrite Hlog1, <-(assoc_L (++)). eexists. split; [done|].
      apply Forall_app. split.
      * repeat constructor; [|done]. apply exists_false in Hex.
        destruct (rep0 !! d) as [e|] eqn:H0; [|done]. rewrite (H1 _ _ H0) in Hex. done.
      * apply Forall_bind, Forall_forall. intros fn _. apply file_log_scan_record.
Qed.

Lemma scan_loop_real rep0 (l : list (path * (list string * list string))) : ∀ s,
  wf src → scan_inv src rep0 (st_rep s) →
  (∀ v, v ∈ l → scandir src v.1 = Some v.2) →
  match forM_ l (λ v, scan_body src false pats v.1 v.2.1 v.2.2) s with
  | Ok _ s' =>
      scan_inv src rep0 (st_rep s') ∧
      (∀ p e, st_rep s !! p = Some e → st_rep s' !! p = Some e) ∧
      (∀ v, v ∈ l → is_Some (st_rep s' !! v.1)) ∧
      st_pairs s' = st_pairs s ++ (l ≫= λ v, v.2.2 ≫= file_pairs src rep0 pats v.1) ∧
      ∃ lg, st_log s' = st_log s ++ lg ∧ Forall (scan_record src rep0) lg
  | Raise _ _ => ∃ q f, src !! q = Some Dir ∧ rep0 !! q = Some (File f)
  | OutOfFuel => False
  end.
Proof.
  induction l as [|[d [ds fs]] l IH]; intros s Hwf Hinv Hl; simpl.
  - split_and!; [done..|by intros v ?%elem_of_nil|by rewrite app_nil_r|].
    exists []. by rewrite app_nil_r.
  - pose proof (scan_body_real rep0 d ds fs s Hwf Hinv (Hl _ (list_elem_of_here _ _))) as Hb.
    destruct (scan_body src false pats d ds fs s) as [[] s1|e s1|]; [|done..].
    destruct Hb as (Hinv1 & Hmono1 & Hd1 & Hp1 & lg1 & Hlg1 & HF1).
    assert (∀ v, v ∈ l → scandir src v.1 = Some v.2) as Hl'.
    { intros v Hv. apply Hl. by right. }
    specialize (IH s1 Hwf Hinv1 Hl').
    destruct (forM_ l _ s1) as [[] s2|e s2|]; [|done..].
    destruct IH as (Hinv2 & Hmono2 & Hd2 & Hp2 & lg2 & Hlg2 & HF2).
    split_and!; [done|by eauto| | |].
    + intros v [->|Hv]%elem_of_cons; [|by eauto]. simpl.
      destruct Hd1 as [e He]. eauto.
    + rewrite Hp2, Hp1, <-(assoc_L (++)). done.
    + exists (lg1 ++ lg2). rewrite Hlg2, Hlg1, (assoc_L (++)). split; [done|].
      by apply Forall_app.
Qed.

Lemma scan_phase_real s :
  wf src → wf (st_rep s) →
  match os_walk (λ _, src) (scan_body src false pats) (S (depth src)) [] s with
  | Ok _ s' =>
      scan_inv src (st_rep s) (st_rep s') ∧
      (∀ d, src !! d = Some Dir → is_Some (st_rep s' !! d)) ∧
      st_pairs s' = st_pairs s ++ pending_pairs src (st_rep s) pats ∧
      ∃ lg, st_log s' = st_log s ++ lg ∧ Forall (scan_record src (st_rep s)) lg
  | Raise _ _ => ∃ q f, src !! q = Some Dir ∧ st_rep s !! q = Some (File f)
  | OutOfFuel => False
  end.
Proof.
  intros Hwf Hwfr. rewrite os_walk_pure.
  - assert (∀ v, v ∈ walk_list src (S (depth src)) [] → scandir src v.1 = Some v.2) as Hv.
    { intros [d [ds fs]] Hv. by eapply walk_list_sound. }
    pose proof (scan_loop_real (st_rep s) (walk_list src (S (depth src)) []) s Hwf
                  (scan_inv_refl _ Hwfr) Hv) as Hl.
    destruct (forM_ _ _ s) as [[] s'|e s'|] eqn:Hrun; [|done..].
    destruct Hl as (Hinv & _ & Hd & Hp & Hlg).
    split_and!; [done| |done..].
    intros d Hd'. destruct (scandir src d) as [[ds fs]|] eqn:Hsc.
    + apply (Hd (d, (ds, fs))).
      apply elem_of_walk_list; [done|apply fuel_ok_depth|]. split; [apply suffix_nil|done].
    + apply scandir_None in Hsc. done.
  - intros. by apply post_trivial.
  - apply fuel_ok_depth.
Qed.

(** *** The copies *)

Lemma copy_or_update_file_real pair s :
  copy_or_update_file src false pair s = Ok tt (copy_step src s pair).
Proof.
  destruct pair as [sp dp]. unfold copy_or_update_file, copy_step, copy_ok,
    shutil_copy2, open_rb, copy_target, tree_of. simpl.
  destruct (src !! sp) as [[f|]|] eqn:Hs; simpl; [|done..].
  destruct (f_readable f); simpl; [|done].
  set (t := match st_rep s !! dp with Some Dir => _ | _ => dp end).
  destruct (st_rep s !! t) as [[g|]|]; simpl; [|done|].
  - by destruct (f_writable g).
  - destruct t as [|n head]; simpl; [done|].
    by destruct (st_rep s !! head) as [[?|]|].
Qed.

Lemma shutil_copy2_raise sp dp s e s' :
  shutil_copy2 src sp dp s = Raise e s' → s' = s.
Proof.
  unfold shutil_copy2, open_rb, tree_of. simpl.
  set (t := match st_rep s !! dp with Some Dir => _ | _ => dp end).
  destruct (src !! sp) as [[f|]|]; simpl; try (by intros ?; simplify_eq).
  destruct (f_readable f); simpl; try (by intros ?; simplify_eq).
  destruct (st_rep s !! t) as [[g|]|]; simpl; try (by intros ?; simplify_eq).
  - destruct (f_writable g); simpl; by intros ?; simplify_eq.
  - destruct t as [|n head]; simpl; [by intros ?; simplify_eq|].
    destruct (st_rep s !! head) as [[?|]|]; simpl; by intros ?; simplify_eq.
Qed.

Lemma apply_real (l : list (path * path)) : ∀ s,
  forM_ l (copy_or_update_file src false) s = Ok tt (foldl (copy_step src) s l).
Proof.
  induction l as [|pair l IH]; intros s; simpl; [done|].
  by rewrite copy_or_update_file_real, IH.
Qed.

Lemma copy_step_spec s pair :
  st_pairs (copy_step src s pair) = st_pairs s ∧
  ((st_log (copy_step src s pair) = st_log s ++ [FailedToCopy pair.1 pair.2] ∧
    st_rep (copy_step src s pair) = st_rep s) ∨
   (st_log (copy_step src s pair) = st_log s ++ [CopiedUpdated pair.1 pair.2] ∧
    ∃ f, src !! pair.1 = Some (File f) ∧
         st_rep (copy_step src s pair)
         = <[copy_target (st_rep s) pair.1 pair.2 := File f]> (st_rep s) ∧
         st_rep s !! copy_target (st_rep s) pair.1 pair.2 ≠ Some Dir ∧
         (wf (st_rep s) → parent_ok (st_rep s) (copy_target (st_rep s) pair.1 pair.2)))).
Proof.
  unfold copy_step, copy_ok.
  destruct (src !! pair.1) as [[f|]|] eqn:Hs; simpl; [|by eauto..].
  destruct (f_readable f); simpl; [|by eauto].
  set (t := copy_target (st_rep s) pair.1 pair.2).
  destruct (st_rep s !! t) as [[g|]|] eqn:Ht; simpl; [|by eauto|].
  - destruct (f_writable g); simpl; [|by eauto]. split; [done|]. right.
    split; [done|]. exists f. split_and!; [done..|].
    intros Hwf. destruct t as [|n head]; [done|]. simpl. by eapply wf_parent.
  - destruct t as [|n head] eqn:Et; simpl.
    { split; [done|]. right. split; [done|]. exists f.
      split_and!; [done|done|congruence|done]. }
    destruct (st_rep s !! head) as [[?|]|] eqn:Hh; simpl; [by eauto| |by eauto].
    split; [done|]. right. split; [done|]. exists f.
    split_and!; [done|done|congruence|done].
Qed.

Lemma copy_target_cases (r : tree) sp dp :
  copy_target r sp dp = dp ∨
  (r !! dp = Some Dir ∧ copy_target r sp dp = basename sp :: dp).
Proof. unfold copy_target. destruct (r !! dp) as [[?|]|]; eauto. Qed.

(** What the loop over the pairs keeps. *)
Lemma apply_frame (l : list (path * path)) : ∀ s,
  st_pairs (foldl (copy_step src) s l) = st_pairs s ∧
  (wf (st_rep s) → wf (st_rep (foldl (copy_step src) s l))) ∧
  (∀ x, st_rep s !! x = Some Dir → st_rep (foldl (copy_step src) s l) !! x = Some Dir) ∧
  (∀ x, is_Some (st_rep s !! x) → is_Some (st_rep (foldl (copy_step src) s l) !! x)) ∧
  (∀ x, (∀ pair, pair ∈ l → x ≠ pair.2 ∧ x ≠ basename pair.1 :: pair.2) →
        st_rep (foldl (copy_step src) s l) !! x = st_rep s !! x).
Proof.
  induction l as [|pair l IH]; intros s; simpl; [done|].
  destruct (IH (copy_step src s pair)) as (IH1 & IH2 & IH3 & IH4 & IH5).
  destruct (copy_step_spec s pair) as [Hp [[Hlog Hrep]|[Hlog (f & Hs & Hrep & Hnd & Hpar)]]].
  - rewrite Hrep in *. split_and!; [congruence|done..|].
    intros x Hx. apply IH5. intros pr Hpr. apply Hx. by right.
  - rewrite Hrep in *. split_and!; [congruence|..].
    + intros Hwf. apply IH2, wf_insert; [done|by apply Hpar|done].
    + intros x Hx. apply IH3. rewrite lookup_insert_ne; [done|]. congruence.
    + intros x Hx. apply IH4. destruct (decide (copy_target (st_rep s) pair.1 pair.2 = x)) as [->|].
      * rewrite lookup_insert_eq. eauto.
      * by rewrite lookup_insert_ne.
    + intros x Hx. rewrite IH5.
      * destruct (Hx pair (list_elem_of_here _ _)) as [Hx1 Hx2].
        rewrite lookup_insert_ne; [done|].
        destruct (copy_target_cases (st_rep s) pair.1 pair.2) as [->|[_ ->]]; done.
      * intros pr Hpr. apply Hx. by right.
Qed.

(** One line per pair, naming both paths of the pair. *)
Lemma apply_log (l : list (path * path)) : ∀ s,
  ∃ lg, st_log (foldl (copy_step src) s l) = st_log s ++ lg ∧
        Forall2 (λ pair r, r = CopiedUpdated pair.1 pair.2 ∨ r = FailedToCopy pair.1 pair.2) l lg.
Proof.
  induction l as [|pair l IH]; intros s; simpl.
  { exists []. by rewrite app_nil_r. }
  destruct (IH (copy_step src s pair)) as (lg & Hlg & HF).
  destruct (copy_step_spec s pair) as [_ [[Hlog _]|[Hlog _]]];
    rewrite Hlg, Hlog, <-(assoc_L (++)); eexists; (split; [done|]);
    constructor; eauto.
Qed.

(** A pair whose copy did not fail leaves the source file at the target. *)
Lemma apply_copied p f (l : list (path * path)) : ∀ s lg,
  wf src → src !! p = Some (File f) →
  (∀ pair, pair ∈ l → pair.1 = pair.2 ∧ ∃ g, src !! pair.1 = Some (File g)) →
  st_rep s !! p ≠ Some Dir →
  st_log (foldl (copy_step src) s l) = st_log s ++ lg →
  FailedToCopy p p ∉ lg →
  (p, p) ∈ l ∨ st_rep s !! p = Some (File f) →
  st_rep (foldl (copy_step src) s l) !! p = Some (File f).
Proof.
  induction l as [|pair l IH]; intros s lg Hwf Hp Hl Hnd Hlog Hnf Hin; simpl.
  { destruct Hin as [Hin|]; [|done]. by apply elem_of_nil in Hin. }
  simpl in Hlog.
  destruct (apply_log l (copy_step src s pair)) as (lg' & Hlg' & _).
  destruct (Hl pair (list_elem_of_here _ _)) as [Heq [g Hg]].
  assert (∀ pr, pr ∈ l → pr.1 = pr.2 ∧ ∃ g, src !! pr.1 = Some (File g)) as Hl'.
  { intros pr Hpr. apply Hl. by right. }
  destruct pair as [q q']. simpl in *. subst q'.
  assert (basename q :: q ≠ p) as Hchild.
  { intros <-. destruct q as [|n q]; simpl in *.
    - rewrite (wf_parent _ _ _ _ Hwf Hp) in Hg. done.
    - rewrite (wf_parent _ _ _ _ Hwf Hp) in Hg. done. }
  destruct (copy_step_spec s (q, q)) as [_ [[Hlog1 Hrep]|[Hlog1 (f' & Hs & Hrep & Hnd' & _)]]];
    simpl in *.
  - rewrite Hlg', Hlog1, <-(assoc_L (++)) in Hlog. apply app_inv_head in Hlog. subst lg.
    apply (IH _ lg'); [done..|by rewrite Hrep|done| |].
    + intros Hf. apply Hnf. by right.
    + rewrite Hrep. destruct Hin as [[Heq|Hin]%elem_of_cons|Hin]; [|by eauto..].
      simplify_eq. destruct Hnf. left.
  - rewrite Hlg', Hlog1, <-(assoc_L (++)) in Hlog. apply app_inv_head in Hlog. subst lg.
    assert (copy_target (st_rep s) q q = p → q = p ∧ f' = f) as Htp.
    { destruct (copy_target_cases (st_rep s) q q) as [->|[_ ->]]; [|done].
      intros ->. split; [done|]. congruence. }
    apply (IH _ lg'); [done..| |done| |].
    + rewrite Hrep. destruct (decide (copy_target (st_rep s) q q = p)) as [Ht|Ht].
      * rewrite Ht, lookup_insert_eq. done.
      * by rewrite lookup_insert_ne.
    + intros Hf. apply Hnf. by right.
    + rewrite Hrep.
      destruct (decide (copy_target (st_rep s) q q = p)) as [Ht|Ht].
      * right. destruct (Htp Ht) as [-> ->]. rewrite Ht. apply lookup_insert_eq.
      * rewrite lookup_insert_ne by done.
        destruct Hin as [[Heq|Hin]%elem_of_cons|Hin]; [|by eauto..].
        simplify_eq. destruct Ht. unfold copy_target.
        destruct (st_rep s !! _) as [[?|]|] eqn:?; congruence.
Qed.

(** Copies of readable files to absent paths of existing directories
    all succeed. *)
Lemma apply_fresh (l : list (path * path)) : ∀ s,
  wf src → NoDup l →
  (∀ pair, pair ∈ l →
     pair.1 = pair.2 ∧
     ∃ n d f, pair.1 = n :: d ∧ src !! pair.1 = Some (File f) ∧ f_readable f = true ∧
              st_rep s !! pair.1 = None ∧ st_rep s !! d = Some Dir) →
  st_log (foldl (copy_step src) s l)
  = st_log s ++ ((λ pair, CopiedUpdated pair.1 pair.2) <$> l) ∧
  ∀ x, st_rep (foldl (copy_step src) s l) !! x
       = if decide ((x, x) ∈ l) then src !! x else st_rep s !! x.
Proof.
  induction l as [|[q q'] l IH]; intros s Hwf Hnd Hl; cbn [foldl fmap list_fmap].
  { rewrite app_nil_r. split; [done|]. intros x. rewrite decide_False; [done|].
    by intros ?%elem_of_nil. }
  apply NoDup_cons in Hnd as [Hni Hnd].
  destruct (Hl (q, q') (list_elem_of_here _ _)) as [Heq (n & d & f & Hq & Hf & Hr & Hnone & Hd)].
  simpl in *. subst q' q.
  assert (copy_step src s (n :: d, n :: d)
          = State (<[n :: d := File f]> (st_rep s))
              (st_log s ++ [CopiedUpdated (n :: d) (n :: d)]) (st_pairs s)) as ->.
  { unfold copy_step, copy_ok, copy_target. simpl. rewrite Hf, Hnone. simpl.
    by rewrite Hnone, Hr, Hd. }
  destruct (IH (State (<[n :: d := File f]> (st_rep s))
                  (st_log s ++ [CopiedUpdated (n :: d) (n :: d)]) (st_pairs s)) Hwf Hnd)
    as [-> Hrep].
  { intros [sp dp] Hin. destruct (Hl _ (list_elem_of_further _ _ _ Hin))
      as [Heq (n' & d' & f' & Hq' & Hf' & Hr' & Hnone' & Hd')].
    simpl in *. subst dp sp. split; [done|]. exists n', d', f'. split_and!; [done..| |].
    - rewrite lookup_insert_ne; [done|]. intros Heq. by rewrite Heq in Hni.
    - rewrite lookup_insert_ne; [done|]. intros <-.
      rewrite (wf_parent _ _ _ _ Hwf Hf') in Hf. done. }
  cbn [st_log st_rep]. rewrite <-(assoc_L (++)). split; [done|]. intros x. rewrite Hrep.
  cbn [st_rep].
  destruct (decide ((x, x) ∈ l)) as [Hin|Hin].
  - rewrite decide_True; [done|]. by right.
  - destruct (decide (x = n :: d)) as [->|Hne].
    + rewrite decide_True by left. by rewrite lookup_insert_eq.
    + rewrite decide_False.
      * by rewrite lookup_insert_ne.
      * intros [[= ?]|?]%elem_of_cons; done.
Qed.

(** *** The pruning of a real pass *)

Lemma prune_files_real top (files : list string) : ∀ s,
  wf (st_rep s) → NoDup files →
  (∀ fn, fn ∈ files → ∃ f, st_rep s !! (fn :: top) = Some (File f)) →
  ∃ r' lg,
    forM_ files (λ file_name,
      if negb (exists_ src (file_name :: top)) then
        bind (os_remove (file_name :: top))
             (λ _, logging (RemovedFile (file_name :: top)))
      else ret tt) s
    = Ok tt (State r' (st_log s ++ lg) (st_pairs s)) ∧
    wf r' ∧
    removes (λ p, ∃ fn, fn ∈ files ∧ p = fn :: top ∧ src !! p = None) (st_rep s) r' ∧
    Forall (prune_record src (st_rep s)) lg.
Proof.
  induction files as [|fn files IH]; intros s Hwf Hnd Hfiles.
  { exists (st_rep s), []. simpl. rewrite app_nil_r. destruct s. split_and!; [done..| |done].
    eapply removes_ext; [|apply removes_nothing]. intros p _. split; [done|].
    by intros (? & ?%elem_of_nil & _). }
  apply NoDup_cons in Hnd as [Hni Hnd].
  destruct (Hfiles fn (list_elem_of_here _ _)) as [f Hf].
  cbn [forM_ bind]. destruct (exists_ src (fn :: top)) eqn:Hex; cbn [negb ret bind].
  - destruct (IH s Hwf Hnd) as (r' & lg & -> & Hwf' & Hrm & Hlg).
    { intros fn' Hfn'. apply Hfiles. by right. }
    exists r', lg. split_and!; [done..| |done].
    eapply removes_ext; [|done]. intros p _. split.
    + intros (fn' & ? & ? & ?). exists fn'. split; [by right|done].
    + intros (fn' & [->|?]%elem_of_cons & -> & Hn); [|by eauto].
      apply exists_true in Hex as [? ?]. congruence.
  - rewrite (os_remove_real _ f) by done. cbn [bind logging].
    set (s1 := State _ _ _).
    assert (removes (λ p, p = fn :: top) (st_rep s) (st_rep s1)) as Hrm1
      by apply removes_delete.
    assert (wf (st_rep s1)) as Hwf1.
    { eapply removes_wf; [done..|]. intros n d -> [e He].
      rewrite (wf_parent _ _ _ _ Hwf He) in Hf. done. }
    destruct (IH s1 Hwf1 Hnd) as (r' & lg & -> & Hwf' & Hrm & Hlg).
    { intros fn' Hfn'. destruct (Hfiles fn' ltac:(by right)) as [f' Hf'].
      exists f'. apply Hrm1. split; [done|]. intros [= ->]. done. }
    exists r', (RemovedFile (fn :: top) :: lg). simpl. rewrite <-(assoc_L (++)).
    split_and!; [done..| |].
    + eapply removes_ext; [|by eapply removes_trans]. simpl. intros p _. split.
      * intros [->|(fn' & ? & ? & ?)].
        -- exists fn. split_and!; [left|done|by apply exists_false].
        -- exists fn'. split; [by right|done].
      * intros (fn' & [->|?]%elem_of_cons & -> & Hn); [by left|]. right. eauto.
    + constructor.
      * split_and!; [by eauto|by apply exists_false|done].
      * eapply Forall_impl; [done|]. intros rec. by apply prune_record_mono with (X := λ p, p = fn :: top).
Qed.

Lemma prune_dirs_real top (dirs : list string) : ∀ s,
  wf (st_rep s) → NoDup dirs →
  (∀ dn, dn ∈ dirs → st_rep s !! (dn :: top) = Some Dir) →
  ∃ r' lg,
    forM_ dirs (λ dir_name,
      if negb (exists_ src (dir_name :: top)) then
        bind (shutil_rmtree (dir_name :: top))
             (λ _, logging (RemovedDirectory (dir_name :: top)))
      else ret tt) s
    = Ok tt (State r' (st_log s ++ lg) (st_pairs s)) ∧
    wf r' ∧
    removes (λ p, ∃ dn, dn ∈ dirs ∧ (dn :: top) `suffix_of` p ∧ src !! (dn :: top) = None)
      (st_rep s) r' ∧
    Forall (prune_record src (st_rep s)) lg.
Proof.
  induction dirs as [|dn dirs IH]; intros s Hwf Hnd Hdirs.
  { exists (st_rep s), []. simpl. rewrite app_nil_r. destruct s. split_and!; [done..| |done].
    eapply removes_ext; [|apply removes_nothing]. intros p _. split; [done|].
    by intros (? & ?%elem_of_nil & _). }
  apply NoDup_cons in Hnd as [Hni Hnd].
  pose proof (Hdirs dn (list_elem_of_here _ _)) as Hd.
  cbn [forM_ bind]. destruct (exists_ src (dn :: top)) eqn:Hex; cbn [negb ret bind].
  - destruct (IH s Hwf Hnd) as (r' & lg & -> & Hwf' & Hrm & Hlg).
    { intros dn' Hdn'. apply Hdirs. by right. }
    exists r', lg. split_and!; [done..| |done].
    eapply removes_ext; [|done]. intros p _. split.
    + intros (dn' & ? & ? & ?). exists dn'. split; [by right|done].
    + intros (dn' & [->|?]%elem_of_cons & ? & Hn); [|by eauto].
      apply exists_true in Hex as [? ?]. congruence.
  - rewrite shutil_rmtree_real by done. cbn [bind logging].
    set (s1 := State _ _ _).
    assert (removes (λ p, (dn :: top) `suffix_of` p) (st_rep s) (st_rep s1)) as Hrm1
      by apply removes_rmtree.
    assert (wf (st_rep s1)) as Hwf1.
    { eapply removes_wf; [done..|]. intros n d Hs _. by apply suffix_cons_r. }
    destruct (IH s1 Hwf1 Hnd) as (r' & lg & -> & Hwf' & Hrm & Hlg).
    { intros dn' Hdn'. apply Hrm1. split; [by apply Hdirs; right|].
      intros [Heq|Hs]%suffix_cons_inv; [by simplify_eq|].
      by apply suffix_cons_not in Hs. }
    exists r', (RemovedDirectory (dn :: top) :: lg). simpl. rewrite <-(assoc_L (++)).
    split_and!; [done..| |].
    + eapply removes_ext; [|by eapply removes_trans]. simpl. intros p _. split.
      * intros [?|(dn' & ? & ? & ?)].
        -- exists dn. split_and!; [left|done|by apply exists_false].
        -- exists dn'. split; [by right|done].
      * intros (dn' & [->|?]%elem_of_cons & ? & Hn); [by left|]. right. eauto.
    + constructor.
      * split_and!; [by eauto|by apply exists_false|done].
      * eapply Forall_impl; [done|]. intros rec.
        by apply prune_record_mono with (X := λ p, (dn :: top) `suffix_of` p).
Qed.

Lemma orphan_below_none (r : tree) top :
  wf r → scandir r top = None →
  removes (orphan_below src top) r r.
Proof.
  intros Hwf Hsc. eapply removes_ext; [|apply removes_nothing].
  intros p [e He]. split; [done|]. intros (Hs & Hne & _).
  apply scandir_None in Hsc. destruct Hsc. by eapply wf_ancestor.
Qed.

Lemma prune_children_real fuel top (l : list string) :
  (∀ top s, wf (st_rep s) → fuel_ok (st_rep s) fuel top →
     ∃ r' lg,
       os_walk st_rep (prune_body src false) fuel top s
       = Ok tt (State r' (st_log s ++ lg) (st_pairs s)) ∧
       wf r' ∧ removes (orphan_below src top) (st_rep s) r' ∧
       Forall (prune_record src (st_rep s)) lg) →
  ∀ s, wf (st_rep s) → fuel_ok (st_rep s) (S fuel) top →
    ∃ r' lg,
      forM_ l (λ dir_name, os_walk st_rep (prune_body src false) fuel (dir_name :: top)) s
      = Ok tt (State r' (st_log s ++ lg) (st_pairs s)) ∧
      wf r' ∧
      removes (λ p, ∃ dn, dn ∈ l ∧ orphan_below src (dn :: top) p) (st_rep s) r' ∧
      Forall (prune_record src (st_rep s)) lg.
Proof.
  intros Hwalk. induction l as [|dn l IH]; intros s Hwf Hfuel.
  { exists (st_rep s), []. simpl. rewrite app_nil_r. destruct s. split_and!; [done..| |done].
    eapply removes_ext; [|apply removes_nothing]. intros p _. split; [done|].
    by intros (? & ?%elem_of_nil & _). }
  cbn [forM_ bind].
  destruct (Hwalk (dn :: top) s Hwf) as (r1 & lg1 & -> & Hwf1 & Hrm1 & Hlg1).
  { by apply fuel_ok_child. }
  set (s1 := State r1 _ _).
  destruct (IH s1 Hwf1) as (r' & lg & -> & Hwf' & Hrm & Hlg).
  { by eapply removes_fuel_ok. }
  exists r', (lg1 ++ lg). simpl. rewrite <-(assoc_L (++)). split_and!; [done..| |].
  - eapply removes_ext; [|by eapply removes_trans]. simpl. intros p _. split.
    + intros [?|(dn' & ? & ?)]; [exists dn; split; [left|done]|].
      exists dn'. split; [by right|done].
    + intros (dn' & [->|?]%elem_of_cons & ?); [by left|]. right. eauto.
  - apply Forall_app. split; [done|].
    eapply Forall_impl; [done|]. intros rec. by eapply prune_record_mono.
Qed.

Lemma prune_walk_real fuel : ∀ top s,
  wf src → wf (st_rep s) → fuel_ok (st_rep s) fuel top →
  ∃ r' lg,
    os_walk st_rep (prune_body src false) fuel top s
    = Ok tt (State r' (st_log s ++ lg) (st_pairs s)) ∧
    wf r' ∧ removes (orphan_below src top) (st_rep s) r' ∧
    Forall (prune_record src (st_rep s)) lg.
Proof.
  induction fuel as [|fuel IH]; intros top s Hsrc Hwf Hfuel.
  - exists (st_rep s), []. apply fuel_ok_zero in Hfuel.
    assert (scandir (st_rep s) top = None) as Hsc by (apply scandir_None; congruence).
    simpl. rewrite Hsc, app_nil_r. destruct s. split_and!; [done..| |done].
    by apply orphan_below_none.
  - cbn [os_walk]. destruct (scandir (st_rep s) top) as [[dirs files]|] eqn:Hsc.
    2:{ exists (st_rep s), []. rewrite app_nil_r. destruct s. split_and!; [done..| |done].
        by apply orphan_below_none. }
    apply scandir_Some in Hsc as (Htop & Hdirs & Hfiles & Hnd & Hnf).
    unfold prune_body at 1. cbn [bind negb]. cbv zeta.
    destruct (prune_files_real top files s Hwf Hnf) as (r1 & lg1 & -> & Hwf1 & Hrm1 & Hlg1).
    { intros fn. apply Hfiles. }
    set (s1 := State r1 _ _).
    destruct (prune_dirs_real top dirs s1 Hwf1 Hnd) as (r2 & lg2 & -> & Hwf2 & Hrm2 & Hlg2).
    { intros dn Hdn%Hdirs. apply Hrm1. split; [done|].
      intros (fn & [f Hf]%Hfiles & [= ->] & _). congruence. }
    set (s2 := State r2 _ _).
    destruct (prune_children_real fuel top dirs (λ t s', IH t s' Hsrc) s2 Hwf2)
      as (r3 & lg3 & -> & Hwf3 & Hrm3 & Hlg3).
    { eapply removes_fuel_ok; [done|]. by eapply removes_fuel_ok. }
    exists r3, (lg1 ++ lg2 ++ lg3). simpl. rewrite <-!(assoc_L (++)).
    split_and!; [done..| |].
    + eapply removes_ext; [|eapply removes_trans; [eapply removes_trans|]; done].
      simpl. intros p [e He]. unfold orphan_below. split.
      * intros [[(fn & _ & -> & Hn)|(dn & _ & Hs & Hn)]|(dn & _ & Hs & Hne & Hn)].
        -- split_and!; [by apply suffix_cons_r| |done].
           intros Heq. apply (f_equal length) in Heq. simpl in Heq. lia.
        -- split_and!; [by eapply suffix_cons_l| |].
           { intros ->. by apply suffix_cons_not in Hs. }
           destruct (src !! p) as [e'|] eqn:Hp; [|done].
           destruct (decide (dn :: top = p)) as [<-|Hne]; [congruence|].
           rewrite (wf_ancestor src p (dn :: top) e') in Hn; done.
        -- split_and!; [by eapply suffix_cons_l| |done].
           intros ->. by apply suffix_cons_not in Hs.
      * intros (Hs & Hne & Hn).
        destruct (suffix_child _ _ Hs Hne) as [x Hx].
        destruct (decide (x :: top = p)) as [<-|Hne'].
        -- destruct e as [f|].
           ++ left. left. exists x. split; [apply Hfiles; eauto|done].
           ++ left. right. exists x. split; [by apply Hdirs|done].
        -- assert (st_rep s !! (x :: top) = Some Dir) as Hxd by (by eapply wf_ancestor).
           destruct (src !! (x :: top)) as [e'|] eqn:Hsx.
           ++ right. exists x. split; [by apply Hdirs|]. done.
           ++ left. right. exists x. split; [by apply Hdirs|done].
    + apply Forall_app. split; [done|]. apply Forall_app. split.
      * eapply Forall_impl; [done|]. intros rec. by eapply prune_record_mono.
      * eapply Forall_impl; [done|]. intros rec Hrec.
        eapply prune_record_mono; [exact Hrm1|]. by eapply prune_record_mono.
Qed.

(** *** Passes that do not change the replica *)

Lemma scan_body_quiet dry d ds fs s :
  dry = true ∨ exists_ (st_rep s) d = true →
  (∀ fn, fn ∈ fs → is_Some (src !! (fn :: d))) →
  scan_body src dry pats d ds fs s
  = Ok tt (State (st_rep s)
             (st_log s ++ (fs ≫= file_log src (st_rep s) pats d))
             (st_pairs s ++ (fs ≫= file_pairs src (st_rep s) pats d))).
Proof.
  intros Hq Hfs. unfold scan_body. cbn [bind get].
  assert (negb (exists_ (st_rep s) d) && negb dry = false) as ->.
  { destruct Hq as [->| ->]; [by rewrite andb_false_r|done]. }
  cbn [ret]. by apply scan_files_run.
Qed.

Lemma scan_phase_quiet dry s :
  dry = true ∨ (∀ d, src !! d = Some Dir → is_Some (st_rep s !! d)) →
  os_walk (λ _, src) (scan_body src dry pats) (S (depth src)) [] s
  = Ok tt (State (st_rep s)
             (st_log s ++ scan_log src (st_rep s) pats)
             (st_pairs s ++ pending_pairs src (st_rep s) pats)).
Proof.
  intros Hq. rewrite os_walk_pure.
  - apply (forM_writer _ _ (λ v, v.2.2 ≫= file_log src (st_rep s) pats v.1)
             (λ v, v.2.2 ≫= file_pairs src (st_rep s) pats v.1)); [|done].
    intros [d [ds fs]] s' Hv Hr. simpl.
    apply walk_list_sound, scandir_Some in Hv as (Hd & _ & Hfs & _).
    rewrite scan_body_quiet; [by rewrite Hr| |].
    + destruct Hq as [->|Hq]; [by left|]. right. rewrite Hr. apply exists_true. eauto.
    + intros fn [f Hf]%Hfs. eauto.
  - intros. by apply post_trivial.
  - apply fuel_ok_depth.
Qed.

Lemma apply_dry (l : list (path * path)) s :
  forM_ l (copy_or_update_file src true) s
  = Ok tt (add_log s ((λ pair, WouldCopyUpdate pair.1 pair.2) <$> l)).
Proof.
  assert ((λ pair : path * path, WouldCopyUpdate pair.1 pair.2) <$> l
          = l ≫= λ pair, [WouldCopyUpdate pair.1 pair.2]) as ->.
  { induction l as [|x l IH]; [done|]. by rewrite bind_cons, <-IH. }
  apply forM_logger. by intros [sp dp] s' _.
Qed.

Lemma prune_body_dry d ds fs s :
  prune_body src true d ds fs s = Ok tt (add_log s (would_remove src d ds fs)).
Proof.
  unfold prune_body, would_remove. cbn [bind negb]. cbv zeta.
  rewrite (forM_logger _ _
    (λ fn, if exists_ src (fn :: d) then [] else [WouldRemoveFile (fn :: d)])).
  2:{ intros fn s' _. destruct (exists_ src (fn :: d)); simpl; [|done].
      by rewrite add_log_nil. }
  rewrite (forM_logger _ _
    (λ dn, if exists_ src (dn :: d) then [] else [WouldRemoveDirectory (dn :: d)])).
  2:{ intros dn s' _. destruct (exists_ src (dn :: d)); simpl; [|done].
      by rewrite add_log_nil. }
  by rewrite add_log_app.
Qed.

Lemma prune_phase_dry s r :
  st_rep s = r →
  os_walk st_rep (prune_body src true) (S (depth r)) [] s
  = Ok tt (add_log s (would_remove_log src r)).
Proof.
  intros <-. rewrite os_walk_pure.
  - apply forM_logger. intros [d [ds fs]] s' _. apply prune_body_dry.
  - intros d ds fs s'. by rewrite prune_body_dry.
  - apply fuel_ok_depth.
Qed.

Lemma elem_of_would_remove d ds fs rec :
  rec ∈ would_remove src d ds fs ↔
  (∃ fn, fn ∈ fs ∧ src !! (fn :: d) = None ∧ rec = WouldRemoveFile (fn :: d)) ∨
  (∃ dn, dn ∈ ds ∧ src !! (dn :: d) = None ∧ rec = WouldRemoveDirectory (dn :: d)).
Proof.
  unfold would_remove. rewrite elem_of_app, !list_elem_of_bind. split.
  - intros [(fn & Hin & Hfn)|(dn & Hin & Hdn)].
    + left. exists fn. destruct (exists_ src (fn :: d)) eqn:Hex; [by apply elem_of_nil in Hin|].
      apply list_elem_of_singleton in Hin. by apply exists_false in Hex.
    + right. exists dn. destruct (exists_ src (dn :: d)) eqn:Hex; [by apply elem_of_nil in Hin|].
      apply list_elem_of_singleton in Hin. by apply exists_false in Hex.
  - intros [(fn & Hin & Hn & ->)|(dn & Hin & Hn & ->)].
    + left. exists fn. split; [|done]. apply exists_false in Hn as ->.
      by apply list_elem_of_singleton.
    + right. exists dn. split; [|done]. apply exists_false in Hn as ->.
      by apply list_elem_of_singleton.
Qed.


(** One line per entry of the replica the source does not have. *)
Lemma elem_of_would_remove_log rep rec :
  wf rep →
  rec ∈ would_remove_log src rep ↔
  ∃ p, p ≠ [] ∧ src !! p = None ∧
       (((∃ f, rep !! p = Some (File f)) ∧ rec = WouldRemoveFile p) ∨
        (rep !! p = Some Dir ∧ rec = WouldRemoveDirectory p)).
Proof.
  intros Hwf. unfold would_remove_log. rewrite list_elem_of_bind. split.
  - intros ([d [ds fs]] & Hin & Hv). simpl in Hin.
    apply walk_list_sound, scandir_Some in Hv as (_ & Hds & Hfs & _).
    apply elem_of_would_remove in Hin as [(fn & Hin & Hn & ->)|(dn & Hin & Hn & ->)].
    + exists (fn :: d). split_and!; [done..|]. left. split; [by apply Hfs|done].
    + exists (dn :: d). split_and!; [done..|]. right. split; [by apply Hds|done].
  - intros (p & Hne & Hn & Hp). destruct p as [|n d]; [done|].
    assert (rep !! d = Some Dir) as Hd.
    { destruct Hp as [[[f Hf] _]|[Hf _]]; by eapply wf_parent. }
    destruct (scandir rep d) as [[ds fs]|] eqn:Hsc; [|by apply scandir_None in Hsc].
    exists (d, (ds, fs)). split.
    + simpl. apply elem_of_would_remove.
      apply scandir_Some in Hsc as (_ & Hds & Hfs & _).
      destruct Hp as [[Hf ->]|[Hf ->]]; [left|right]; exists n.
      * split; [by apply Hfs|done].
      * split; [by apply Hds|done].
    + apply elem_of_walk_list; [done|apply fuel_ok_depth|].
      split; [apply suffix_nil|done].
Qed.


(** *** The whole pass *)

Lemma pass_dry rep :
  sync_folders src true pats rep
  = Ok tt (State rep
             (root_log true rep ++ scan_log src rep pats
              ++ ((λ pair, WouldCopyUpdate pair.1 pair.2) <$> pending_pairs src rep pats)
              ++ would_remove_log src rep)
             (pending_pairs src rep pats)).
Proof.
  unfold sync_folders, sync_folders_M, root_log. cbn [bind get st_rep negb].
  destruct (exists_ rep []) eqn:Hex; cbn [negb ret bind logging].
  - rewrite scan_phase_quiet by (by left). cbn [bind get st_rep st_pairs].
    rewrite apply_dry. cbn [bind get add_log st_rep].
    rewrite (prune_phase_dry _ rep) by done. unfold add_log. simpl. by rewrite <-!(assoc_L (++)).
  - rewrite scan_phase_quiet by (by left). cbn [bind get st_rep st_pairs].
    rewrite apply_dry. cbn [bind get add_log st_rep].
    rewrite (prune_phase_dry _ rep) by done. unfold add_log. simpl. by rewrite <-!(assoc_L (++)).
Qed.

Lemma ensure_root_lookup rep n d : ensure_root rep !! (n :: d) = rep !! (n :: d).
Proof.
  unfold ensure_root. destruct (rep !! []); [done|]. by rewrite lookup_insert_ne.
Qed.

Lemma ensure_root_wf rep : wf rep → wf (ensure_root rep).
Proof.
  intros Hwf. unfold ensure_root. destruct (rep !! []) eqn:Hr; [done|].
  apply wf_insert; [done..|congruence].
Qed.

Lemma ensure_root_real rep lg pairs :
  (if negb (exists_ rep []) then
     bind (os_makedirs []) (λ _, logging CreatedReplicaFolder)
   else ret tt) (State rep lg pairs)
  = Ok tt (State (ensure_root rep) (lg ++ root_log false rep) pairs).
Proof.
  unfold ensure_root, root_log, exists_, os_makedirs, os_mkdir. simpl.
  destruct (rep !! []) eqn:Hr; simpl; [by rewrite app_nil_r|]. by rewrite Hr.
Qed.

Lemma pass_real rep :
  wf src → wf rep →
  match sync_folders src false pats rep with
  | Ok _ s' => real_pass_post src pats rep s'
  | Raise _ _ => ∃ q f, src !! q = Some Dir ∧ rep !! q = Some (File f)
  | OutOfFuel => False
  end.
Proof.
  intros Hsrc Hrep. unfold sync_folders, sync_folders_M.
  cbn [bind get st_rep negb]. rewrite ensure_root_real. cbn [app].
  set (s0 := State (ensure_root rep) _ _).
  pose proof (scan_phase_real s0 Hsrc (ensure_root_wf _ Hrep)) as Hscan.
  destruct (os_walk _ _ _ _ s0) as [[] ss|e ss|]; [| |done].
  2:{ destruct Hscan as (q & f & Hq & Hf). exists q, f. split; [done|].
      simpl in Hf. unfold ensure_root in Hf. destruct (rep !! []) eqn:Hr; [done|].
      destruct (decide (q = [])) as [->|Hne].
      - by rewrite lookup_insert_eq in Hf.
      - by rewrite lookup_insert_ne in Hf. }
  destruct Hscan as (Hinv & Hdirs & Hpairs & lg_s & Hlg_s & HFs).
  cbn [bind get]. rewrite apply_real.
  set (sa := foldl _ ss _).
  destruct (prune_walk_real (S (depth (st_rep sa))) [] sa Hsrc)
    as (r' & lg_p & -> & Hwf' & Hrm & HFp).
  { apply apply_frame. apply Hinv. }
  { apply fuel_ok_depth. }
  exists (st_rep ss), lg_s, lg_p. cbn zeta.
  assert (ss = State (st_rep ss) (root_log false rep ++ lg_s)
                 (pending_pairs src (ensure_root rep) pats)) as Hss.
  { destruct ss. simpl in *. by subst. }
  assert (sa = foldl (copy_step src)
                 (State (st_rep ss) (root_log false rep ++ lg_s)
                    (pending_pairs src (ensure_root rep) pats))
                 (pending_pairs src (ensure_root rep) pats)) as <-.
  { unfold sa. rewrite Hpairs. simpl. by rewrite <-Hss. }
  simpl. split_and!; [done..|].
  unfold sa. destruct (apply_frame (st_pairs ss) ss) as [-> _]. done.
Qed.

(** *** The pending pairs *)

Lemma elem_of_pending_pairs rep sp dp :
  wf src →
  (sp, dp) ∈ pending_pairs src rep pats ↔
  sp = dp ∧ ∃ fn d f, sp = fn :: d ∧ src !! sp = Some (File f) ∧
                      should_exclude fn pats = false ∧ pending src rep sp = true.
Proof.
  intros Hwf. unfold pending_pairs. rewrite list_elem_of_bind. split.
  - intros ([d [ds fs]] & Hin & Hv). simpl in Hin.
    apply walk_list_sound, scandir_Some in Hv as (_ & _ & Hfs & _).
    apply list_elem_of_bind in Hin as (fn & Hin & [f Hf]%Hfs).
    unfold file_pairs in Hin. destruct (should_exclude fn pats) eqn:Hex.
    { by apply elem_of_nil in Hin. }
    destruct (pending src rep (fn :: d)) eqn:Hp; [|by apply elem_of_nil in Hin].
    apply list_elem_of_singleton in Hin as [= -> ->]. split; [done|].
    by exists fn, d, f.
  - intros [<- (fn & d & f & -> & Hf & Hex & Hp)].
    pose proof (wf_parent _ _ _ _ Hwf Hf) as Hd.
    destruct (scandir src d) as [[ds fs]|] eqn:Hsc;
      [|by apply scandir_None in Hsc].
    exists (d, (ds, fs)). split.
    + simpl. apply list_elem_of_bind. exists fn. split.
      * unfold file_pairs. rewrite Hex, Hp. by apply list_elem_of_singleton.
      * apply scandir_Some in Hsc as (_ & _ & Hfs & _). apply Hfs. eauto.
    + apply elem_of_walk_list; [done|apply fuel_ok_depth|].
      split; [apply suffix_nil|done].
Qed.

Lemma pending_pairs_ext (r1 r2 : tree) :
  (∀ n d, r1 !! (n :: d) = r2 !! (n :: d)) →
  pending_pairs src r1 pats = pending_pairs src r2 pats ∧
  scan_log src r1 pats = scan_log src r2 pats.
Proof.
  intros Heq. unfold pending_pairs, scan_log.
  split; apply bind_ext_in; intros [d [ds fs]] _; simpl;
    apply bind_ext_in; intros fn _; by apply file_pairs_ext.
Qed.

Lemma NoDup_pending_pairs rep : wf src → NoDup (pending_pairs src rep pats).
Proof.
  intros Hwf. unfold pending_pairs. apply NoDup_bind.
  - intros [d1 [ds1 fs1]] [d2 [ds2 fs2]] pair Hv1 Hv2 Hin1 Hin2. simpl in Hin1, Hin2.
    apply walk_list_sound in Hv1, Hv2.
    apply list_elem_of_bind in Hin1 as (fn1 & Hin1 & _).
    apply list_elem_of_bind in Hin2 as (fn2 & Hin2 & _).
    unfold file_pairs in Hin1, Hin2.
    repeat case_match; try by apply elem_of_nil in Hin1.
    all: try by apply elem_of_nil in Hin2.
    apply list_elem_of_singleton in Hin1, Hin2. simplify_eq. done.
  - intros [d [ds fs]] Hv. simpl.
    apply walk_list_sound, scandir_Some in Hv as (_ & _ & _ & _ & Hnd).
    apply NoDup_bind; [|intros fn _|done].
    + intros fn1 fn2 pair _ _ Hin1 Hin2. unfold file_pairs in Hin1, Hin2.
      repeat case_match; try by apply elem_of_nil in Hin1.
      all: try by apply elem_of_nil in Hin2.
      apply list_elem_of_singleton in Hin1, Hin2. by simplify_eq.
    + unfold file_pairs. repeat case_match; try constructor.
      * by intros ?%elem_of_nil.
      * constructor.
  - eapply NoDup_fmap_1, NoDup_walk_list; [done|apply fuel_ok_depth].
Qed.

(** *** What a real pass that returns leaves in the replica *)

Lemma pass_pairs rep s' :
  real_pass_post src pats rep s' → st_pairs s' = pending_pairs src rep pats.
Proof.
  intros (rs & lg_s & lg_p & _ & _ & _ & _ & _ & _ & _ & ->).
  apply pending_pairs_ext, ensure_root_lookup.
Qed.

Lemma pass_no_orphans rep s' p :
  real_pass_post src pats rep s' → p ≠ [] → src !! p = None → st_rep s' !! p = None.
Proof.
  intros (rs & lg_s & lg_p & _ & _ & _ & Hrm & _) Hne Hn.
  destruct (st_rep s' !! p) as [e|] eqn:Hl; [|done].
  apply Hrm in Hl as [_ Ho]. destruct Ho. split_and!; [apply suffix_nil|done..].
Qed.

Lemma not_copy_target rep p :
  wf src → p = [] ∨ is_Some (src !! p) → (p, p) ∉ pending_pairs src rep pats →
  ∀ pair, pair ∈ pending_pairs src rep pats →
    p ≠ pair.2 ∧ p ≠ basename pair.1 :: pair.2.
Proof.
  intros Hwf Hp Hni [sp dp] Hin. pose proof Hin as Hin'.
  apply elem_of_pending_pairs in Hin' as [<- (fn & d & f & -> & Hf & _)]; [|done].
  simpl. split; [by intros ->|]. intros ->.
  destruct Hp as [?|[e He]]; [done|].
  rewrite (wf_parent _ _ _ _ Hwf He) in Hf. done.
Qed.

Lemma pass_keeps_root rep s' p e :
  wf src → real_pass_post src pats rep s' →
  ensure_root rep !! p = Some e → p = [] ∨ is_Some (src !! p) →
  (p, p) ∉ pending_pairs src rep pats →
  st_rep s' !! p = Some e.
Proof.
  intros Hwf Hpost Hl Hp Hni. pose proof Hpost as Hpairs%pass_pairs.
  destruct Hpost as (rs & lg_s & lg_p & Hinv & _ & _ & Hrm & _ & _ & _ & Hpairs').
  rewrite Hpairs in Hpairs'. rewrite <-Hpairs' in Hrm. apply Hrm. split.
  - destruct (apply_frame (pending_pairs src rep pats)
                (State rs (root_log false rep ++ lg_s) (pending_pairs src rep pats)))
      as (_ & _ & _ & _ & Hframe).
    rewrite Hframe by (by apply not_copy_target). simpl. by apply Hinv.
  - intros (_ & Hne & Hn). destruct Hp as [?|[? ?]]; congruence.
Qed.

Lemma ensure_root_Some rep p e : rep !! p = Some e → ensure_root rep !! p = Some e.
Proof.
  intros Hl. unfold ensure_root. destruct (rep !! []) eqn:Hr; [done|].
  rewrite lookup_insert_ne; [done|]. intros <-. congruence.
Qed.

Lemma pass_keeps rep s' p e :
  wf src → real_pass_post src pats rep s' →
  rep !! p = Some e → p = [] ∨ is_Some (src !! p) →
  (p, p) ∉ pending_pairs src rep pats →
  st_rep s' !! p = Some e.
Proof. intros ?? Hl%ensure_root_Some ??. by eapply pass_keeps_root. Qed.

Lemma pass_dirs rep s' d :
  wf src → real_pass_post src pats rep s' → src !! d = Some Dir →
  st_rep s' !! d = Some (default Dir (rep !! d)).
Proof.
  intros Hwf Hpost Hd.
  assert ((d, d) ∉ pending_pairs src rep pats) as Hni.
  { intros (_ & fn & d' & f & -> & Hf & _)%elem_of_pending_pairs; [|done]. congruence. }
  destruct (rep !! d) as [e|] eqn:Hl; simpl.
  { eapply pass_keeps; eauto. }
  pose proof Hpost as Hpairs%pass_pairs.
  destruct Hpost as (rs & lg_s & lg_p & Hinv & Hdirs & _ & Hrm & _ & _ & _ & Hpairs').
  rewrite Hpairs in Hpairs'. rewrite <-Hpairs' in Hrm. apply Hrm. split.
  - destruct (apply_frame (pending_pairs src rep pats)
                (State rs (root_log false rep ++ lg_s) (pending_pairs src rep pats)))
      as (_ & _ & _ & _ & Hframe).
    rewrite Hframe by (apply not_copy_target; eauto). simpl.
    destruct (Hdirs d Hd) as [e He]. rewrite He. f_equal.
    destruct Hinv as (H1 & H2 & _).
    destruct (ensure_root rep !! d) as [e0|] eqn:H0.
    + rewrite (H1 _ _ H0) in He. simplify_eq. destruct d as [|n d].
      * unfold ensure_root in H0. rewrite Hl, lookup_insert_eq in H0. congruence.
      * rewrite ensure_root_lookup in H0. congruence.
    + by destruct (H2 _ _ H0 He).
  - intros (_ & _ & Hn). congruence.
Qed.

Lemma pass_copied rep s' p f :
  wf src → real_pass_post src pats rep s' →
  src !! p = Some (File f) → (p, p) ∈ pending_pairs src rep pats →
  rep !! p ≠ Some Dir → FailedToCopy p p ∉ st_log s' →
  st_rep s' !! p = Some (File f).
Proof.
  intros Hwf Hpost Hf Hin Hnd Hnf. pose proof Hpost as Hpairs%pass_pairs.
  destruct Hpost as (rs & lg_s & lg_p & Hinv & _ & _ & Hrm & _ & Hlog & _ & Hpairs').
  rewrite Hpairs in Hpairs'. rewrite <-Hpairs' in Hrm, Hlog. apply Hrm. split.
  - set (ss := State rs (root_log false rep ++ lg_s) (pending_pairs src rep pats)) in *.
    destruct (apply_log (pending_pairs src rep pats) ss) as (lg & Hlg & _).
    apply (apply_copied p f _ ss lg); [done..| | |done| |by left].
    + intros [sp dp] (<- & fn & d & g & -> & Hg & _)%elem_of_pending_pairs; [|done].
      split; [done|]. eauto.
    + simpl. rewrite (scan_inv_file _ _ _ _ Hinv Hf).
      apply elem_of_pending_pairs in Hin as (_ & fn & d & g & -> & _); [|done].
      by rewrite ensure_root_lookup.
    + intros Hfl. apply Hnf. rewrite Hlog, Hlg.
      apply elem_of_app. left. apply elem_of_app. by right.
  - intros (_ & _ & Hn). congruence.
Qed.

(** *** A pass over a replica that already mirrors the source *)

Lemma differs_same (r : tree) p f :
  src !! p = Some (File f) → r !! p = Some (File f) → differs src r p p = false.
Proof.
  intros Hs Hr. unfold differs, stat_of, hash_of. rewrite Hs, Hr. simpl.
  rewrite !bool_decide_eq_false_2; first [done|lia|congruence].
Qed.

Lemma pending_ext (r1 r2 : tree) p :
  r1 !! p = r2 !! p → pending src r1 p = pending src r2 p.
Proof.
  intros Heq. unfold pending, exists_.
  destruct (differs_ext r1 r2 p p Heq) as [-> _]. by rewrite Heq.
Qed.

Lemma scan_log_quiet rep : Forall quiet_record (scan_log src rep pats).
Proof.
  unfold scan_log. apply Forall_bind, Forall_forall. intros [d [ds fs]] _. simpl.
  apply Forall_bind, Forall_forall. intros fn _. apply file_log_quiet.
Qed.

Lemma pass_on_mirror (R : tree) :
  wf src → wf R → is_Some (R !! []) →
  (∀ d, src !! d = Some Dir → is_Some (R !! d)) →
  pending_pairs src R pats = [] →
  (∀ p, p ≠ [] → is_Some (R !! p) → is_Some (src !! p)) →
  sync_folders src false pats R = Ok tt (State R (scan_log src R pats) []).
Proof.
  intros Hsrc Hwf Hroot Hdirs Hpairs Horph. unfold sync_folders, sync_folders_M.
  cbn [bind get st_rep negb]. rewrite ensure_root_real. cbn [app].
  assert (ensure_root R = R) as ->.
  { unfold ensure_root. by destruct Hroot as [e ->]. }
  assert (root_log false R = []) as ->.
  { unfold root_log. by apply exists_true in Hroot as ->. }
  rewrite scan_phase_quiet by (by right). cbn [st_rep st_log st_pairs app bind get].
  rewrite Hpairs. cbn [forM_ ret bind get st_rep].
  set (ss := State R _ _).
  destruct (prune_walk_real (S (depth R)) [] ss Hsrc Hwf (fuel_ok_depth _))
    as (r' & lg_p & -> & _ & Hrm & HFp).
  assert (r' = R) as ->.
  { eapply removes_id; [done|]. intros p Hp (_ & Hne & Hn).
    destruct (Horph p Hne Hp). congruence. }
  assert (lg_p = []) as ->.
  { destruct lg_p as [|rec lg]; [done|]. apply Forall_cons in HFp as [Hrec _].
    destruct rec; try done; destruct Hrec as (Hp & Hn & Hne);
      destruct (Horph _ Hne Hp); simpl in *; congruence. }
  simpl. by rewrite app_nil_r.
Qed.

(** ** The properties of the specification *)


(** C5. When the comparator reaches the hash step (equal sizes, source
    not newer), every digest that cannot be computed writes exactly one
    line naming the operation and the path, also when both digests fail;
    and a pair is classified as unchanged after a failure only when both
    digests failed, in which case the two lines are in the log. *)
Theorem digest_failure_is_logged sp rp s ss rs :
  stat_of src sp = Some ss → stat_of (st_rep s) rp = Some rs →
  ss.1 = rs.1 → ss.2 ≤ rs.2 →
  ∃ b,
    files_are_different src sp rp s
    = Ok b (add_log s
              (match hash_of src sp with
               | Some _ => []
               | None => [ErrorHashing Source sp]
               end
               ++ match hash_of (st_rep s) rp with
                  | Some _ => []
                  | None => [ErrorHashing Replica rp]
                  end)) ∧
    (hash_of src sp = None → is_Some (hash_of (st_rep s) rp) → b = true) ∧
    (is_Some (hash_of src sp) → hash_of (st_rep s) rp = None → b = true) ∧
    (hash_of src sp = None → hash_of (st_rep s) rp = None → b = false).
Proof.
  intros Hs Hr Hsize Hmtime.
  assert (is_Some (src !! sp)) as [es Hes].
  { unfold stat_of in Hs. destruct (src !! sp); [eauto|done]. }
  assert (is_Some (st_rep s !! rp)) as [er Her].
  { unfold stat_of in Hr. destruct (st_rep s !! rp); [eauto|done]. }
  rewrite (files_are_different_run _ _ _ _ _ Hes Her).
  unfold differs, differs_log, hash_log. rewrite Hs, Hr.
  rewrite (bool_decide_eq_false_2 (ss.1 ≠ rs.1)) by congruence.
  rewrite (bool_decide_eq_false_2 (ss.2 > rs.2)) by lia. simpl.
  eexists. split; [done|]. split_and!.
  - intros -> [h ->]. by rewrite bool_decide_eq_true_2.
  - intros [h ->] ->. by rewrite bool_decide_eq_true_2.
  - intros -> ->. by rewrite bool_decide_eq_false_2 by congruence.
Qed.

(** C6. In a real pass a copy that raises is caught: it writes one line
    with the source and the target of its pair and leaves the replica as
    it was; the loop goes on, and the pairs after it are copied exactly
    as they are when the failing pair is not in the list. *)
Theorem copy_failure_is_isolated l1 sp dp l2 s s1 e s1' :
  forM_ l1 (copy_or_update_file src false) s = Ok tt s1 →
  shutil_copy2 src sp dp s1 = Raise e s1' →
  ∃ s2 s2' lg,
    forM_ (l1 ++ (sp, dp) :: l2) (copy_or_update_file src false) s = Ok tt s2 ∧
    forM_ (l1 ++ l2) (copy_or_update_file src false) s = Ok tt s2' ∧
    st_rep s2 = st_rep s2' ∧
    st_log s2 = st_log s1 ++ FailedToCopy sp dp :: lg ∧
    st_log s2' = st_log s1 ++ lg ∧
    Forall2 (λ pair r, r = CopiedUpdated pair.1 pair.2 ∨ r = FailedToCopy pair.1 pair.2) l2 lg.
Proof.
  intros Hl1 Hraise.
  assert (copy_or_update_file src false (sp, dp) s1
          = Ok tt (add_log s1 [FailedToCopy sp dp])) as Hbad.
  { assert (s1' = s1) as ->.
    { by eapply shutil_copy2_raise. }
    unfold copy_or_update_file. simpl. by rewrite Hraise. }
  assert (∀ l sa sb, st_rep sa = st_rep sb →
            ∃ lg, st_rep (foldl (copy_step src) sa l) = st_rep (foldl (copy_step src) sb l) ∧
                  st_log (foldl (copy_step src) sa l) = st_log sa ++ lg ∧
                  st_log (foldl (copy_step src) sb l) = st_log sb ++ lg ∧
                  Forall2 (λ pair r, r = CopiedUpdated pair.1 pair.2
                                     ∨ r = FailedToCopy pair.1 pair.2) l lg) as Hsame.
  { induction l as [|pair l IH]; intros sa sb Heq; simpl.
    { exists []. by rewrite !app_nil_r. }
    assert (∃ rec, st_rep (copy_step src sa pair) = st_rep (copy_step src sb pair) ∧
                   st_log (copy_step src sa pair) = st_log sa ++ [rec] ∧
                   st_log (copy_step src sb pair) = st_log sb ++ [rec] ∧
                   (rec = CopiedUpdated pair.1 pair.2 ∨ rec = FailedToCopy pair.1 pair.2))
      as (rec & Hrep & Hla & Hlb & Hrec).
    { unfold copy_step. rewrite Heq. destruct (src !! pair.1); [|by eauto 10].
      destruct (copy_ok src (st_rep sb) pair.1 pair.2); simpl; eauto 10. }
    destruct (IH _ _ Hrep) as (lg & ? & Hlga & Hlgb & HF).
    exists (rec :: lg). rewrite Hlga, Hlgb, Hla, Hlb, <-!(assoc_L (++)).
    split_and!; [done..|]. by constructor. }
  assert (forM_ (l1 ++ (sp, dp) :: l2) (copy_or_update_file src false) s
          = Ok tt (foldl (copy_step src) (add_log s1 [FailedToCopy sp dp]) l2)) as ->.
  { rewrite forM_app. cbn [bind]. rewrite Hl1. cbn [forM_ bind]. rewrite Hbad.
    apply apply_real. }
  assert (forM_ (l1 ++ l2) (copy_or_update_file src false) s
          = Ok tt (foldl (copy_step src) s1 l2)) as ->.
  { rewrite forM_app. cbn [bind]. rewrite Hl1. apply apply_real. }
  destruct (Hsame l2 (add_log s1 [FailedToCopy sp dp]) s1 eq_refl) as (lg & Hrep & Hla & Hlb & HF).
  eexists _, _, lg. split_and!; [done..| |done|done].
  rewrite Hla. simpl. by rewrite <-(assoc_L (++)).
Qed.


(** C8 (as amended). A file of the replica whose bare name matches an
    exclusion pattern and whose relative path exists in the source is not
    pruned: a real pass that returns leaves it as it was. *)
Theorem excluded_file_is_kept rep fn d e :
  wf src → wf rep →
  is_Some (src !! (fn :: d)) → should_exclude fn pats = true →
  rep !! (fn :: d) = Some e →
  match sync_folders src false pats rep with
  | Ok _ s' => st_rep s' !! (fn :: d) = Some e
  | Raise _ _ => ∃ q f, src !! q = Some Dir ∧ rep !! q = Some (File f)
  | OutOfFuel => False
  end.
Proof.
  intros Hsrc Hrep Hs Hex Hr. pose proof (pass_real rep Hsrc Hrep) as Hpass.
  destruct (sync_folders src false pats rep) as [[] s'|e' s'|]; [|done..].
  eapply pass_keeps; [done..|by right|].
  intros (_ & fn' & d' & f & [= <- <-] & _ & Hex' & _)%elem_of_pending_pairs; [|done].
  congruence.
Qed.



(** C2. From an empty replica (absent, or an empty directory), when
    every source file that is not excluded is readable, a real pass
    returns and leaves in the replica exactly the directories of the
    source and its files that are not excluded, at the same relative
    paths and with the same content, modification time and permission
    bits. *)
Theorem convergence rep :
  wf src → src !! [] = Some Dir →
  rep = ∅ ∨ rep = {[ [] := Dir ]} →
  (∀ fn d f, src !! (fn :: d) = Some (File f) → should_exclude fn pats = false →
             f_readable f = true) →
  ∃ lg pairs,
    sync_folders src false pats rep
    = Ok tt (State (filter (non_excluded pats) src) lg pairs).
Proof.
  intros Hsrc Hroot Hrep Hread.
  assert (wf rep) as Hwf.
  { destruct Hrep as [-> | ->]; apply wf_intro; intros n d e Hl.
    - by rewrite lookup_empty in Hl.
    - apply lookup_singleton_Some in Hl as [? _]. done. }
  assert (ensure_root rep = {[ [] := Dir ]}) as Hr0.
  { destruct Hrep as [-> | ->]; unfold ensure_root.
    - by rewrite lookup_empty.
    - by rewrite lookup_singleton_eq. }
  assert (∀ n d, rep !! (n :: d) = None) as Hnone.
  { intros n d. rewrite <-ensure_root_lookup, Hr0. by apply lookup_singleton_ne. }
  pose proof (pass_real rep Hsrc Hwf) as Hpass.
  destruct (sync_folders src false pats rep) as [[] s'|e' s'|]; [| |done].
  2:{ destruct Hpass as (q & f & _ & Hf). destruct Hrep as [-> | ->].
      - by rewrite lookup_empty in Hf.
      - apply lookup_singleton_Some in Hf as [_ ?]. done. }
  pose proof (pass_pairs _ _ Hpass) as Hpairs.
  destruct Hpass as (rs & lg_s & lg_p & Hinv & Hdirs & _ & Hrm & _ & _ & _ & Hpairs').
  rewrite Hpairs in Hpairs'. rewrite <-Hpairs' in Hrm. rewrite Hr0 in Hinv.
  destruct Hinv as (H1 & H2 & Hwfs).
  assert (∀ x, rs !! x = match src !! x with Some Dir => Some Dir | _ => None end) as Hrs.
  { intros x. destruct (decide (x = [])) as [->|Hne].
    - rewrite Hroot. apply H1. apply lookup_singleton_eq.
    - assert (({[ [] := Dir ]} : tree) !! x = None) as H0 by (by apply lookup_singleton_ne).
      destruct (rs !! x) as [e|] eqn:Hx.
      + destruct (H2 _ _ H0 Hx) as [-> ->]. done.
      + destruct (src !! x) as [[f|]|] eqn:Hs; [done| |done].
        destruct (Hdirs x Hs) as [e He]. congruence. }
  set (ss := State rs (root_log false rep ++ lg_s) (pending_pairs src rep pats)) in *.
  destruct (apply_fresh (pending_pairs src rep pats) ss Hsrc (NoDup_pending_pairs _ Hsrc))
    as [_ Hsa].
  { intros [sp dp] (<- & fn & d & f & -> & Hf & Hex & _)%elem_of_pending_pairs; [|done].
    split; [done|]. exists fn, d, f. simpl. rewrite !Hrs, Hf, (wf_parent _ _ _ _ Hsrc Hf).
    split_and!; eauto. }
  assert (st_rep s' = st_rep (foldl (copy_step src) ss (pending_pairs src rep pats))) as Hfinal.
  { eapply removes_id; [done|]. intros p [e He] (_ & Hne & Hn).
    rewrite Hsa in He. simpl in He. rewrite Hrs, Hn in He. by case_decide. }
  destruct s' as [r lg pairs]. simpl in Hfinal. exists lg, pairs. do 2 f_equal.
  subst r. apply map_eq. intros x. rewrite Hsa. simpl. rewrite Hrs.
  destruct (src !! x) as [e|] eqn:Hx.
  - destruct e as [f|].
    + destruct x as [|fn d]; [congruence|].
      destruct (should_exclude fn pats) eqn:Hex.
      * rewrite decide_False.
        -- symmetry. apply map_lookup_filter_None. right. intros e' He'.
           simplify_eq. simpl. congruence.
        -- intros (_ & fn' & d' & f' & [= <- <-] & _ & Hex' & _)%elem_of_pending_pairs;
             [congruence|done].
      * rewrite decide_True.
        -- symmetry. by apply map_lookup_filter_Some.
        -- apply elem_of_pending_pairs; [done|]. split; [done|]. exists fn, d, f.
           split_and!; [done..|]. unfold pending, exists_. by rewrite Hnone.
    + rewrite decide_False.
      * symmetry. apply map_lookup_filter_Some. split; [done|]. by destruct x.
      * intros (_ & fn' & d' & f' & -> & Hf' & _)%elem_of_pending_pairs; [congruence|done].
  - rewrite decide_False.
    + symmetry. apply map_lookup_filter_None. by left.
    + intros (_ & fn' & d' & f' & -> & Hf' & _)%elem_of_pending_pairs; [congruence|done].
Qed.

(** C7 (as amended). When the replica has no directory at the relative
    path of a source file that is not excluded, and a real pass returns
    without a failed copy, a second real pass over the unchanged trees
    returns with an empty list of pending pairs and the same replica, and
    writes no line of creation, copy or removal. *)
Theorem second_pass_is_idle rep s1 :
  wf src → wf rep →
  (∀ fn d f, src !! (fn :: d) = Some (File f) → should_exclude fn pats = false →
             rep !! (fn :: d) ≠ Some Dir) →
  sync_folders src false pats rep = Ok tt s1 →
  (∀ sp dp, FailedToCopy sp dp ∉ st_log s1) →
  ∃ lg,
    sync_folders src false pats (st_rep s1) = Ok tt (State (st_rep s1) lg []) ∧
    Forall quiet_record lg.
Proof.
  intros Hsrc Hrep Hshadow Hrun Hok.
  pose proof (pass_real rep Hsrc Hrep) as Hpass. rewrite Hrun in Hpass.
  exists (scan_log src (st_rep s1) pats). split; [|apply scan_log_quiet].
  apply pass_on_mirror; [done|..].
  - by destruct Hpass as (? & ? & ? & _ & _ & _ & _ & ? & _).
  - assert (is_Some (ensure_root rep !! [])) as [e He].
    { unfold ensure_root. destruct (rep !! []) eqn:Hr; [by rewrite Hr|].
      rewrite lookup_insert_eq. eauto. }
    exists e. eapply pass_keeps_root; [done..|by left|].
    intros Hin. by apply elem_of_pending_pairs in Hin as (_ & fn & d & f & ? & _).
  - intros d Hd. rewrite (pass_dirs rep s1 d); eauto.
  - apply list_empty_no_elem. intros [sp dp].
    intros (<- & fn & d & f & -> & Hf & Hex & Hp)%elem_of_pending_pairs; [|done].
    assert (pending src (st_rep s1) (fn :: d) = false); [|congruence].
    destruct (decide ((fn :: d, fn :: d) ∈ pending_pairs src rep pats)) as [Hin|Hni].
    + assert (st_rep s1 !! (fn :: d) = Some (File f)) as Hcopied.
      { eapply pass_copied; eauto. }
      unfold pending, exists_. rewrite Hcopied. simpl. by apply (differs_same _ _ f).
    + assert (pending src rep (fn :: d) = false) as Hnp.
      { destruct (pending src rep (fn :: d)) eqn:Hp'; [|done]. destruct Hni.
        apply elem_of_pending_pairs; [done|]. split; [done|]. by exists fn, d, f. }
      rewrite <-Hnp. apply pending_ext.
      destruct (rep !! (fn :: d)) as [e|] eqn:Hr.
      * eapply pass_keeps; eauto.
      * unfold pending, exists_ in Hnp. by rewrite Hr in Hnp.
  - intros p Hne Hp. destruct (src !! p) as [e|] eqn:Hs; [eauto|].
    rewrite (pass_no_orphans rep s1 p) in Hp by done. by destruct Hp.
Qed.

(** *** The state a scan ends in, raised or not *)

Lemma scan_body_post rep0 lg0 d ds fs s :
  wf src → scandir src d = Some (ds, fs) →
  scan_inv src rep0 (st_rep s) →
  (∃ lg, st_log s = lg0 ++ lg ∧ Forall (scan_record src rep0) lg) →
  post (λ s', scan_inv src rep0 (st_rep s') ∧
              ∃ lg, st_log s' = lg0 ++ lg ∧ Forall (scan_record src rep0) lg)
    (scan_body src false pats d ds fs s).
Proof.
  intros Hwf Hsc Hinv (lg & Hlg & HF).
  pose proof (scan_body_real rep0 d ds fs s Hwf Hinv Hsc) as Hreal.
  destruct (scan_body src false pats d ds fs s) as [[] s'|e s'|] eqn:Hrun; simpl; [| |done].
  - destruct Hreal as (Hinv' & _ & _ & _ & lg' & Hlg' & HF'). split; [done|].
    exists (lg ++ lg'). rewrite Hlg', Hlg, (assoc_L (++)). split; [done|].
    by apply Forall_app.
  - apply scandir_Some in Hsc as (Hd & _ & Hfs & _).
    assert (∀ fn, fn ∈ fs → is_Some (src !! (fn :: d))) as Hfiles.
    { intros fn [f Hf]%Hfs. eauto. }
    unfold scan_body in Hrun. cbn [bind get] in Hrun. rewrite andb_true_r in Hrun.
    destruct (exists_ (st_rep s) d) eqn:Hex; cbn [negb ret] in Hrun.
    { by rewrite scan_files_run in Hrun. }
    cbn [bind] in Hrun. destruct Hinv as (H1 & H2 & Hwfr).
    pose proof (os_makedirs_post d s Hwfr) as Hmk.
    destruct (os_makedirs d s) as [[] s1|e1 s1|]; cbn beta iota in Hrun; [| |done].
    { cbn [logging] in Hrun. by rewrite scan_files_run in Hrun. }
    injection Hrun as -> ->. destruct Hmk as (Hg & Hwf1 & Hl1 & _). split.
    + eapply scan_inv_grows; [done..|by split_and!|done|done].
    + exists lg. by rewrite Hl1.
Qed.

Lemma scan_phase_post s :
  wf src → wf (st_rep s) →
  post (λ s', scan_inv src (st_rep s) (st_rep s') ∧
              ∃ lg, st_log s' = st_log s ++ lg ∧ Forall (scan_record src (st_rep s)) lg)
    (os_walk (λ _, src) (scan_body src false pats) (S (depth src)) [] s).
Proof.
  intros Hwf Hwfr.
  apply (os_walk_post (λ _, src) (scan_body src false pats)
           (λ s', scan_inv src (st_rep s) (st_rep s') ∧
                  ∃ lg, st_log s' = st_log s ++ lg ∧ Forall (scan_record src (st_rep s)) lg)).
  - intros d ds fs s1 [Hinv Hlg] Hsc. by apply scan_body_post.
  - split; [by apply scan_inv_refl|]. exists []. by rewrite app_nil_r.
Qed.

(** A pass raises in its scan only. *)
Lemma pass_raise rep e s' :
  wf src → wf rep → sync_folders src false pats rep = Raise e s' →
  scan_inv src (ensure_root rep) (st_rep s') ∧
  ∃ lg, st_log s' = root_log false rep ++ lg ∧
        Forall (scan_record src (ensure_root rep)) lg.
Proof.
  intros Hsrc Hrep. unfold sync_folders, sync_folders_M.
  cbn [bind get st_rep negb]. rewrite ensure_root_real. cbn [app].
  set (s0 := State (ensure_root rep) _ _).
  pose proof (scan_phase_post s0 Hsrc (ensure_root_wf _ Hrep)) as Hpost.
  pose proof (scan_phase_real s0 Hsrc (ensure_root_wf _ Hrep)) as Hscan.
  destruct (os_walk _ _ _ _ s0) as [[] ss|e1 ss|]; [| |done].
  - destruct Hscan as (Hinv & _). cbn [bind get]. rewrite apply_real.
    set (sa := foldl _ ss _).
    destruct (prune_walk_real (S (depth (st_rep sa))) [] sa Hsrc)
      as (r' & lg_p & -> & _).
    { apply apply_frame. apply Hinv. }
    { apply fuel_ok_depth. }
    done.
  - intros [= -> ->]. exact Hpost.
Qed.

(** *** One pair among the pending pairs *)

Lemma copy_ok_frame (r1 r2 : tree) p f :
  src !! p = Some (File f) →
  r1 !! p = r2 !! p → (∀ n d, p = n :: d → r1 !! d = r2 !! d) →
  r1 !! p ≠ Some Dir ∨ f_readable f = false →
  copy_ok src r1 p p = copy_ok src r2 p p.
Proof.
  intros Hs Hp Hd [Hnd|Hr]; unfold copy_ok; rewrite Hs; [|by rewrite Hr].
  assert (copy_target r1 p p = p) as ->.
  { unfold copy_target. by destruct (r1 !! p) as [[]|]. }
  assert (copy_target r2 p p = p) as ->.
  { unfold copy_target. rewrite <-Hp. by destruct (r1 !! p) as [[]|]. }
  rewrite <-Hp. destruct (r1 !! p) as [[]|]; [done..|].
  destruct p as [|n d]; [done|]. by rewrite (Hd n d).
Qed.

Lemma not_target (l : list (path * path)) x :
  wf src → is_Some (src !! x) → (x, x) ∉ l →
  (∀ pair, pair ∈ l → pair.1 = pair.2 ∧ ∃ g, src !! pair.1 = Some (File g)) →
  ∀ pair, pair ∈ l → x ≠ pair.2 ∧ x ≠ basename pair.1 :: pair.2.
Proof.
  intros Hwf [e He] Hni Hl [q q'] Hin. destruct (Hl _ Hin) as [Heq [g Hg]].
  simpl in *. subst q'. split; [by intros ->|]. intros ->.
  rewrite (wf_parent _ _ _ _ Hwf He) in Hg. done.
Qed.

Lemma copy_lines_of_others (l : list (path * path)) (lg : list record) p :
  Forall2 (λ pair r, r = CopiedUpdated pair.1 pair.2 ∨ r = FailedToCopy pair.1 pair.2) l lg →
  (p, p) ∉ l → (CopiedUpdated p p ∉ lg) ∧ (FailedToCopy p p ∉ lg).
Proof.
  induction 1 as [|[q q'] r l lg Hr _ IH]; intros Hni.
  - split; by intros ?%elem_of_nil.
  - apply not_elem_of_cons in Hni as [Hne Hni]. destruct (IH Hni) as [IH1 IH2].
    split; intros [Heq|?]%elem_of_cons; try done; destruct Hr as [Hr|Hr];
      simpl in Hr; congruence.
Qed.

(** The pair of [p] succeeds or fails as [shutil.copy2] would on the
    replica the copies start from: the other pairs touch neither [p] nor
    its directory. *)
Lemma apply_at p f (l : list (path * path)) s :
  wf src → NoDup l →
  (∀ pair, pair ∈ l → pair.1 = pair.2 ∧ ∃ g, src !! pair.1 = Some (File g)) →
  (p, p) ∈ l → src !! p = Some (File f) →
  st_rep s !! p ≠ Some Dir ∨ f_readable f = false →
  ∃ lg, st_log (foldl (copy_step src) s l) = st_log s ++ lg ∧
    if copy_ok src (st_rep s) p p then
      st_rep (foldl (copy_step src) s l) !! p = Some (File f) ∧
      CopiedUpdated p p ∈ lg ∧ FailedToCopy p p ∉ lg
    else
      st_rep (foldl (copy_step src) s l) !! p = st_rep s !! p ∧
      FailedToCopy p p ∈ lg ∧ CopiedUpdated p p ∉ lg.
Proof.
  intros Hwf Hnd Hl Hin Hf Hp.
  apply list_elem_of_split in Hin as (l1 & l2 & ->).
  apply NoDup_app in Hnd as (_ & Hni1 & [Hni2 _]%NoDup_cons).
  assert ((p, p) ∉ l1) as Hn1.
  { intros Hin. apply (Hni1 _ Hin). by left. }
  assert (∀ l' x, l' = l1 ∨ l' = l2 → is_Some (src !! x) → (x, x) ∉ l' →
            ∀ pair, pair ∈ l' → x ≠ pair.2 ∧ x ≠ basename pair.1 :: pair.2) as Hnt.
  { intros l' x Hl' Hx Hni. apply not_target; [done..|]. intros pair Hpair.
    apply Hl, elem_of_app. destruct Hl' as [-> | ->]; [by left|right; by right]. }
  assert (∀ l' n d, l' = l1 ∨ l' = l2 → p = n :: d → (d, d) ∉ l') as Hdir.
  { intros l' n d Hl' -> Hd. destruct (Hl (d, d)) as [_ [g Hg]].
    { apply elem_of_app. destruct Hl' as [-> | ->]; [by left|right; by right]. }
    simpl in Hg. rewrite (wf_parent _ _ _ _ Hwf Hf) in Hg. done. }
  rewrite foldl_app. cbn [foldl]. set (s1 := foldl (copy_step src) s l1).
  destruct (apply_frame l1 s) as (_ & _ & _ & _ & Hfr1). fold s1 in Hfr1.
  destruct (apply_log l1 s) as (lg1 & Hlg1 & HF1). fold s1 in Hlg1.
  destruct (apply_frame l2 (copy_step src s1 (p, p))) as (_ & _ & _ & _ & Hfr2).
  destruct (apply_log l2 (copy_step src s1 (p, p))) as (lg2 & Hlg2 & HF2).
  destruct (copy_lines_of_others _ _ p HF1 Hn1) as [Hc1 Hf1].
  destruct (copy_lines_of_others _ _ p HF2 Hni2) as [Hc2 Hf2].
  assert (st_rep s1 !! p = st_rep s !! p) as Hp1.
  { apply Hfr1, Hnt; eauto. }
  assert (copy_ok src (st_rep s1) p p = copy_ok src (st_rep s) p p) as Hok.
  { eapply copy_ok_frame; [done|done| |by rewrite Hp1].
    intros n d ->. apply Hfr1, Hnt; [by left| |by eapply Hdir; eauto].
    rewrite (wf_parent _ _ _ _ Hwf Hf). eauto. }
  rewrite Hfr2 by (apply Hnt; eauto). rewrite Hlg2.
  unfold copy_step. cbn [fst snd]. rewrite Hf, Hok.
  destruct (copy_ok src (st_rep s) p p) eqn:Hc.
  - cbn [st_rep st_log]. exists (lg1 ++ CopiedUpdated p p :: lg2).
    rewrite Hlg1, <-!(assoc_L (++)). split; [done|].
    assert (copy_target (st_rep s1) p p = p) as ->.
    { unfold copy_target. rewrite Hp1. destruct Hp as [Hp| Hp].
      - by destruct (st_rep s !! p) as [[]|].
      - unfold copy_ok in Hc. rewrite Hf, Hp in Hc. done. }
    rewrite lookup_insert_eq. split_and!; [done|apply elem_of_app; right; by left|].
    rewrite not_elem_of_app, not_elem_of_cons. split_and!; [done|discriminate|done].
  - unfold add_log. cbn [st_rep st_log]. exists (lg1 ++ FailedToCopy p p :: lg2).
    rewrite Hlg1, <-!(assoc_L (++)).
    split_and!; [done|by rewrite Hp1|apply elem_of_app; right; by left|].
    rewrite not_elem_of_app, not_elem_of_cons. split_and!; [done|discriminate|done].
Qed.

(** *** More on a real pass *)

(** A real pass returns, with [real_pass_post], or raises because the
    replica has a file where the source has a directory. *)
Lemma pass_cases rep (Q : state → Prop) :
  wf src → wf rep →
  (∀ s', sync_folders src false pats rep = Ok tt s' →
         real_pass_post src pats rep s' → Q s') →
  match sync_folders src false pats rep with
  | Ok _ s' => Q s'
  | Raise _ _ => ∃ q f, src !! q = Some Dir ∧ rep !! q = Some (File f)
  | OutOfFuel => False
  end.
Proof.
  intros Hsrc Hrep HQ. pose proof (pass_real rep Hsrc Hrep) as Hreal.
  destruct (sync_folders src false pats rep) as [[] s'|e s'|]; [|done..].
  by apply HQ.
Qed.


(** The log of a real pass, phase by phase. *)
Lemma pass_log rep s' :
  real_pass_post src pats rep s' →
  ∃ lg_s lg_a lg_p,
    st_log s' = root_log false rep ++ lg_s ++ lg_a ++ lg_p ∧
    Forall (scan_record src (ensure_root rep)) lg_s ∧
    Forall2 (λ pair r, r = CopiedUpdated pair.1 pair.2 ∨ r = FailedToCopy pair.1 pair.2)
      (pending_pairs src rep pats) lg_a ∧
    Forall (λ r, ∃ p, (r = RemovedFile p ∨ r = RemovedDirectory p) ∧
                      p ≠ [] ∧ src !! p = None) lg_p.
Proof.
  intros (rs & lg_s & lg_p & _ & _ & HFs & _ & _ & Hlog & HFp & _).
  destruct (apply_log (pending_pairs src (ensure_root rep) pats)
              (State rs (root_log false rep ++ lg_s)
                 (pending_pairs src (ensure_root rep) pats)))
    as (lg_a & Hlg_a & HFa).
  exists lg_s, lg_a, lg_p. split_and!.
  - rewrite Hlog, Hlg_a. simpl. by rewrite <-!(assoc_L (++)).
  - done.
  - destruct (pending_pairs_ext (ensure_root rep) rep (ensure_root_lookup rep)) as [<- _].
    done.
  - eapply Forall_impl; [exact HFp|]. intros rec Hrec.
    destruct rec; try done; destruct Hrec as (_ & Hn & Hne); eauto.
Qed.

(** The lines of the scan and of the pruning are not lines of copies. *)
Lemma scan_lines_no_copy rep0 (lg : list record) sp dp :
  Forall (scan_record src rep0) lg →
  (CopiedUpdated sp dp ∉ lg) ∧ (FailedToCopy sp dp ∉ lg).
Proof.
  rewrite Forall_forall. intros HF. split; intros Hin; by apply HF in Hin.
Qed.

Lemma prune_lines_no_copy (r : tree) (lg : list record) sp dp :
  Forall (prune_record src r) lg →
  (CopiedUpdated sp dp ∉ lg) ∧ (FailedToCopy sp dp ∉ lg).
Proof.
  rewrite Forall_forall. intros HF. split; intros Hin; by apply HF in Hin.
Qed.

Lemma root_log_no_copy rep sp dp :
  (CopiedUpdated sp dp ∉ root_log false rep) ∧ (FailedToCopy sp dp ∉ root_log false rep).
Proof.
  unfold root_log. destruct (exists_ rep []).
  - split; by intros ?%elem_of_nil.
  - split; by intros ?%list_elem_of_singleton.
Qed.

(** A line about a copy belongs to a pending pair. *)
Lemma pass_copy_line rep s' sp dp :
  real_pass_post src pats rep s' →
  CopiedUpdated sp dp ∈ st_log s' ∨ FailedToCopy sp dp ∈ st_log s' →
  (sp, dp) ∈ pending_pairs src rep pats.
Proof.
  intros Hpost Hin.
  destruct (pass_log rep s' Hpost) as (lg_s & lg_a & lg_p & Hlog & HFs & HFa & HFp).
  destruct (root_log_no_copy rep sp dp) as [Hr1 Hr2].
  destruct (scan_lines_no_copy _ _ sp dp HFs) as [Hs1 Hs2].
  assert ((CopiedUpdated sp dp ∉ lg_p) ∧ (FailedToCopy sp dp ∉ lg_p)) as [Hp1 Hp2].
  { rewrite Forall_forall in HFp.
    split; intros (p & [?|?] & _)%HFp; done. }
  assert (CopiedUpdated sp dp ∈ lg_a ∨ FailedToCopy sp dp ∈ lg_a) as Ha.
  { rewrite Hlog, !elem_of_app in Hin. tauto. }
  clear -HFa Ha. induction HFa as [|[q q'] r l lg Hr _ IH].
  - destruct Ha as [Ha|Ha]; by apply elem_of_nil in Ha.
  - rewrite !elem_of_cons in Ha. simpl in Hr.
    apply elem_of_cons.
    destruct Ha as [[Ha|Ha]|[Ha|Ha]]; try (right; apply IH; by auto);
      left; destruct Hr as [Hr|Hr]; congruence.
Qed.

(** The pair of a pending file [p] in a real pass. [rs] is the replica
    after the scan. *)
Lemma pass_at rep s' p f :
  wf src → real_pass_post src pats rep s' →
  src !! p = Some (File f) → (p, p) ∈ pending_pairs src rep pats →
  rep !! p ≠ Some Dir ∨ f_readable f = false →
  ∃ rs,
    scan_inv src (ensure_root rep) rs ∧
    (∀ d, src !! d = Some Dir → is_Some (rs !! d)) ∧
    if copy_ok src rs p p then
      st_rep s' !! p = Some (File f) ∧
      CopiedUpdated p p ∈ st_log s' ∧ FailedToCopy p p ∉ st_log s'
    else
      st_rep s' !! p = rep !! p ∧
      FailedToCopy p p ∈ st_log s' ∧ CopiedUpdated p p ∉ st_log s'.
Proof.
  intros Hwf Hpost Hf Hin Hp. pose proof Hpost as Hpairs%pass_pairs.
  destruct Hpost as (rs & lg_s & lg_p & Hinv & Hdirs & HFs & Hrm & _ & Hlog & HFp & Hpairs').
  rewrite Hpairs in Hpairs'. rewrite <-Hpairs' in Hrm, Hlog, HFp.
  exists rs. split; [done|]. split; [done|].
  set (ss := State rs (root_log false rep ++ lg_s) (pending_pairs src rep pats)) in *.
  assert (rs !! p = rep !! p) as Hrs.
  { rewrite (scan_inv_file _ _ _ _ Hinv Hf).
    apply elem_of_pending_pairs in Hin as (_ & fn & d & g & -> & _); [|done].
    apply ensure_root_lookup. }
  destruct (apply_at p f (pending_pairs src rep pats) ss) as (lg & Hlg & Hat);
    [done|by apply NoDup_pending_pairs| |done|done|by rewrite <-Hrs in Hp|].
  { intros [sp dp] (<- & fn & d & g & -> & Hg & _)%elem_of_pending_pairs; [|done].
    split; [done|]. eauto. }
  assert (st_rep s' !! p = st_rep (foldl (copy_step src) ss (pending_pairs src rep pats)) !! p)
    as ->.
  { eapply removes_keep; [done|]. intros (_ & _ & Hn). congruence. }
  rewrite Hlog, Hlg. cbn [ss st_log st_rep] in *.
  destruct (root_log_no_copy rep p p) as [Hr1 Hr2].
  destruct (scan_lines_no_copy _ _ p p HFs) as [Hs1 Hs2].
  destruct (prune_lines_no_copy _ _ p p HFp) as [Hp1 Hp2].
  destruct (copy_ok src rs p p).
  - destruct Hat as (Hl & Hc & Hnf). split_and!; [done| |].
    + rewrite !elem_of_app. tauto.
    + rewrite !not_elem_of_app. tauto.
  - destruct Hat as (Hl & Hc & Hnf). split_and!; [by rewrite Hl| |].
    + rewrite !elem_of_app. tauto.
    + rewrite !not_elem_of_app. tauto.
Qed.

(** When [shutil.copy2] succeeds on [p] and when it fails. *)
Lemma copy_ok_true (r : tree) p f :
  src !! p = Some (File f) → f_readable f = true → r !! p ≠ Some Dir →
  (∀ g, r !! p = Some (File g) → f_writable g = true) →
  (r !! p = None → parent_ok r p) →
  copy_ok src r p p = true.
Proof.
  intros Hf Hr Hnd Hw Hpar. unfold copy_ok, copy_target. rewrite Hf, Hr. simpl.
  destruct (r !! p) as [[g|]|] eqn:Hl; rewrite ?Hl; [by apply Hw|done|].
  specialize (Hpar eq_refl). destruct p as [|n d]; [done|]. simpl in Hpar.
  by rewrite Hpar.
Qed.

Lemma copy_ok_false (r : tree) p f :
  src !! p = Some (File f) →
  f_readable f = false ∨ (∃ g, r !! p = Some (File g) ∧ f_writable g = false) →
  copy_ok src r p p = false.
Proof.
  intros Hf [Hr|(g & Hg & Hw)]; unfold copy_ok, copy_target; rewrite Hf.
  - by rewrite Hr.
  - rewrite Hg, Hg, Hw. apply andb_false_r.
Qed.

(** The two outcomes of a real pass. *)
Lemma pass_outcome rep (Q : state → Prop) :
  wf src → wf rep →
  (∀ s', real_pass_post src pats rep s' → Q s') →
  (∀ s', scan_inv src (ensure_root rep) (st_rep s') →
         (∃ lg, st_log s' = root_log false rep ++ lg ∧
                Forall (scan_record src (ensure_root rep)) lg) → Q s') →
  match sync_folders src false pats rep with
  | Ok _ s' | Raise _ s' => Q s'
  | OutOfFuel => False
  end.
Proof.
  intros Hsrc Hrep HOk HRaise. pose proof (pass_real rep Hsrc Hrep) as Hreal.
  destruct (sync_folders src false pats rep) as [[] s'|e s'|] eqn:Hrun; [| |done].
  - by apply HOk.
  - apply pass_raise in Hrun as [Hinv Hlg]; [|done..]. by apply HRaise.
Qed.

(** A path of the source that is no pending pair keeps its entry through
    the copies and the pruning. *)
Lemma pass_frame rep s' p :
  wf src → real_pass_post src pats rep s' →
  p = [] ∨ is_Some (src !! p) → (p, p) ∉ pending_pairs src rep pats →
  ∃ rs, scan_inv src (ensure_root rep) rs ∧ st_rep s' !! p = rs !! p.
Proof.
  intros Hwf Hpost Hp Hni. pose proof Hpost as Hpairs%pass_pairs.
  destruct Hpost as (rs & lg_s & lg_p & Hinv & _ & _ & Hrm & _ & _ & _ & Hpairs').
  rewrite Hpairs in Hpairs'. rewrite <-Hpairs' in Hrm. exists rs. split; [done|].
  rewrite (removes_keep _ _ _ _ Hrm).
  - destruct (apply_frame (pending_pairs src rep pats)
                (State rs (root_log false rep ++ lg_s) (pending_pairs src rep pats)))
      as (_ & _ & _ & _ & Hframe).
    rewrite Hframe by (by apply not_copy_target). done.
  - intros (_ & Hne & Hn). destruct Hp as [?|[? ?]]; congruence.
Qed.

Lemma copy_lines_kind (l : list (path * path)) (lg : list record) :
  Forall2 (λ pair r, r = CopiedUpdated pair.1 pair.2 ∨ r = FailedToCopy pair.1 pair.2) l lg →
  Forall (λ r, ∃ sp dp, r = CopiedUpdated sp dp ∨ r = FailedToCopy sp dp) lg.
Proof. induction 1 as [|[q q'] r l lg Hr _ IH]; constructor; eauto. Qed.

(** The digest of the chunks of a file is the digest of its bytes, for a
    hash that can be fed in pieces. *)
Lemma foldl_md5_update (l : list string) : ∀ h,
  (∀ h a b, md5_update (md5_update h a) b = md5_update h (a +:+ b)) →
  (∀ h, md5_update h EmptyString = h) →
  foldl md5_update h l = md5_update h (foldr String.append EmptyString l).
Proof.
  induction l as [|a l IH]; intros h Hcat Hnil; simpl; [by rewrite Hnil|].
  by rewrite IH, Hcat.
Qed.
(** ** Further properties of the functions of [main.py] *)

(** X2. [hash_file] reads the file in chunks of 4096 bytes; for a hash
    object that can be fed in pieces (feeding [a] and then [b] is feeding
    [a ++ b], feeding nothing changes nothing) the digest it returns for a
    readable file is the digest of the whole content, and it logs
    nothing. *)
Theorem hash_file_hashes_the_whole_content sd p s f :
  (∀ h a b, md5_update (md5_update h a) b = md5_update h (a +:+ b)) →
  (∀ h, md5_update h EmptyString = h) →
  tree_of src sd s !! p = Some (File f) → f_readable f = true →
  hash_file src sd p s
  = Ok (Some (md5_hexdigest (md5_update md5_new (f_data f)))) s.
Proof.
  intros Hcat Hnil Hf Hr. rewrite hash_file_run. unfold hash_log, hash_of.
  rewrite Hf, Hr, add_log_nil. do 2 f_equal. unfold digest.
  rewrite foldl_md5_update by done. unfold read_chunks.
  destruct (read_chunks_fuel_spec (String.length (f_data f)) 4096 (f_data f))
    as [-> _]; [lia|lia|done].
Qed.

(** X3. [hash_file] never raises. It returns a digest exactly for a
    regular file that can be read; for a missing path, a directory or an
    unreadable file it returns [None] and writes one line naming the
    path. The replica is not touched. *)
Theorem hash_file_never_raises sd p s :
  ∃ o,
    hash_file src sd p s
    = Ok o (add_log s (match o with Some _ => [] | None => [ErrorHashing sd p] end)) ∧
    (is_Some o ↔ ∃ f, tree_of src sd s !! p = Some (File f) ∧ f_readable f = true).
Proof.
  exists (hash_of (tree_of src sd s) p). rewrite hash_file_run. split; [done|].
  unfold hash_of. destruct (tree_of src sd s !! p) as [[f|]|] eqn:Hl.
  - destruct (f_readable f) eqn:Hr.
    + split; [eauto|]. by eexists.
    + split; [by intros [? ?]|]. intros (g & [= <-] & Hg). congruence.
  - split; [by intros [? ?]|]. by intros (g & ? & _).
  - split; [by intros [? ?]|]. by intros (g & ? & _).
Qed.

(** X4. [files_are_different] stats the two paths before anything else:
    it raises [FileNotFoundError], without a line in the log, when the
    source path is missing, or else when the replica path is missing;
    when both exist it returns, and logs only the digests that failed. *)
Theorem files_are_different_needs_both_paths sp rp s :
  files_are_different src sp rp s
  = match src !! sp, st_rep s !! rp with
    | None, _ => Raise (FileNotFoundError sp) s
    | Some _, None => Raise (FileNotFoundError rp) s
    | Some _, Some _ =>
        Ok (differs src (st_rep s) sp rp) (add_log s (differs_log src (st_rep s) sp rp))
    end.
Proof.
  destruct (src !! sp) as [es|] eqn:Hs.
  - destruct (st_rep s !! rp) as [er|] eqn:Hr.
    + by eapply files_are_different_run.
    + unfold files_are_different, os_stat, tree_of. cbn [bind get]. rewrite Hs.
      destruct es; cbn [ret bind get]; by rewrite Hr.
  - unfold files_are_different, os_stat, tree_of. cbn [bind get]. by rewrite Hs.
Qed.

(** X5. Only the set of the exclusion patterns matters: two lists with
    the same patterns, in any order and with any repetition, give the
    same pass, real or dry. *)
Theorem exclusion_ignores_pattern_order pats' dry rep :
  (∀ pattern, pattern ∈ pats ↔ pattern ∈ pats') →
  sync_folders src dry pats rep = sync_folders src dry pats' rep.
Proof.
  intros Hset.
  assert (∀ fn, should_exclude fn pats = should_exclude fn pats') as Hex.
  { intros fn. unfold should_exclude. apply eq_true_iff_eq.
    rewrite !existsb_exists. split; intros (x & Hin & Hx); exists x;
      (split; [|done]); apply list_elem_of_In, Hset, list_elem_of_In, Hin. }
  unfold sync_folders, sync_folders_M. cbn [bind get].
  match goal with
  | |- match ?m with _ => _ end = _ => destruct m as [[] s0|e s0|]; [|done..]
  end.
  rewrite (os_walk_ext _ (scan_body src dry pats) (scan_body src dry pats')); [done|].
  intros d ds fs s. unfold scan_body. cbn [bind get].
  match goal with
  | |- match ?m with _ => _ end = _ => destruct m as [[] s1|e s1|]; [|done..]
  end.
  apply forM_ext. intros fn s2 _. by rewrite Hex.
Qed.

(** X6. The first step of a real pass: whatever the outcome of the pass,
    the root of the replica exists afterwards, as it was or as a new
    directory, and the line about its creation is in the log exactly
    when it was missing, as the first line. *)
Theorem replica_folder_is_ensured rep :
  wf src → wf rep →
  match sync_folders src false pats rep with
  | Ok _ s' | Raise _ s' =>
      st_rep s' !! [] = Some (default Dir (rep !! [])) ∧
      (CreatedReplicaFolder ∈ st_log s' ↔ rep !! [] = None) ∧
      (rep !! [] = None → head (st_log s') = Some CreatedReplicaFolder)
  | OutOfFuel => False
  end.
Proof.
  intros Hsrc Hrep.
  assert (ensure_root rep !! [] = Some (default Dir (rep !! []))) as Hroot.
  { unfold ensure_root. destruct (rep !! []) eqn:Hr; [done|]. by rewrite lookup_insert_eq. }
  assert (∀ lg, Forall (λ r, r ≠ CreatedReplicaFolder) lg →
            (CreatedReplicaFolder ∈ root_log false rep ++ lg ↔ rep !! [] = None) ∧
            (rep !! [] = None → head (root_log false rep ++ lg) = Some CreatedReplicaFolder))
    as Hlog.
  { intros lg HF. rewrite Forall_forall in HF. unfold root_log, exists_.
    destruct (rep !! []); simpl.
    - split; [|done]. split; [|done]. intros Hin. by destruct (HF _ Hin).
    - split; [|done]. split; [done|]. intros _. by left. }
  apply pass_outcome; [done..| |].
  - intros s' Hpost. split.
    + eapply pass_keeps_root; [done..|by left|].
      intros (_ & fn & d & f & ? & _)%elem_of_pending_pairs; done.
    + destruct (pass_log rep s' Hpost) as (lg_s & lg_a & lg_p & -> & HFs & HFa & HFp).
      apply Hlog. rewrite !Forall_app. split_and!.
      * eapply Forall_impl; [exact HFs|]. by intros r Hr ->.
      * eapply Forall_impl; [exact (copy_lines_kind _ _ HFa)|].
        intros r (sp & dp & [-> | ->]); done.
      * eapply Forall_impl; [exact HFp|]. intros r (p & [-> | ->] & _); done.
  - intros s' (H1 & _) (lg & -> & HFs). split; [by apply H1|].
    apply Hlog. eapply Forall_impl; [exact HFs|]. by intros r Hr ->.
Qed.

(** X7. A file of the source whose bare name matches an exclusion
    pattern is out of the pass: whatever the outcome, the replica has at
    its path what it had before (nothing, when it had nothing), and no
    line reports a copy of it. *)
Theorem excluded_file_is_not_copied rep fn d f :
  wf src → wf rep →
  src !! (fn :: d) = Some (File f) → should_exclude fn pats = true →
  match sync_folders src false pats rep with
  | Ok _ s' | Raise _ s' =>
      st_rep s' !! (fn :: d) = rep !! (fn :: d) ∧
      ∀ dp, (CopiedUpdated (fn :: d) dp ∉ st_log s') ∧
            (FailedToCopy (fn :: d) dp ∉ st_log s')
  | OutOfFuel => False
  end.
Proof.
  intros Hsrc Hrep Hf Hex.
  assert (∀ dp, (fn :: d, dp) ∉ pending_pairs src rep pats) as Hni.
  { intros dp (_ & fn' & d' & f' & [= <- <-] & _ & Hex' & _)%elem_of_pending_pairs; [|done].
    congruence. }
  apply pass_outcome; [done..| |].
  - intros s' Hpost. split.
    + destruct (pass_frame rep s' (fn :: d)) as (rs & Hinv & ->); [done|done|eauto|done|].
      by rewrite (scan_inv_file _ _ _ _ Hinv Hf), ensure_root_lookup.
    + intros dp. split; intros Hin; apply (Hni dp); eapply pass_copy_line; eauto.
  - intros s' Hinv (lg & -> & HFs). split.
    + by rewrite (scan_inv_file _ _ _ _ Hinv Hf), ensure_root_lookup.
    + intros dp. destruct (root_log_no_copy rep (fn :: d) dp).
      destruct (scan_lines_no_copy _ _ (fn :: d) dp HFs).
      rewrite !not_elem_of_app. done.
Qed.

(** X8. A file the comparison finds unchanged is not rewritten: when the
    replica has an entry at the path of a source file and
    [files_are_different] answers no, the entry is the same after the
    pass, whatever the outcome, and no line reports a copy to it. *)
Theorem unchanged_file_is_untouched rep p f e :
  wf src → wf rep →
  src !! p = Some (File f) → rep !! p = Some e → differs src rep p p = false →
  match sync_folders src false pats rep with
  | Ok _ s' | Raise _ s' =>
      st_rep s' !! p = Some e ∧
      (CopiedUpdated p p ∉ st_log s') ∧ (FailedToCopy p p ∉ st_log s')
  | OutOfFuel => False
  end.
Proof.
  intros Hsrc Hrep Hf He Hd.
  assert ((p, p) ∉ pending_pairs src rep pats) as Hni.
  { intros (_ & fn & d & f' & _ & _ & _ & Hp)%elem_of_pending_pairs; [|done].
    unfold pending, exists_ in Hp. rewrite He, Hd in Hp. done. }
  apply pass_outcome; [done..| |].
  - intros s' Hpost. split.
    + eapply pass_keeps; eauto.
    + split; intros Hin; apply Hni; eapply pass_copy_line; eauto.
  - intros s' (H1 & _) (lg & -> & HFs). split.
    + by apply H1, ensure_root_Some.
    + destruct (root_log_no_copy rep p p). destruct (scan_lines_no_copy _ _ p p HFs).
      rewrite !not_elem_of_app. done.
Qed.

(** X9. A pending file is copied whatever happens to the other pairs:
    when the source file can be read, is not excluded, is missing from
    the replica or differs from its counterpart, and the replica has no
    file in the place of its directory, no directory in its own place
    and no read-only file there, a pass that returns has written the
    source file, with its modification time and permissions, at its path
    and reports the copy, not a failure. *)
Theorem pending_file_is_copied rep fn d f :
  wf src → wf rep →
  src !! (fn :: d) = Some (File f) → should_exclude fn pats = false →
  f_readable f = true →
  rep !! (fn :: d) = None ∨ differs src rep (fn :: d) (fn :: d) = true →
  (∀ g, rep !! d ≠ Some (File g)) →
  rep !! (fn :: d) ≠ Some Dir →
  (∀ g, rep !! (fn :: d) = Some (File g) → f_writable g = true) →
  match sync_folders src false pats rep with
  | Ok _ s' =>
      st_rep s' !! (fn :: d) = Some (File f) ∧
      CopiedUpdated (fn :: d) (fn :: d) ∈ st_log s' ∧
      FailedToCopy (fn :: d) (fn :: d) ∉ st_log s'
  | Raise _ _ => ∃ q g, src !! q = Some Dir ∧ rep !! q = Some (File g)
  | OutOfFuel => False
  end.
Proof.
  intros Hsrc Hrep Hf Hex Hr Hpend Hpar Hnd Hw. apply pass_cases; [done..|].
  intros s' _ Hpost.
  assert ((fn :: d, fn :: d) ∈ pending_pairs src rep pats) as Hin.
  { apply elem_of_pending_pairs; [done|]. split; [done|]. exists fn, d, f.
    split_and!; [done..|]. unfold pending, exists_.
    destruct Hpend as [-> | ->]; [done|apply orb_true_r]. }
  destruct (pass_at rep s' (fn :: d) f) as (rs & Hinv & Hdirs & Hat); [done..|by left|].
  assert (rs !! (fn :: d) = rep !! (fn :: d)) as Hrs.
  { by rewrite (scan_inv_file _ _ _ _ Hinv Hf), ensure_root_lookup. }
  rewrite (copy_ok_true rs (fn :: d) f) in Hat; [done..|by rewrite Hrs| |].
  - intros g. rewrite Hrs. apply Hw.
  - intros _. simpl. pose proof (wf_parent _ _ _ _ Hsrc Hf) as Hd.
    destruct (Hdirs d Hd) as [x Hx]. rewrite Hx. f_equal.
    destruct Hinv as (H1 & H2 & _).
    destruct (ensure_root rep !! d) as [x0|] eqn:H0.
    + rewrite (H1 _ _ H0) in Hx. injection Hx as <-.
      destruct x0 as [g|]; [|done]. exfalso.
      unfold ensure_root in H0. destruct (rep !! []) eqn:Hroot.
      * by apply Hpar in H0.
      * destruct d as [|n d'].
        -- by rewrite lookup_insert_eq in H0.
        -- rewrite lookup_insert_ne in H0 by done. by apply Hpar in H0.
    + by destruct (H2 _ _ H0 Hx).
Qed.

(** X10. A copy that cannot be made is reported and changes nothing:
    when the source file of a pending pair cannot be read, or its
    counterpart in the replica is a read-only file, a pass that returns
    leaves the replica at that path as it was and the log has the line
    of the failure, not the line of a copy. *)
Theorem blocked_copy_is_reported rep fn d f :
  wf src → wf rep →
  src !! (fn :: d) = Some (File f) → should_exclude fn pats = false →
  rep !! (fn :: d) = None ∨ differs src rep (fn :: d) (fn :: d) = true →
  f_readable f = false ∨ (∃ g, rep !! (fn :: d) = Some (File g) ∧ f_writable g = false) →
  match sync_folders src false pats rep with
  | Ok _ s' =>
      st_rep s' !! (fn :: d) = rep !! (fn :: d) ∧
      FailedToCopy (fn :: d) (fn :: d) ∈ st_log s' ∧
      CopiedUpdated (fn :: d) (fn :: d) ∉ st_log s'
  | Raise _ _ => ∃ q g, src !! q = Some Dir ∧ rep !! q = Some (File g)
  | OutOfFuel => False
  end.
Proof.
  intros Hsrc Hrep Hf Hex Hpend Hblock. apply pass_cases; [done..|].
  intros s' _ Hpost.
  assert ((fn :: d, fn :: d) ∈ pending_pairs src rep pats) as Hin.
  { apply elem_of_pending_pairs; [done|]. split; [done|]. exists fn, d, f.
    split_and!; [done..|]. unfold pending, exists_.
    destruct Hpend as [-> | ->]; [done|apply orb_true_r]. }
  destruct (pass_at rep s' (fn :: d) f) as (rs & Hinv & Hdirs & Hat); [done..| |].
  { destruct Hblock as [?|(g & -> & _)]; [by right|by left]. }
  rewrite (copy_ok_false rs (fn :: d) f) in Hat; [done|done|].
  destruct Hblock as [?|(g & Hg & Hw)]; [by left|right]. exists g. split; [|done].
  by rewrite (scan_inv_file _ _ _ _ Hinv Hf), ensure_root_lookup.
Qed.


(** X12. The pruning never takes what the source has: an entry of the
    replica whose path exists in the source is still there after the
    pass, whatever the outcome (a copy may have replaced it), and no
    line reports its removal. *)
Theorem source_paths_are_never_pruned rep p e :
  wf src → wf rep →
  rep !! p = Some e → is_Some (src !! p) →
  match sync_folders src false pats rep with
  | Ok _ s' | Raise _ s' =>
      is_Some (st_rep s' !! p) ∧
      (RemovedFile p ∉ st_log s') ∧ (RemovedDirectory p ∉ st_log s')
  | OutOfFuel => False
  end.
Proof.
  intros Hsrc Hrep He [x Hx].
  assert ((RemovedFile p ∉ root_log false rep) ∧
          (RemovedDirectory p ∉ root_log false rep)) as [Hr1 Hr2].
  { unfold root_log. destruct (exists_ rep []).
    - split; by intros ?%elem_of_nil.
    - split; by intros ?%list_elem_of_singleton. }
  assert (∀ lg, Forall (scan_record src (ensure_root rep)) lg →
            (RemovedFile p ∉ lg) ∧ (RemovedDirectory p ∉ lg)) as Hscan.
  { intros lg HF. rewrite Forall_forall in HF. split; by intros ?%HF. }
  apply pass_outcome; [done..| |].
  - intros s' Hpost.
    destruct (pass_log rep s' Hpost) as (lg_s & lg_a & lg_p & Hlog & HFs & HFa & HFp).
    split.
    + destruct Hpost as (rs & lg_s' & lg_p' & (H1 & _) & _ & _ & Hrm & _).
      set (ss := State rs _ _) in Hrm.
      destruct (apply_frame (pending_pairs src (ensure_root rep) pats) ss)
        as (_ & _ & _ & Hsome & _).
      destruct (Hsome p) as [y Hy].
      { simpl. rewrite (H1 p e); [done|]. by apply ensure_root_Some. }
      exists y. apply Hrm. split; [done|]. intros (_ & _ & Hn). congruence.
    + rewrite Hlog. destruct (Hscan lg_s HFs) as [Hs1 Hs2].
      apply copy_lines_kind in HFa. rewrite Forall_forall in HFa, HFp.
      rewrite !not_elem_of_app. split_and!; try done.
      * by intros (sp & dp & [?|?])%HFa.
      * intros (q & [[= <-]|?] & _ & Hn)%HFp; [congruence|done].
      * by intros (sp & dp & [?|?])%HFa.
      * intros (q & [?|[= <-]] & _ & Hn)%HFp; [done|congruence].
  - intros s' (H1 & _) (lg & -> & HFs). split.
    + exists e. by apply H1, ensure_root_Some.
    + destruct (Hscan lg HFs). rewrite !not_elem_of_app. done.
Qed.




(** X22. A file that was just copied compares as unchanged: after
    [shutil.copy2] has written a source file at a path of the replica
    that was not a directory, [files_are_different] on the two paths
    answers no, and logs nothing. *)
Theorem copied_file_compares_equal sp dp s s' :
  shutil_copy2 src sp dp s = Ok tt s' → st_rep s !! dp ≠ Some Dir →
  files_are_different src sp dp s' = Ok false s'.
Proof.
  intros Hcopy Hnd.
  assert (∃ f, src !! sp = Some (File f) ∧ f_readable f = true ∧
               st_rep s' !! dp = Some (File f)) as (f & Hf & Hr & Hdp).
  { unfold shutil_copy2, open_rb, tree_of in Hcopy. cbn [bind get] in Hcopy.
    assert (match st_rep s !! dp with Some Dir => basename sp :: dp | _ => dp end = dp)
      as Htarget by (by destruct (st_rep s !! dp) as [[]|]).
    rewrite Htarget in Hcopy.
    destruct (src !! sp) as [[f|]|]; [|done..].
    destruct (f_readable f) eqn:Hr; [|done]. cbn [ret] in Hcopy.
    exists f. split; [done|]. split; [done|].
    assert (s' = State (<[dp := File f]> (st_rep s)) (st_log s) (st_pairs s)) as ->.
    { destruct (st_rep s !! dp) as [[g|]|]; [| |].
      - destruct (f_writable g); [|done]. by injection Hcopy.
      - done.
      - destruct dp as [|n head]; [by injection Hcopy|].
        destruct (st_rep s !! head) as [[]|]; [done| |done]. by injection Hcopy. }
    simpl. by rewrite lookup_insert_eq. }
  rewrite (files_are_different_run sp dp s' _ _ Hf Hdp).
  unfold differs, differs_log, stat_of, hash_log, hash_of. rewrite Hf, Hdp, Hr. simpl.
  rewrite !bool_decide_eq_false_2 by first [done|lia|congruence]. simpl.
  by rewrite add_log_nil.
Qed.

(** X23. An exact copy of the source is a fixed point: when the replica
    is the source tree itself, a real pass, with any exclusion patterns,
    copies nothing, removes nothing and leaves the replica as it is; its
    log has only lines about excluded names and failed digests. *)
Theorem identical_replica_is_a_fixed_point :
  wf src → is_Some (src !! []) →
  sync_folders src false pats src = Ok tt (State src (scan_log src src pats) []) ∧
  Forall quiet_record (scan_log src src pats).
Proof.
  intros Hwf Hroot. split; [|apply scan_log_quiet].
  apply pass_on_mirror; [done..|by eauto| |by eauto].
  apply list_empty_no_elem. intros [sp dp].
  intros (<- & fn & d & f & -> & Hf & _ & Hp)%elem_of_pending_pairs; [|done].
  unfold pending, exists_ in Hp. rewrite Hf in Hp. simpl in Hp.
  by rewrite (differs_same _ _ f) in Hp.
Qed.

(** *** The pass after a pass without a failed copy *)


(** *** The lines of the scan of a real pass *)

Lemma list_bind_bind {A B C} (f : A → list B) (g : B → list C) (l : list A) :
  (l ≫= f) ≫= g = l ≫= λ x, f x ≫= g.
Proof.
  induction l as [|x l IH]; [done|]. by rewrite !bind_cons, bind_app, IH.
Qed.

Lemma os_makedirs_child n d s :
  is_Some (st_rep s !! d) → os_makedirs (n :: d) s = os_mkdir (n :: d) s.
Proof.
  intros [e He]. cbn [os_makedirs bind get]. unfold exists_. by rewrite He.
Qed.

(** The scan of one directory whose parent is in the replica. *)
Lemma scan_body_exact r0 d ds fs s :
  wf src → scan_inv src r0 (st_rep s) → scandir src d = Some (ds, fs) →
  (d = [] → is_Some (st_rep s !! [])) →
  (∀ n d', d = n :: d' → is_Some (st_rep s !! d')) →
  st_rep s !! d = r0 !! d →
  match scan_body src false pats d ds fs s with
  | Ok _ s1 =>
      st_rep s1 = (if exists_ r0 d then st_rep s else <[d := Dir]> (st_rep s)) ∧
      st_log s1 = st_log s ++ dir_log src r0 pats (d, (ds, fs))
  | _ => True
  end.
Proof.
  intros Hwf Hinv Hsc Hroot Hpar Hd.
  pose proof Hsc as (Hsd & _ & Hfs & _)%scandir_Some.
  assert (∀ fn, fn ∈ fs → is_Some (src !! (fn :: d))) as Hfiles.
  { intros fn [f Hf]%Hfs. eauto. }
  assert (∀ r1 : tree, (∀ fn, r1 !! (fn :: d) = st_rep s !! (fn :: d)) →
            fs ≫= file_log src r1 pats d = fs ≫= file_log src r0 pats d) as Hlog.
  { intros r1 Hr1. apply bind_ext_in. intros fn [f Hf]%Hfs.
    apply file_pairs_ext. rewrite Hr1. by eapply scan_inv_file. }
  unfold scan_body, dir_log. cbn [bind get fst snd]. rewrite andb_true_r.
  assert (exists_ (st_rep s) d = exists_ r0 d) as Hex by (unfold exists_; by rewrite Hd).
  rewrite Hex. destruct (exists_ r0 d) eqn:Hex0; cbn [negb ret].
  - rewrite scan_files_run by done. cbn [st_rep st_log]. split; [done|].
    by rewrite Hlog.
  - apply exists_false in Hex0. rewrite <-Hd in Hex0.
    destruct d as [|n d'].
    { destruct (Hroot eq_refl) as [e He]. congruence. }
    cbn [bind]. rewrite os_makedirs_child by eauto.
    unfold os_mkdir. cbn [bind get]. rewrite Hex0.
    destruct (Hpar n d' eq_refl) as [e He]. rewrite He.
    destruct e as [f|]; [done|]. cbn [set_rep logging].
    rewrite scan_files_run by done. cbn [st_rep st_log]. split; [done|].
    rewrite <-(assoc_L (++)). do 2 f_equal. apply Hlog.
    intros fn. apply lookup_insert_ne. intros Heq.
    apply (f_equal length) in Heq. simpl in Heq. lia.
Qed.

Lemma scan_children_exact r0 fuel top (l : list string) :
  (∀ top s,
     wf src → scan_inv src r0 (st_rep s) →
     (top = [] → is_Some (st_rep s !! [])) →
     (∀ n d, top = n :: d → is_Some (st_rep s !! d)) →
     (∀ p, top `suffix_of` p → st_rep s !! p = r0 !! p) →
     match os_walk (λ _, src) (scan_body src false pats) fuel top s with
     | Ok _ s' =>
         (∀ p, ¬ top `suffix_of` p → st_rep s' !! p = st_rep s !! p) ∧
         (∀ p e, st_rep s !! p = Some e → st_rep s' !! p = Some e) ∧
         scan_inv src r0 (st_rep s') ∧
         st_log s' = st_log s ++ (walk_list src fuel top ≫= dir_log src r0 pats)
     | _ => True
     end) →
  ∀ s,
    wf src → NoDup l → scan_inv src r0 (st_rep s) → is_Some (st_rep s !! top) →
    (∀ x p, x ∈ l → (x :: top) `suffix_of` p → st_rep s !! p = r0 !! p) →
    match forM_ l (λ x, os_walk (λ _, src) (scan_body src false pats) fuel (x :: top)) s with
    | Ok _ s' =>
        (∀ p, (∀ x, x ∈ l → ¬ (x :: top) `suffix_of` p) →
              st_rep s' !! p = st_rep s !! p) ∧
        (∀ p e, st_rep s !! p = Some e → st_rep s' !! p = Some e) ∧
        scan_inv src r0 (st_rep s') ∧
        st_log s' = st_log s
                    ++ (l ≫= λ x, walk_list src fuel (x :: top) ≫= dir_log src r0 pats)
    | _ => True
    end.
Proof.
  intros IH. induction l as [|x l IHl]; intros s Hwf Hnd Hinv Htop Hun.
  - simpl. split_and!; [done..|]. by rewrite app_nil_r.
  - apply NoDup_cons in Hnd as [Hx Hnd]. cbn [forM_ bind].
    specialize (IH (x :: top) s Hwf Hinv).
    destruct (os_walk _ _ fuel (x :: top) s) as [[] s1|e s1|]; [|done..].
    destruct IH as (Hfr1 & Hmono1 & Hinv1 & Hlog1); [done| |by intros p; apply Hun; left|].
    { by intros n d [= _ <-]. }
    specialize (IHl s1 Hwf Hnd Hinv1).
    destruct (forM_ l _ s1) as [[] s2|e s2|]; [|done..].
    destruct IHl as (Hfr2 & Hmono2 & Hinv2 & Hlog2).
    { destruct Htop as [e He]. eauto. }
    { intros y p Hy Hp. rewrite Hfr1; [apply (Hun y); [by right|done]|].
      intros Hxp. assert (x :: top = y :: top) as [= ->]; [|done].
      eapply suffix_same_length; done. }
    split_and!.
    + intros p Hp. rewrite Hfr2, Hfr1; [done| |].
      * apply Hp. by left.
      * intros y Hy. apply Hp. by right.
    + eauto.
    + done.
    + by rewrite Hlog2, Hlog1, bind_cons, (assoc_L (++)).
Qed.

Lemma scan_walk_exact r0 fuel : ∀ top s,
  wf src → scan_inv src r0 (st_rep s) →
  (top = [] → is_Some (st_rep s !! [])) →
  (∀ n d, top = n :: d → is_Some (st_rep s !! d)) →
  (∀ p, top `suffix_of` p → st_rep s !! p = r0 !! p) →
  match os_walk (λ _, src) (scan_body src false pats) fuel top s with
  | Ok _ s' =>
      (∀ p, ¬ top `suffix_of` p → st_rep s' !! p = st_rep s !! p) ∧
      (∀ p e, st_rep s !! p = Some e → st_rep s' !! p = Some e) ∧
      scan_inv src r0 (st_rep s') ∧
      st_log s' = st_log s ++ (walk_list src fuel top ≫= dir_log src r0 pats)
  | _ => True
  end.
Proof.
  induction fuel as [|fuel IH]; intros top s Hwf Hinv Hroot Hpar Hun.
  - simpl. destruct (scandir src top) as [[ds fs]|]; [done|].
    split_and!; [done..|]. by rewrite app_nil_r.
  - cbn [os_walk walk_list]. destruct (scandir src top) as [[ds fs]|] eqn:Hsc.
    2:{ split_and!; [done..|]. by rewrite app_nil_r. }
    cbn [bind].
    pose proof (scan_body_real r0 top ds fs s Hwf Hinv Hsc) as Hreal.
    pose proof (scan_body_exact r0 top ds fs s Hwf Hinv Hsc Hroot Hpar
                  (Hun top (reflexivity _))) as Hexact.
    destruct (scan_body src false pats top ds fs s) as [[] s1|e s1|]; [|done..].
    destruct Hreal as (Hinv1 & Hmono1 & Htop1 & _).
    destruct Hexact as [Hrep1 Hlog1].
    assert (∀ p, p ≠ top → st_rep s1 !! p = st_rep s !! p) as Hfr1.
    { intros p Hne. rewrite Hrep1. destruct (exists_ r0 top); [done|].
      by rewrite lookup_insert_ne. }
    apply scandir_Some in Hsc as (_ & _ & _ & Hnd & _).
    pose proof (scan_children_exact r0 fuel top ds IH s1 Hwf Hnd Hinv1 Htop1) as Hch.
    destruct (forM_ ds _ s1) as [[] s2|e s2|]; [|done..].
    destruct Hch as (Hfr2 & Hmono2 & Hinv2 & Hlog2).
    { intros x p _ Hp. rewrite Hfr1.
      - apply Hun. by eapply suffix_cons_l.
      - intros ->. by apply suffix_cons_not in Hp. }
    split_and!.
    + intros p Hp. rewrite Hfr2, Hfr1; [done|by intros ->|].
      intros x _ Hxp. apply Hp. by eapply suffix_cons_l.
    + eauto.
    + done.
    + by rewrite Hlog2, Hlog1, bind_cons, list_bind_bind, (assoc_L (++)).
Qed.

(** The log of a real pass that returns, with the lines of its scan. *)
Lemma pass_scan_exact rep s' :
  wf src → wf rep → sync_folders src false pats rep = Ok tt s' →
  ∃ lg_a lg_p,
    st_log s' = root_log false rep ++ real_scan_log src (ensure_root rep) pats
                ++ lg_a ++ lg_p ∧
    Forall2 (λ pair r, r = CopiedUpdated pair.1 pair.2 ∨ r = FailedToCopy pair.1 pair.2)
      (pending_pairs src rep pats) lg_a ∧
    Forall (λ r, ∃ p, (r = RemovedFile p ∨ r = RemovedDirectory p) ∧
                      p ≠ [] ∧ src !! p = None) lg_p.
Proof.
  intros Hsrc Hrep. unfold sync_folders, sync_folders_M.
  cbn [bind get st_rep negb]. rewrite ensure_root_real. cbn [app].
  set (s0 := State (ensure_root rep) _ _).
  pose proof (scan_phase_real s0 Hsrc (ensure_root_wf _ Hrep)) as Hscan.
  pose proof (scan_walk_exact (ensure_root rep) (S (depth src)) [] s0 Hsrc
                (scan_inv_refl _ (ensure_root_wf _ Hrep))) as Hexact.
  destruct (os_walk _ _ _ _ s0) as [[] ss|e ss|]; [|done..].
  destruct Hscan as (Hinv & _ & Hpairs & _).
  destruct Hexact as (_ & _ & _ & Hlog); [|done|done|].
  { intros _. unfold s0. cbn [st_rep]. unfold ensure_root.
    destruct (rep !! []) eqn:Hr; [by rewrite Hr|]. rewrite lookup_insert_eq. eauto. }
  cbn [bind get]. rewrite apply_real.
  set (sa := foldl _ ss _).
  destruct (prune_walk_real (S (depth (st_rep sa))) [] sa Hsrc)
    as (r' & lg_p & -> & _ & _ & HFp).
  { apply apply_frame. apply Hinv. }
  { apply fuel_ok_depth. }
  intros [= <-]. destruct (apply_log (st_pairs ss) ss) as (lg_a & Hlg_a & HFa).
  fold sa in Hlg_a. exists lg_a, lg_p. cbn [st_log]. split_and!.
  - rewrite Hlg_a, Hlog. simpl. by rewrite <-!(assoc_L (++)).
  - rewrite Hpairs in HFa. simpl in HFa.
    by destruct (pending_pairs_ext (ensure_root rep) rep (ensure_root_lookup rep)) as [<- _].
  - eapply Forall_impl; [exact HFp|]. intros rec Hrec.
    destruct rec; try done; destruct Hrec as (_ & Hn & Hne); eauto.
Qed.



(** *** The lines about digests *)

Lemma pass_scan_line rep s' rec :
  wf src → wf rep → sync_folders src false pats rep = Ok tt s' →
  (∃ sd p, rec = ErrorHashing sd p) →
  rec ∈ st_log s' ↔ rec ∈ real_scan_log src (ensure_root rep) pats.
Proof.
  intros Hsrc Hrep Hrun (sd & p & ->).
  destruct (pass_scan_exact rep s' Hsrc Hrep Hrun) as (lg_a & lg_p & -> & HFa & HFp).
  apply copy_lines_kind in HFa. rewrite Forall_forall in HFa, HFp.
  rewrite !elem_of_app. split; [|by auto].
  intros [Hin|[Hin|[Hin|Hin]]]; [|done| |].
  - unfold root_log in Hin. destruct (exists_ rep []); [by apply elem_of_nil in Hin|].
    by apply list_elem_of_singleton in Hin.
  - by apply HFa in Hin as (sp & dp & [?|?]).
  - by apply HFp in Hin as (q & [?|?] & _).
Qed.

Lemma elem_of_differs_log (r : tree) p sd q :
  ErrorHashing sd q ∈ differs_log src r p p ↔
  q = p ∧ ∃ ss rs,
    stat_of src p = Some ss ∧ stat_of r p = Some rs ∧ ss.1 = rs.1 ∧ ss.2 ≤ rs.2 ∧
    hash_of (match sd with Source => src | Replica => r end) p = None.
Proof.
  unfold differs_log, hash_log.
  destruct (stat_of src p) as [ss|].
  2:{ split; [by intros ?%elem_of_nil|]. by intros (_ & ? & ? & ? & _). }
  destruct (stat_of r p) as [rs|].
  2:{ split; [by intros ?%elem_of_nil|]. by intros (_ & ? & ? & _ & ? & _). }
  destruct (bool_decide (ss.1 ≠ rs.1)) eqn:H1; simpl.
  { apply bool_decide_eq_true in H1. split; [by intros ?%elem_of_nil|].
    intros (_ & ? & ? & [= <-] & [= <-] & ? & _). done. }
  apply bool_decide_eq_false in H1. apply dec_stable in H1.
  destruct (bool_decide (ss.2 > rs.2)) eqn:H2.
  { apply bool_decide_eq_true in H2. split; [by intros ?%elem_of_nil|].
    intros (_ & ? & ? & [= <-] & [= <-] & _ & ? & _). lia. }
  apply bool_decide_eq_false in H2. rewrite elem_of_app. split.
  - intros [Hin|Hin].
    + destruct (hash_of src p) eqn:Hh; [by apply elem_of_nil in Hin|].
      apply list_elem_of_singleton in Hin as [= -> ->].
      split; [done|]. exists ss, rs. split_and!; [done..|lia|done].
    + destruct (hash_of r p) eqn:Hh; [by apply elem_of_nil in Hin|].
      apply list_elem_of_singleton in Hin as [= -> ->].
      split; [done|]. exists ss, rs. split_and!; [done..|lia|done].
  - intros (-> & _ & _ & _ & _ & _ & _ & Hh). destruct sd; rewrite Hh.
    + left. by left.
    + right. by left.
Qed.

(** X28. The lines about digests tell exactly which digests failed, in a
    real pass that returns: a line for a digest of the source or of the
    replica is in the log exactly for the files of the source that are
    not excluded, have a counterpart in the replica of the same size and
    of a modification time not older, and whose digest on that side
    cannot be computed. *)
Theorem digest_failures_are_exact rep :
  wf src → wf rep →
  match sync_folders src false pats rep with
  | Ok _ s' =>
      ∀ sd p,
        ErrorHashing sd p ∈ st_log s' ↔
        ∃ fn d f rs,
          p = fn :: d ∧ src !! p = Some (File f) ∧ should_exclude fn pats = false ∧
          stat_of rep p = Some rs ∧
          Z.of_nat (String.length (f_data f)) = rs.1 ∧ f_mtime f ≤ rs.2 ∧
          hash_of (match sd with Source => src | Replica => rep end) p = None
  | Raise _ _ => ∃ q g, src !! q = Some Dir ∧ rep !! q = Some (File g)
  | OutOfFuel => False
  end.
Proof.
  intros Hsrc Hrep. apply pass_cases; [done..|]. intros s' Hrun _ sd p.
  rewrite (pass_scan_line rep s') by eauto. unfold real_scan_log.
  assert (∀ fn d, stat_of (ensure_root rep) (fn :: d) = stat_of rep (fn :: d) ∧
                  hash_of (ensure_root rep) (fn :: d) = hash_of rep (fn :: d)) as Hr0.
  { intros fn d. unfold stat_of, hash_of. by rewrite ensure_root_lookup. }
  rewrite list_elem_of_bind. split.
  - intros ([d [ds fs]] & Hin & Hv). unfold dir_log in Hin. simpl in Hin.
    apply walk_list_sound, scandir_Some in Hv as (_ & _ & Hfs & _).
    apply elem_of_app in Hin as [Hin|Hin].
    { destruct (exists_ (ensure_root rep) d); [by apply elem_of_nil in Hin|].
      by apply list_elem_of_singleton in Hin. }
    apply list_elem_of_bind in Hin as (fn & Hin & [f Hf]%Hfs).
    unfold file_log in Hin. destruct (should_exclude fn pats) eqn:Hex.
    { by apply list_elem_of_singleton in Hin. }
    destruct (exists_ (ensure_root rep) (fn :: d)); [|by apply elem_of_nil in Hin].
    apply elem_of_differs_log in Hin as (-> & ss & rs & Hss & Hrs & H1 & H2 & Hh).
    destruct (Hr0 fn d) as [Hst Hha]. rewrite Hst in Hrs.
    unfold stat_of in Hss. rewrite Hf in Hss. injection Hss as <-. simpl in *.
    exists fn, d, f, rs. split_and!; [done..|].
    destruct sd; [done|]. by rewrite <-Hha.
  - intros (fn & d & f & rs & -> & Hf & Hex & Hrs & H1 & H2 & Hh).
    pose proof (wf_parent _ _ _ _ Hsrc Hf) as Hd.
    destruct (scandir src d) as [[ds fs]|] eqn:Hsc; [|by apply scandir_None in Hsc].
    exists (d, (ds, fs)). split.
    2:{ apply elem_of_walk_list; [done|apply fuel_ok_depth|]. split; [apply suffix_nil|done]. }
    unfold dir_log. simpl. apply elem_of_app. right. apply list_elem_of_bind.
    exists fn. split; [|apply scandir_Some in Hsc as (_ & _ & Hfs & _); apply Hfs; eauto].
    destruct (Hr0 fn d) as [Hst Hha].
    unfold file_log. rewrite Hex.
    assert (exists_ (ensure_root rep) (fn :: d) = true) as ->.
    { apply exists_true. rewrite ensure_root_lookup. unfold stat_of in Hrs.
      destruct (rep !! (fn :: d)); [done|done]. }
    apply elem_of_differs_log. split; [done|].
    exists (Z.of_nat (String.length (f_data f)), f_mtime f), rs.
    split_and!; [unfold stat_of; by rewrite Hf|by rewrite Hst|done|done|].
    destruct sd; [done|]. by rewrite Hha.
Qed.

(** *** The lines of the pruning of a real pass *)

Lemma prune_files_log top (files : list string) : ∀ s,
  NoDup files →
  (∀ fn, fn ∈ files → ∃ f, st_rep s !! (fn :: top) = Some (File f)) →
  ∃ r',
    forM_ files (λ file_name,
      if negb (exists_ src (file_name :: top)) then
        bind (os_remove (file_name :: top))
             (λ _, logging (RemovedFile (file_name :: top)))
      else ret tt) s
    = Ok tt (State r'
               (st_log s ++ (files ≫= λ fn,
                  if exists_ src (fn :: top) then [] else [RemovedFile (fn :: top)]))
               (st_pairs s)).
Proof.
  induction files as [|fn files IH]; intros s Hnd Hfiles.
  { exists (st_rep s). simpl. rewrite app_nil_r. by destruct s. }
  apply NoDup_cons in Hnd as [Hni Hnd].
  destruct (Hfiles fn (list_elem_of_here _ _)) as [f Hf].
  cbn [forM_ bind]. rewrite bind_cons.
  destruct (exists_ src (fn :: top)) eqn:Hex; cbn [negb ret bind].
  - destruct (IH s Hnd) as (r' & ->); [|by eauto].
    intros fn' Hfn'. apply Hfiles. by right.
  - rewrite (os_remove_real _ f) by done. cbn [bind logging].
    set (s1 := State _ _ _).
    destruct (IH s1 Hnd) as (r' & ->).
    { intros fn' Hfn'. destruct (Hfiles fn' ltac:(by right)) as [f' Hf'].
      exists f'. simpl. rewrite lookup_delete_ne; [done|]. intros [= ->]. done. }
    exists r'. simpl. by rewrite <-(assoc_L (++)).
Qed.

Lemma prune_dirs_log top (dirs : list string) : ∀ s,
  NoDup dirs →
  (∀ dn, dn ∈ dirs → st_rep s !! (dn :: top) = Some Dir) →
  ∃ r',
    forM_ dirs (λ dir_name,
      if negb (exists_ src (dir_name :: top)) then
        bind (shutil_rmtree (dir_name :: top))
             (λ _, logging (RemovedDirectory (dir_name :: top)))
      else ret tt) s
    = Ok tt (State r'
               (st_log s ++ (dirs ≫= λ dn,
                  if exists_ src (dn :: top) then [] else [RemovedDirectory (dn :: top)]))
               (st_pairs s)).
Proof.
  induction dirs as [|dn dirs IH]; intros s Hnd Hdirs.
  { exists (st_rep s). simpl. rewrite app_nil_r. by destruct s. }
  apply NoDup_cons in Hnd as [Hni Hnd].
  pose proof (Hdirs dn (list_elem_of_here _ _)) as Hd.
  cbn [forM_ bind]. rewrite bind_cons.
  destruct (exists_ src (dn :: top)) eqn:Hex; cbn [negb ret bind].
  - destruct (IH s Hnd) as (r' & ->); [|by eauto].
    intros dn' Hdn'. apply Hdirs. by right.
  - rewrite shutil_rmtree_real by done. cbn [bind logging].
    set (s1 := State _ _ _).
    destruct (IH s1 Hnd) as (r' & ->).
    { intros dn' Hdn'. apply (removes_rmtree (st_rep s) (dn :: top)).
      split; [by apply Hdirs; right|].
      intros [Heq|Hs]%suffix_cons_inv; [by simplify_eq|].
      by apply suffix_cons_not in Hs. }
    exists r'. simpl. by rewrite <-(assoc_L (++)).
Qed.

Lemma prune_line_top (r : tree) top rec :
  wf r → prune_line src r top rec → r !! top = Some Dir.
Proof.
  intros Hwf (n & d & Hs & _ & _ & Hr).
  assert (∃ e, r !! (n :: d) = Some e) as [e He].
  { destruct Hr as [(f & ? & _)|[? _]]; eauto. }
  eapply wf_ancestor; [done..|by apply suffix_cons_r|].
  intros ->. by apply suffix_cons_not in Hs.
Qed.

Lemma prune_line_ext (r1 r2 : tree) top rec :
  (∀ p, top `suffix_of` p → r1 !! p = r2 !! p) →
  prune_line src r1 top rec → prune_line src r2 top rec.
Proof.
  intros Heq (n & d & Hs & Hd & Hn & Hr). exists n, d. split_and!; [done..|].
  by rewrite <-(Heq (n :: d)) by (by apply suffix_cons_r).
Qed.

Lemma prune_children_log fuel top (l : list string) :
  (∀ top s, wf (st_rep s) → fuel_ok (st_rep s) fuel top →
     ∃ r' lg,
       os_walk st_rep (prune_body src false) fuel top s
       = Ok tt (State r' (st_log s ++ lg) (st_pairs s)) ∧
       ∀ rec, rec ∈ lg ↔ prune_line src (st_rep s) top rec) →
  wf src → NoDup l →
  ∀ s, wf (st_rep s) → fuel_ok (st_rep s) (S fuel) top →
    ∃ r' lg,
      forM_ l (λ dir_name, os_walk st_rep (prune_body src false) fuel (dir_name :: top)) s
      = Ok tt (State r' (st_log s ++ lg) (st_pairs s)) ∧
      ∀ rec, rec ∈ lg ↔ ∃ dn, dn ∈ l ∧ prune_line src (st_rep s) (dn :: top) rec.
Proof.
  intros Hwalk Hsrc. induction l as [|dn l IH]; intros Hnd s Hwf Hfuel.
  { exists (st_rep s), []. simpl. rewrite app_nil_r. destruct s. split; [done|].
    intros rec. split; [by intros ?%elem_of_nil|]. by intros (? & ?%elem_of_nil & _). }
  apply NoDup_cons in Hnd as [Hni Hnd]. cbn [forM_ bind].
  destruct (Hwalk (dn :: top) s Hwf) as (r1 & lg1 & Hrun1 & Hlg1).
  { by apply fuel_ok_child. }
  destruct (prune_walk_real fuel (dn :: top) s Hsrc Hwf) as (r1' & lg1' & Hrun1' & Hwf1 & Hrm1 & _).
  { by apply fuel_ok_child. }
  rewrite Hrun1 in Hrun1'. injection Hrun1' as <- _. rewrite Hrun1.
  set (s1 := State r1 _ _).
  destruct (IH Hnd s1 Hwf1) as (r' & lg & -> & Hlg).
  { by eapply removes_fuel_ok. }
  exists r', (lg1 ++ lg). simpl. rewrite <-(assoc_L (++)). split; [done|].
  assert (∀ dn' p, dn' ∈ l → (dn' :: top) `suffix_of` p → r1 !! p = st_rep s !! p) as Hkeep.
  { intros dn' p Hdn' Hp. eapply removes_keep; [done|]. intros (Hs & _).
    assert (dn :: top = dn' :: top) as [= ->]; [|done].
    eapply suffix_same_length; done. }
  intros rec. rewrite elem_of_app, Hlg1, Hlg. split.
  - intros [?|(dn' & Hdn' & Hline)]; [exists dn; split; [by left|done]|].
    exists dn'. split; [by right|]. eapply prune_line_ext; [|done].
    intros p Hp. by eapply Hkeep.
  - intros (dn' & [->|Hdn']%elem_of_cons & Hline); [by left|]. right.
    exists dn'. split; [done|]. eapply prune_line_ext; [|done].
    intros p Hp. symmetry. by eapply Hkeep.
Qed.

Lemma prune_walk_log fuel : ∀ top s,
  wf src → wf (st_rep s) → fuel_ok (st_rep s) fuel top →
  ∃ r' lg,
    os_walk st_rep (prune_body src false) fuel top s
    = Ok tt (State r' (st_log s ++ lg) (st_pairs s)) ∧
    ∀ rec, rec ∈ lg ↔ prune_line src (st_rep s) top rec.
Proof.
  induction fuel as [|fuel IH]; intros top s Hsrc Hwf Hfuel.
  - exists (st_rep s), []. apply fuel_ok_zero in Hfuel.
    assert (scandir (st_rep s) top = None) as Hsc by (apply scandir_None; congruence).
    simpl. rewrite Hsc, app_nil_r. destruct s. split; [done|].
    intros rec. split; [by intros ?%elem_of_nil|].
    intros Hline%prune_line_top; [|done]. simpl in *. congruence.
  - cbn [os_walk]. destruct (scandir (st_rep s) top) as [[dirs files]|] eqn:Hsc.
    2:{ exists (st_rep s), []. rewrite app_nil_r. destruct s. split; [done|].
        intros rec. split; [by intros ?%elem_of_nil|].
        intros Hline%prune_line_top; [|done]. by apply scandir_None in Hsc. }
    apply scandir_Some in Hsc as (Htop & Hdirs & Hfiles & Hnd & Hnf).
    unfold prune_body at 1. cbn [bind negb]. cbv zeta.
    destruct (prune_files_real top files s Hwf Hnf) as (r1 & lg1 & Hrun1 & Hwf1 & Hrm1 & _).
    { intros fn. apply Hfiles. }
    destruct (prune_files_log top files s Hnf) as (r1' & Hrun1').
    { intros fn. apply Hfiles. }
    rewrite Hrun1 in Hrun1'. injection Hrun1' as <- Hlg1%app_inv_head. rewrite Hrun1.
    set (s1 := State r1 _ _).
    assert (∀ dn, dn ∈ dirs → st_rep s1 !! (dn :: top) = Some Dir) as Hdirs1.
    { intros dn Hdn%Hdirs. apply Hrm1. split; [done|].
      intros (fn & [f Hf]%Hfiles & [= ->] & _). congruence. }
    destruct (prune_dirs_real top dirs s1 Hwf1 Hnd Hdirs1)
      as (r2 & lg2 & Hrun2 & Hwf2 & Hrm2 & _).
    destruct (prune_dirs_log top dirs s1 Hnd Hdirs1) as (r2' & Hrun2').
    rewrite Hrun2 in Hrun2'. injection Hrun2' as <- Hlg2%app_inv_head. rewrite Hrun2.
    set (s2 := State r2 _ _).
    destruct (prune_children_log fuel top dirs (λ t s', IH t s' Hsrc) Hsrc Hnd s2 Hwf2)
      as (r3 & lg3 & -> & Hlg3).
    { eapply removes_fuel_ok; [done|]. by eapply removes_fuel_ok. }
    exists r3, (lg1 ++ lg2 ++ lg3). simpl. rewrite <-!(assoc_L (++)). split; [done|].
    intros rec. rewrite !elem_of_app, Hlg1, Hlg2, Hlg3, !list_elem_of_bind. split.
    + intros [(fn & Hin & [f Hf]%Hfiles)|[(dn & Hin & Hdn%Hdirs)|(dn & Hdn & Hline)]].
      * destruct (exists_ src (fn :: top)) eqn:Hex; [by apply elem_of_nil in Hin|].
        apply list_elem_of_singleton in Hin as ->. apply exists_false in Hex.
        exists fn, top. split_and!; [done|by left|done|]. left. eauto.
      * destruct (exists_ src (dn :: top)) eqn:Hex; [by apply elem_of_nil in Hin|].
        apply list_elem_of_singleton in Hin as ->. apply exists_false in Hex.
        exists dn, top. split_and!; [done|by left|done|]. by right.
      * destruct Hline as (n & d & Hs & Hd & Hn & Hr). exists n, d.
        assert (∃ e, r2 !! (n :: d) = Some e) as [e He].
        { destruct Hr as [(f & ? & _)|[? _]]; eauto. }
        split_and!; [by eapply suffix_cons_l| |done|].
        -- right. destruct Hd as [->|?]; [|done].
           pose proof (wf_parent _ _ _ _ Hwf2 He) as Hdn2.
           apply Hrm2 in Hdn2 as [_ Hno]. destruct (src !! (dn :: top)) eqn:Hsd; [done|].
           destruct Hno. exists dn. done.
        -- assert (r2 !! (n :: d) = st_rep s !! (n :: d)) as <-; [|done].
           rewrite He. symmetry. eapply removes_sub; [exact Hrm1|].
           eapply removes_sub; [exact Hrm2|done].
    + intros (n & d & Hs & Hd & Hn & Hr).
      assert (∃ e, st_rep s !! (n :: d) = Some e) as [e He].
      { destruct Hr as [(f & ? & _)|[? _]]; eauto. }
      destruct (decide (d = top)) as [->|Hne].
      * destruct Hr as [(f & Hf & ->)|[Hdir ->]].
        -- left. exists n. split; [|apply Hfiles; eauto].
           assert (exists_ src (n :: top) = false) as -> by (by apply exists_false).
           by left.
        -- right. left. exists n. split; [|by apply Hdirs].
           assert (exists_ src (n :: top) = false) as -> by (by apply exists_false).
           by left.
      * right. right. destruct Hd as [?|[x Hx]]; [done|].
        destruct (suffix_child _ _ Hs Hne) as [c Hc]. exists c.
        assert (is_Some (src !! (c :: top))) as Hsc.
        { destruct (decide (c :: top = d)) as [->|Hne']; [eauto|].
          exists Dir. by eapply wf_ancestor. }
        assert (st_rep s !! (c :: top) = Some Dir) as Hcd.
        { eapply wf_ancestor; [done..|by apply suffix_cons_r|].
          intros Heq. rewrite Heq in Hc. by apply suffix_cons_not in Hc. }
        split; [by apply Hdirs|]. exists n, d. split_and!; [done|by eauto|done|].
        assert (st_rep s2 !! (n :: d) = st_rep s !! (n :: d)) as ->; [|done].
        unfold s2. cbn [st_rep].
        rewrite (removes_keep _ _ _ _ Hrm2), (removes_keep _ _ _ _ Hrm1); [done| |].
        -- intros (fn & _ & Heq & _). apply (f_equal length) in Heq.
           apply suffix_length in Hc. simpl in *. lia.
        -- intros (dn & _ & Hdn & Hnone).
           assert (dn :: top = c :: top) as [= ->].
           { eapply suffix_same_length; [done|by apply suffix_cons_r|done]. }
           destruct Hsc. congruence.
Qed.

(** The copies change only the paths of their pairs, when none of them
    is a directory of the replica. *)
Lemma apply_frame_plain (l : list (path * path)) : ∀ s,
  (∀ pair, pair ∈ l → st_rep s !! pair.2 ≠ Some Dir) →
  ∀ x, (∀ pair, pair ∈ l → x ≠ pair.2) →
       st_rep (foldl (copy_step src) s l) !! x = st_rep s !! x.
Proof.
  induction l as [|pair l IH]; intros s Hnd x Hx; [done|]. simpl.
  assert (st_rep (copy_step src s pair) = st_rep s ∨
          ∃ f, st_rep (copy_step src s pair) = <[pair.2 := File f]> (st_rep s)) as Hstep.
  { destruct (copy_step_spec s pair) as [_ [[_ Hr]|(_ & f & _ & Hr & _)]]; [by left|].
    right. exists f. rewrite Hr.
    destruct (copy_target_cases (st_rep s) pair.1 pair.2) as [->|[Hd _]]; [done|].
    destruct (Hnd pair (list_elem_of_here _ _) Hd). }
  rewrite IH.
  - destruct Hstep as [->|[f ->]]; [done|]. apply lookup_insert_ne.
    intros Heq. by apply (Hx pair (list_elem_of_here _ _)).
  - intros pair' Hin. destruct Hstep as [->|[f ->]]; [apply Hnd; by right|].
    destruct (decide (pair.2 = pair'.2)) as [->|Hne].
    + by rewrite lookup_insert_eq.
    + rewrite lookup_insert_ne by done. apply Hnd. by right.
  - intros pair' Hin. apply Hx. by right.
Qed.

(** The log of the pruning of a real pass that returns. *)
Lemma pass_prune_exact rep s' :
  wf src → wf rep →
  (∀ p f, src !! p = Some (File f) → rep !! p ≠ Some Dir) →
  sync_folders src false pats rep = Ok tt s' →
  ∃ lg lg_p,
    st_log s' = lg ++ lg_p ∧
    Forall (λ r, ∀ p, r ≠ RemovedFile p ∧ r ≠ RemovedDirectory p) lg ∧
    ∀ rec, rec ∈ lg_p ↔ prune_line src rep [] rec.
Proof.
  intros Hsrc Hrep Hshadow. unfold sync_folders, sync_folders_M.
  cbn [bind get st_rep negb]. rewrite ensure_root_real. cbn [app].
  set (s0 := State (ensure_root rep) _ _).
  pose proof (scan_phase_real s0 Hsrc (ensure_root_wf _ Hrep)) as Hscan.
  destruct (os_walk _ _ _ _ s0) as [[] ss|e ss|]; [|done..].
  destruct Hscan as (Hinv & _ & Hpairs & lg_s & Hlg_s & HFs).
  cbn [bind get]. rewrite apply_real.
  set (sa := foldl _ ss _).
  destruct (prune_walk_log (S (depth (st_rep sa))) [] sa Hsrc)
    as (r' & lg_p & -> & Hlg_p).
  { apply apply_frame. apply Hinv. }
  { apply fuel_ok_depth. }
  intros [= <-]. destruct (apply_log (st_pairs ss) ss) as (lg_a & Hlg_a & HFa).
  fold sa in Hlg_a. exists (st_log sa), lg_p. cbn [st_log]. split_and!; [done| |].
  - rewrite Hlg_a, Hlg_s. apply copy_lines_kind in HFa. rewrite !Forall_app. split_and!.
    + unfold s0, root_log. simpl. destruct (exists_ rep []); repeat constructor; done.
    + eapply Forall_impl; [exact HFs|]. intros r Hr p. by split; intros ->.
    + eapply Forall_impl; [exact HFa|]. intros r (sp & dp & [-> | ->]) p; done.
  - assert (∀ n d, src !! (n :: d) = None → st_rep sa !! (n :: d) = rep !! (n :: d)) as Hsa.
    { intros n d Hn. unfold sa. rewrite Hpairs. simpl.
      assert (∀ pair, pair ∈ pending_pairs src (ensure_root rep) pats →
                pair.1 = pair.2 ∧ ∃ fn d' f, pair.1 = fn :: d' ∧
                                            src !! pair.1 = Some (File f)) as Hp.
      { intros [sp dp] (<- & fn & d' & f & -> & Hf & _)%elem_of_pending_pairs; [|done].
        split; [done|]. eauto. }
      rewrite apply_frame_plain.
      - rewrite <-(ensure_root_lookup rep). destruct Hinv as (H1 & H2 & _).
        destruct (ensure_root rep !! (n :: d)) as [e|] eqn:H0; [by apply H1|].
        destruct (st_rep ss !! (n :: d)) as [e|] eqn:Hs; [|done].
        destruct (H2 _ _ H0 Hs). congruence.
      - intros pair Hin. destruct (Hp pair Hin) as (Heq & fn & d' & f & Hfn & Hf).
        rewrite <-Heq, (scan_inv_file _ _ _ _ Hinv Hf), Hfn.
        change (st_rep s0) with (ensure_root rep). rewrite ensure_root_lookup, <-Hfn.
        by eapply Hshadow.
      - intros pair Hin Hx. destruct (Hp pair Hin) as (Heq & fn & d' & f & Hfn & Hf).
        rewrite Hx, <-Heq in Hn. congruence. }
    intros rec. rewrite Hlg_p. split; intros (n & d & Hs & Hd & Hn & Hr);
      exists n, d; (split_and!; [done..|]).
    + by rewrite <-(Hsa n d Hn).
    + by rewrite (Hsa n d Hn).
Qed.

(** The lines about removals are those of the pruning. *)
Lemma pass_removal_line rep s' rec :
  wf src → wf rep →
  (∀ p f, src !! p = Some (File f) → rep !! p ≠ Some Dir) →
  sync_folders src false pats rep = Ok tt s' →
  (∃ p, rec = RemovedFile p ∨ rec = RemovedDirectory p) →
  rec ∈ st_log s' ↔ prune_line src rep [] rec.
Proof.
  intros Hsrc Hrep Hshadow Hrun (p & Hrec).
  destruct (pass_prune_exact rep s' Hsrc Hrep Hshadow Hrun) as (lg & lg_p & -> & HF & Hlg_p).
  rewrite Forall_forall in HF. rewrite elem_of_app, Hlg_p. split; [|by right].
  intros [Hin|?]; [|done]. destruct (HF _ Hin p). by destruct Hrec.
Qed.

(** X25. The lines of the pruning tell exactly what it removed, in a
    real pass that returns over a replica that has no directory at the
    path of a file of the source: a removal is reported for exactly the
    entries of the replica that the source does not have and that lie in
    the root or in a directory the source has, as a file or as a
    directory according to what the replica had. What lies inside a
    removed directory goes with it without a line. *)
Theorem removal_lines_are_exact rep :
  wf src → wf rep →
  (∀ p f, src !! p = Some (File f) → rep !! p ≠ Some Dir) →
  match sync_folders src false pats rep with
  | Ok _ s' =>
      ∀ n d,
        (RemovedFile (n :: d) ∈ st_log s' ↔
         (∃ f, rep !! (n :: d) = Some (File f)) ∧ src !! (n :: d) = None ∧
         (d = [] ∨ is_Some (src !! d))) ∧
        (RemovedDirectory (n :: d) ∈ st_log s' ↔
         rep !! (n :: d) = Some Dir ∧ src !! (n :: d) = None ∧
         (d = [] ∨ is_Some (src !! d))) ∧
        (RemovedFile [] ∉ st_log s') ∧ (RemovedDirectory [] ∉ st_log s')
  | Raise _ _ => ∃ q g, src !! q = Some Dir ∧ rep !! q = Some (File g)
  | OutOfFuel => False
  end.
Proof.
  intros Hsrc Hrep Hshadow. apply pass_cases; [done..|]. intros s' Hrun _.
  assert (∀ rec, (∃ p, rec = RemovedFile p ∨ rec = RemovedDirectory p) →
            rec ∈ st_log s' ↔ prune_line src rep [] rec) as Hline.
  { intros rec Hrec. by apply pass_removal_line. }
  intros n d. split_and!.
  - rewrite Hline by eauto. split.
    + intros (n' & d' & _ & Hd & Hn & [(f & Hf & [= -> ->])|[_ ?]]); [|done].
      split_and!; eauto.
    + intros ([f Hf] & Hn & Hd). exists n, d.
      split_and!; [apply suffix_nil|done|done|]. left. eauto.
  - rewrite Hline by eauto. split.
    + intros (n' & d' & _ & Hd & Hn & [(f & _ & ?)|[Hdir [= -> ->]]]); [done|].
      split_and!; eauto.
    + intros (Hdir & Hn & Hd). exists n, d.
      split_and!; [apply suffix_nil|done|done|]. by right.
  - rewrite Hline by eauto.
    by intros (n' & d' & _ & _ & _ & [(f & _ & ?)|[_ ?]]).
  - rewrite Hline by eauto.
    by intros (n' & d' & _ & _ & _ & [(f & _ & ?)|[_ ?]]).
Qed.

(** *** The lines of a dry run and the lines of a real pass *)

Lemma dry_log_copy rep sp dp :
  wf rep →
  WouldCopyUpdate sp dp
    ∈ root_log true rep ++ scan_log src rep pats
      ++ ((λ pair, WouldCopyUpdate pair.1 pair.2) <$> pending_pairs src rep pats)
      ++ would_remove_log src rep
  ↔ (sp, dp) ∈ pending_pairs src rep pats.
Proof.
  intros Hrep. rewrite !elem_of_app, list_elem_of_fmap. split.
  - intros [Hin|[Hin|[([sp' dp'] & [= -> ->] & Hin)|Hin]]]; [| |done|].
    + unfold root_log in Hin. destruct (exists_ rep []); [by apply elem_of_nil in Hin|].
      by apply list_elem_of_singleton in Hin.
    + pose proof (scan_log_quiet rep) as HF. rewrite Forall_forall in HF.
      by apply HF in Hin.
    + apply elem_of_would_remove_log in Hin as (p & _ & _ & [[_ ?]|[_ ?]]); done.
  - intros Hin. right. right. left. by exists (sp, dp).
Qed.

Lemma dry_log_remove rep rec :
  wf rep → (∃ p, rec = WouldRemoveFile p ∨ rec = WouldRemoveDirectory p) →
  rec ∈ root_log true rep ++ scan_log src rep pats
        ++ ((λ pair, WouldCopyUpdate pair.1 pair.2) <$> pending_pairs src rep pats)
        ++ would_remove_log src rep
  ↔ rec ∈ would_remove_log src rep.
Proof.
  intros Hrep (p & Hrec). rewrite !elem_of_app, list_elem_of_fmap. split; [|by auto].
  intros [Hin|[Hin|[(pair & -> & _)|Hin]]]; [| | |done].
  - unfold root_log in Hin. destruct (exists_ rep []); [by apply elem_of_nil in Hin|].
    apply list_elem_of_singleton in Hin. subst rec. by destruct Hrec.
  - pose proof (scan_log_quiet rep) as HF. rewrite Forall_forall in HF.
    apply HF in Hin. by destruct Hrec as [-> | ->].
  - by destruct Hrec.
Qed.

Lemma copy_lines_cover (l : list (path * path)) (lg : list record) pair :
  Forall2 (λ pair r, r = CopiedUpdated pair.1 pair.2 ∨ r = FailedToCopy pair.1 pair.2) l lg →
  pair ∈ l → CopiedUpdated pair.1 pair.2 ∈ lg ∨ FailedToCopy pair.1 pair.2 ∈ lg.
Proof.
  induction 1 as [|pair' r l lg Hr _ IH]; [by intros ?%elem_of_nil|].
  intros [->|Hin]%elem_of_cons.
  - destruct Hr as [-> | ->]; [left|right]; by left.
  - destruct (IH Hin); [left|right]; by right.
Qed.

(** The topmost ancestor of an orphan that is an orphan too. *)
Lemma topmost_orphan (p : path) :
  p ≠ [] → src !! p = None →
  ∃ n d, (n :: d) `suffix_of` p ∧ src !! (n :: d) = None ∧ (d = [] ∨ is_Some (src !! d)).
Proof.
  induction p as [|n d IH]; intros Hne Hn; [done|].
  destruct (decide (d = [])) as [->|Hd]; [exists n, []; by eauto|].
  destruct (src !! d) as [e|] eqn:Hs; [exists n, d; by eauto|].
  destruct (IH Hd eq_refl) as (n' & d' & Hsuf & Hn' & Hd').
  exists n', d'. split; [by apply suffix_cons_r|done].
Qed.

(** X26. A dry run announces the copies of a real pass: over the same
    trees, the dry run writes its line for a pair exactly when the real
    pass, which returns, reports the copy of that pair or its failure. *)
Theorem dry_run_announces_the_copies rep :
  wf src → wf rep →
  match sync_folders src false pats rep with
  | Ok _ s' =>
      ∃ sd, sync_folders src true pats rep = Ok tt sd ∧
        ∀ sp dp, WouldCopyUpdate sp dp ∈ st_log sd ↔
                 CopiedUpdated sp dp ∈ st_log s' ∨ FailedToCopy sp dp ∈ st_log s'
  | Raise _ _ => ∃ q g, src !! q = Some Dir ∧ rep !! q = Some (File g)
  | OutOfFuel => False
  end.
Proof.
  intros Hsrc Hrep. apply pass_cases; [done..|]. intros s' Hrun Hpost.
  eexists. split; [apply pass_dry|]. intros sp dp. cbn [st_log].
  rewrite dry_log_copy by done. split.
  - intros Hin.
    destruct (pass_log rep s' Hpost) as (lg_s & lg_a & lg_p & -> & _ & HFa & _).
    rewrite !elem_of_app.
    destruct (copy_lines_cover _ _ _ HFa Hin); simpl in *; tauto.
  - by apply pass_copy_line.
Qed.

(** X27. A dry run announces the removals of a real pass, and more: over
    the same trees (the replica having no directory at the path of a
    file of the source), every removal the real pass reports is
    announced by the dry run, and every removal the dry run announces
    is reported by the real pass or is of an entry inside a directory
    whose removal the real pass reports. *)
Theorem dry_run_announces_the_removals rep :
  wf src → wf rep →
  (∀ p f, src !! p = Some (File f) → rep !! p ≠ Some Dir) →
  match sync_folders src false pats rep with
  | Ok _ s' =>
      ∃ sd, sync_folders src true pats rep = Ok tt sd ∧
        ∀ p,
          (RemovedFile p ∈ st_log s' → WouldRemoveFile p ∈ st_log sd) ∧
          (RemovedDirectory p ∈ st_log s' → WouldRemoveDirectory p ∈ st_log sd) ∧
          (WouldRemoveFile p ∈ st_log sd →
           RemovedFile p ∈ st_log s' ∨
           ∃ q, q `suffix_of` p ∧ q ≠ p ∧ RemovedDirectory q ∈ st_log s') ∧
          (WouldRemoveDirectory p ∈ st_log sd →
           RemovedDirectory p ∈ st_log s' ∨
           ∃ q, q `suffix_of` p ∧ q ≠ p ∧ RemovedDirectory q ∈ st_log s')
  | Raise _ _ => ∃ q g, src !! q = Some Dir ∧ rep !! q = Some (File g)
  | OutOfFuel => False
  end.
Proof.
  intros Hsrc Hrep Hshadow. apply pass_cases; [done..|]. intros s' Hrun _.
  eexists. split; [apply pass_dry|]. cbn [st_log].
  assert (∀ rec, (∃ p, rec = RemovedFile p ∨ rec = RemovedDirectory p) →
            rec ∈ st_log s' ↔ prune_line src rep [] rec) as Hreal.
  { intros rec Hrec. by apply pass_removal_line. }
  assert (∀ p e, p ≠ [] → src !! p = None → rep !! p = Some e →
            (match e with File _ => RemovedFile p | Dir => RemovedDirectory p end
               ∈ st_log s') ∨
            ∃ q, q `suffix_of` p ∧ q ≠ p ∧ RemovedDirectory q ∈ st_log s') as Htop.
  { intros p e Hne Hn He.
    destruct (topmost_orphan p Hne Hn) as (n & d & Hsuf & Hn' & Hd').
    destruct (decide (n :: d = p)) as [<-|Hneq].
    - left. destruct e as [f|].
      + apply Hreal; [by eauto|]. exists n, d.
        split_and!; [apply suffix_nil|done|done|]. left. eauto.
      + apply Hreal; [by eauto|]. exists n, d.
        split_and!; [apply suffix_nil|done|done|]. by right.
    - right. exists (n :: d). split_and!; [done..|].
      apply Hreal; [by eauto|]. exists n, d.
      split_and!; [apply suffix_nil|done|done|]. right. split; [|done].
      by eapply wf_ancestor. }
  intros p. split_and!.
  - rewrite Hreal by eauto.
    intros (n & d & _ & _ & Hn & [(f & Hf & [= ->])|[_ ?]]); [|done].
    apply dry_log_remove; [done|by eauto|]. apply elem_of_would_remove_log; [done|].
    exists (n :: d). split_and!; [done..|]. left. eauto.
  - rewrite Hreal by eauto.
    intros (n & d & _ & _ & Hn & [(f & _ & ?)|[Hdir [= ->]]]); [done|].
    apply dry_log_remove; [done|by eauto|]. apply elem_of_would_remove_log; [done|].
    exists (n :: d). split_and!; [done..|]. by right.
  - rewrite dry_log_remove by eauto.
    intros (q & Hne & Hn & [[[f Hf] [= <-]]|[_ ?]])%elem_of_would_remove_log; [|done..].
    by apply (Htop p (File f)).
  - rewrite dry_log_remove by eauto.
    intros (q & Hne & Hn & [[_ ?]|[Hdir [= <-]]])%elem_of_would_remove_log; [done| |done].
    by apply (Htop p Dir).
Qed.

End Props.

(** ** The properties on the trees of the examples *)

Lemma ex_source_wf : wf ex_source.
Proof. apply (bool_decide_unpack _). vm_compute. exact I. Defined.

Lemma ex_replica_wf : wf ex_replica.
Proof. apply (bool_decide_unpack _). vm_compute. exact I. Defined.

(** The pass of the examples: [a.txt] and [d/b] are copied, [skip.tmp] is
    not, the orphan file and the orphan directory are removed. *)
Example ex_pass :
  sync_folders (H := example_env) ex_source false ["*.tmp"] ex_replica
  = Ok tt (State (list_to_map [([], Dir); (["a.txt"], plain "hello" 5);
                               (["d"], Dir); (["b"; "d"], plain "bb" 1)])
             [ExcludingFile "skip.tmp"; CreatedDirectory ["d"];
              CopiedUpdated ["a.txt"] ["a.txt"]; CopiedUpdated ["b"; "d"] ["b"; "d"];
              RemovedFile ["orphan.txt"]; RemovedDirectory ["od"]]
             [(["a.txt"], ["a.txt"]); (["b"; "d"], ["b"; "d"])]).
Proof. vm_compute. reflexivity. Qed.


Lemma digest_failure_is_logged_witness :
  stat_of (H := example_env) locked_source ["f"] = Some (3, 1) ∧
  stat_of (H := example_env) (st_rep locked_state) ["f"] = Some (3, 1) ∧
  ∃ b,
    files_are_different (H := example_env) locked_source ["f"] ["f"] locked_state
    = Ok b (add_log locked_state
              (match hash_of (H := example_env) locked_source ["f"] with
               | Some _ => []
               | None => [ErrorHashing Source ["f"]]
               end
               ++ match hash_of (H := example_env) (st_rep locked_state) ["f"] with
                  | Some _ => []
                  | None => [ErrorHashing Replica ["f"]]
                  end)) ∧
    (hash_of (H := example_env) locked_source ["f"] = None →
     is_Some (hash_of (H := example_env) (st_rep locked_state) ["f"]) → b = true) ∧
    (is_Some (hash_of (H := example_env) locked_source ["f"]) →
     hash_of (H := example_env) (st_rep locked_state) ["f"] = None → b = true) ∧
    (hash_of (H := example_env) locked_source ["f"] = None →
     hash_of (H := example_env) (st_rep locked_state) ["f"] = None → b = false).
Proof.
  split_and!; [reflexivity..|].
  apply (digest_failure_is_logged (H := example_env) locked_source ["f"] ["f"]
           locked_state (3, 1) (3, 1)); [reflexivity|reflexivity|reflexivity|simpl; lia].
Defined.

(** Both digests fail: two lines, and the pair counts as unchanged. *)
Example ex_both_digests_fail :
  files_are_different (H := example_env) locked_source ["f"] ["f"] locked_state
  = Ok false (add_log locked_state [ErrorHashing Source ["f"]; ErrorHashing Replica ["f"]]).
Proof. vm_compute. reflexivity. Qed.

Lemma copy_failure_is_isolated_witness :
  forM_ [(["a.txt"], ["a.txt"])]
    (copy_or_update_file (H := example_env) ex_source false) skeleton_state
  = Ok tt (copy_step (H := example_env) ex_source skeleton_state (["a.txt"], ["a.txt"])) ∧
  shutil_copy2 (H := example_env) ex_source ["missing"] ["missing"]
    (copy_step (H := example_env) ex_source skeleton_state (["a.txt"], ["a.txt"]))
  = Raise (FileNotFoundError ["missing"])
      (copy_step (H := example_env) ex_source skeleton_state (["a.txt"], ["a.txt"])) ∧
  ∃ s2 s2' lg,
    forM_ ([(["a.txt"], ["a.txt"])] ++ (["missing"], ["missing"]) :: [(["b"; "d"], ["b"; "d"])])
      (copy_or_update_file (H := example_env) ex_source false) skeleton_state = Ok tt s2 ∧
    forM_ ([(["a.txt"], ["a.txt"])] ++ [(["b"; "d"], ["b"; "d"])])
      (copy_or_update_file (H := example_env) ex_source false) skeleton_state = Ok tt s2' ∧
    st_rep s2 = st_rep s2' ∧
    st_log s2
    = st_log (copy_step (H := example_env) ex_source skeleton_state (["a.txt"], ["a.txt"]))
      ++ FailedToCopy ["missing"] ["missing"] :: lg ∧
    st_log s2'
    = st_log (copy_step (H := example_env) ex_source skeleton_state (["a.txt"], ["a.txt"]))
      ++ lg ∧
    Forall2 (λ pair r, r = CopiedUpdated pair.1 pair.2 ∨ r = FailedToCopy pair.1 pair.2)
      [(["b"; "d"], ["b"; "d"])] lg.
Proof.
  assert (forM_ [(["a.txt"], ["a.txt"])]
            (copy_or_update_file (H := example_env) ex_source false) skeleton_state
          = Ok tt (copy_step (H := example_env) ex_source skeleton_state
                     (["a.txt"], ["a.txt"]))) as H1.
  { vm_compute. reflexivity. }
  assert (shutil_copy2 (H := example_env) ex_source ["missing"] ["missing"]
            (copy_step (H := example_env) ex_source skeleton_state (["a.txt"], ["a.txt"]))
          = Raise (FileNotFoundError ["missing"])
              (copy_step (H := example_env) ex_source skeleton_state
                 (["a.txt"], ["a.txt"]))) as H2.
  { vm_compute. reflexivity. }
  split_and!; [exact H1|exact H2|].
  exact (copy_failure_is_isolated (H := example_env) ex_source _ _ _ _ _ _ _ _ H1 H2).
Defined.

(** The three copies of the example above: the first and the third are
    made, the second is reported. *)
Example ex_failed_copy :
  forM_ [(["a.txt"], ["a.txt"]); (["missing"], ["missing"]); (["b"; "d"], ["b"; "d"])]
    (copy_or_update_file (H := example_env) ex_source false) skeleton_state
  = Ok tt (State (list_to_map [([], Dir); (["a.txt"], plain "hello" 5);
                               (["d"], Dir); (["b"; "d"], plain "bb" 1)])
             [CopiedUpdated ["a.txt"] ["a.txt"]; FailedToCopy ["missing"] ["missing"];
              CopiedUpdated ["b"; "d"] ["b"; "d"]] []).
Proof. vm_compute. reflexivity. Qed.



Lemma tmp_source_wf : wf tmp_source.
Proof. apply (bool_decide_unpack _). vm_compute. exact I. Defined.

Lemma excluded_file_is_kept_witness :
  wf tmp_source ∧ wf tmp_source ∧
  is_Some (tmp_source !! ["a.tmp"]) ∧
  should_exclude (H := example_env) "a.tmp" ["*.tmp"] = true ∧
  tmp_source !! ["a.tmp"] = Some (plain "x" 1) ∧
  match sync_folders (H := example_env) tmp_source false ["*.tmp"] tmp_source with
  | Ok _ s' => st_rep s' !! ["a.tmp"] = Some (plain "x" 1)
  | Raise _ _ => ∃ q f, tmp_source !! q = Some Dir ∧ tmp_source !! q = Some (File f)
  | OutOfFuel => False
  end.
Proof.
  assert (is_Some (tmp_source !! ["a.tmp"])) as Hs by (by eexists).
  split_and!; [exact tmp_source_wf|exact tmp_source_wf|exact Hs|reflexivity|reflexivity|].
  exact (excluded_file_is_kept (H := example_env) tmp_source ["*.tmp"] tmp_source
           "a.tmp" [] (plain "x" 1) tmp_source_wf tmp_source_wf Hs eq_refl eq_refl).
Defined.

(** C8, counterexample. [a.tmp] was synced, [*.tmp] is excluded now and
    the file is still in the source: the pass only reports the exclusion,
    and the file stays in the replica. *)
Lemma excluded_synced_file_is_not_pruned :
  should_exclude (H := example_env) "a.tmp" ["*.tmp"] = true ∧
  tmp_source !! ["a.tmp"] = Some (plain "x" 1) ∧
  sync_folders (H := example_env) tmp_source false ["*.tmp"] tmp_source
  = Ok tt (State tmp_source [ExcludingFile "a.tmp"] []).
Proof. split_and!; vm_compute; reflexivity. Qed.


Lemma empty_replica_wf : wf empty_replica.
Proof. apply (bool_decide_unpack _). vm_compute. exact I. Defined.


(** The directory [x.tmp] and its file are in the replica after the pass. *)
Example ex_excluded_directory_name :
  sync_folders (H := example_env) tmpdir_source false ["*.tmp"] empty_replica
  = Ok tt (State tmpdir_source
             [CreatedDirectory ["x.tmp"]; CopiedUpdated ["f.txt"; "x.tmp"] ["f.txt"; "x.tmp"]]
             [(["f.txt"; "x.tmp"], ["f.txt"; "x.tmp"])]).
Proof. vm_compute. reflexivity. Qed.

Lemma empty_wf : wf (∅ : tree).
Proof. apply (bool_decide_unpack _). vm_compute. exact I. Defined.


(** Without a source root the pass empties the replica of the examples. *)
Example ex_missing_source_root :
  sync_folders (H := example_env) ∅ false ["*.tmp"] ex_replica
  = Ok tt (State {[ [] := Dir ]} [RemovedFile ["orphan.txt"]; RemovedDirectory ["od"]] []).
Proof. vm_compute. reflexivity. Qed.

Lemma ex_source_readable : all_readable ex_source.
Proof. apply (bool_decide_unpack _). vm_compute. exact I. Defined.

Lemma convergence_witness :
  wf ex_source ∧ ex_source !! [] = Some Dir ∧
  ((∅ : tree) = ∅ ∨ (∅ : tree) = {[ [] := Dir ]}) ∧
  (∀ fn d f, ex_source !! (fn :: d) = Some (File f) →
             should_exclude (H := example_env) fn ["*.tmp"] = false →
             f_readable f = true) ∧
  ∃ lg pairs,
    sync_folders (H := example_env) ex_source false ["*.tmp"] ∅
    = Ok tt (State (filter (non_excluded (H := example_env) ["*.tmp"]) ex_source) lg pairs).
Proof.
  assert (∀ fn d f, ex_source !! (fn :: d) = Some (File f) →
                    should_exclude (H := example_env) fn ["*.tmp"] = false →
                    f_readable f = true) as Hread.
  { intros fn d f Hf _. exact (ex_source_readable _ _ Hf). }
  split_and!; [exact ex_source_wf|reflexivity|by left|exact Hread|].
  exact (convergence (H := example_env) ex_source ["*.tmp"] ∅ ex_source_wf eq_refl
           (or_introl eq_refl) Hread).
Defined.

(** The replica the pass builds from nothing: the source without
    [skip.tmp]. *)
Example ex_convergence :
  filter (non_excluded (H := example_env) ["*.tmp"]) ex_source
  = list_to_map [([], Dir); (["a.txt"], plain "hello" 5); (["d"], Dir);
                 (["b"; "d"], plain "bb" 1)].
Proof. vm_compute. reflexivity. Qed.

Lemma ex_no_shadow : no_shadow ex_source ex_replica.
Proof. apply (bool_decide_unpack _). vm_compute. exact I. Defined.

Lemma ex_after_pass_run :
  sync_folders (H := example_env) ex_source false ["*.tmp"] ex_replica = Ok tt ex_after_pass.
Proof. vm_compute. reflexivity. Defined.

Lemma ex_after_pass_no_failure sp dp : FailedToCopy sp dp ∉ st_log ex_after_pass.
Proof.
  intros Hin%list_elem_of_In. vm_compute in Hin.
  repeat (destruct Hin as [Hin|Hin]; [discriminate|]). exact Hin.
Defined.

Lemma second_pass_is_idle_witness :
  wf ex_source ∧ wf ex_replica ∧
  (∀ fn d f, ex_source !! (fn :: d) = Some (File f) →
             should_exclude (H := example_env) fn ["*.tmp"] = false →
             ex_replica !! (fn :: d) ≠ Some Dir) ∧
  sync_folders (H := example_env) ex_source false ["*.tmp"] ex_replica = Ok tt ex_after_pass ∧
  (∀ sp dp, FailedToCopy sp dp ∉ st_log ex_after_pass) ∧
  ∃ lg,
    sync_folders (H := example_env) ex_source false ["*.tmp"] (st_rep ex_after_pass)
    = Ok tt (State (st_rep ex_after_pass) lg []) ∧
    Forall quiet_record lg.
Proof.
  assert (∀ fn d f, ex_source !! (fn :: d) = Some (File f) →
                    should_exclude (H := example_env) fn ["*.tmp"] = false →
                    ex_replica !! (fn :: d) ≠ Some Dir) as Hshadow.
  { intros fn d f Hf _. exact (ex_no_shadow _ _ Hf). }
  split_and!; [exact ex_source_wf|exact ex_replica_wf|exact Hshadow|exact ex_after_pass_run
              |exact ex_after_pass_no_failure|].
  exact (second_pass_is_idle (H := example_env) ex_source ["*.tmp"] ex_replica ex_after_pass
           ex_source_wf ex_replica_wf Hshadow ex_after_pass_run ex_after_pass_no_failure).
Defined.

(** The second pass of the examples only reports the excluded file. *)
Example ex_second_pass :
  sync_folders (H := example_env) ex_source false ["*.tmp"] (st_rep ex_after_pass)
  = Ok tt (State (st_rep ex_after_pass) [ExcludingFile "skip.tmp"] []).
Proof. vm_compute. reflexivity. Qed.

(** C7, counterexample. The source has a file [d] and the replica a
    directory [d]: the pass copies the file into the directory, as [d/d],
    reports the copy, and prunes [d/d]; no copy fails and the replica is
    as before, so that the next pass copies and removes again. *)
Lemma second_pass_copies_again :
  wf shadow_source ∧ wf shadow_replica ∧
  sync_folders (H := example_env) shadow_source false [] shadow_replica
  = Ok tt (State shadow_replica
             [CopiedUpdated ["d"] ["d"]; RemovedFile ["d"; "d"]] [(["d"], ["d"])]) ∧
  sync_folders (H := example_env) shadow_source false []
    (st_rep (State shadow_replica
               [CopiedUpdated ["d"] ["d"]; RemovedFile ["d"; "d"]] [(["d"], ["d"])]))
  = Ok tt (State shadow_replica
             [CopiedUpdated ["d"] ["d"]; RemovedFile ["d"; "d"]] [(["d"], ["d"])]).
Proof.
  split_and!; [apply (bool_decide_unpack _); vm_compute; exact I..| |];
    vm_compute; reflexivity.
Qed.


(** The dry run of the examples. *)
Example ex_dry_run :
  sync_folders (H := example_env) ex_source true ["*.tmp"] ex_replica
  = Ok tt (State ex_replica
             [ExcludingFile "skip.tmp"; WouldCopyUpdate ["a.txt"] ["a.txt"];
              WouldCopyUpdate ["b"; "d"] ["b"; "d"]; WouldRemoveFile ["orphan.txt"];
              WouldRemoveDirectory ["od"]; WouldRemoveFile ["x"; "od"]]
             [(["a.txt"], ["a.txt"]); (["b"; "d"], ["b"; "d"])]).
Proof. vm_compute. reflexivity. Qed.


(** ** Reading in chunks, the loop of [main] and the retries of the tests *)

(** X1. The chunks [hash_file] reads (line 37) are the content of the
    file cut in pieces: for a positive chunk size, the chunks put
    together give the content back, no chunk is empty and none is longer
    than the size. *)
Theorem read_chunks_is_a_partition size data :
  (0 < size)%nat →
  foldr String.append EmptyString (read_chunks size data) = data ∧
  Forall (λ chunk, chunk ≠ EmptyString ∧ (String.length chunk ≤ size)%nat)
    (read_chunks size data).
Proof. intros Hsize. by apply read_chunks_fuel_spec. Qed.



Section MainLoop.

Context `{Env}.








End MainLoop.

Lemma retry_loop_returns {A E} (calls : nat → attempt A E) retries k a :
  (k < retries)%nat → calls k = Returned a →
  ∀ todo i sleeps,
    (i + todo = retries)%nat → (i ≤ k)%nat →
    (∀ j, (i ≤ j < k)%nat → ∃ e, calls j = Raised e) →
    retry_loop calls retries i todo sleeps = (Some (Returned a), (sleeps + (k - i))%nat).
Proof.
  intros Hk Ha. induction todo as [|todo IH]; intros i sleeps Hi Hik Hfail; [lia|].
  simpl. destruct (decide (i = k)) as [->|Hne].
  - rewrite Ha. do 2 f_equal. lia.
  - destruct (Hfail i) as [e ->]; [lia|].
    destruct (decide (i < retries - 1)%nat); [|lia].
    rewrite IH; [f_equal; lia|lia|lia|]. intros j Hj. apply Hfail. lia.
Qed.

Lemma retry_loop_raises {A E} (calls : nat → attempt A E) r e :
  calls r = Raised e →
  ∀ todo i sleeps,
    (i + todo = S r)%nat → (0 < todo)%nat →
    (∀ j, (i ≤ j < r)%nat → ∃ e', calls j = Raised e') →
    retry_loop calls (S r) i todo sleeps = (Some (Raised e), (sleeps + (r - i))%nat).
Proof.
  intros He. induction todo as [|todo IH]; intros i sleeps Hi Htodo Hfail; [lia|].
  simpl. destruct (decide (i = r)) as [->|Hne].
  - rewrite He. destruct (decide (r < r - 0)%nat); [lia|]. do 2 f_equal. lia.
  - destruct (Hfail i) as [e' ->]; [lia|].
    destruct (decide (i < r - 0)%nat); [|lia].
    rewrite IH; [f_equal; lia|lia|lia|]. intros j Hj. apply Hfail. lia.
Qed.

(** X19. [retry_operation] returns what the first call that does not
    raise returns, when it is among the first [retries] calls; it makes
    no call after it, and has slept once per call that raised. *)
Theorem retry_operation_returns_first_success {A E} (calls : nat → attempt A E)
    retries k a :
  (k < retries)%nat → calls k = Returned a →
  (∀ j, (j < k)%nat → ∃ e, calls j = Raised e) →
  retry_operation calls retries = (Some (Returned a), k).
Proof.
  intros Hk Ha Hfail. unfold retry_operation.
  rewrite (retry_loop_returns calls retries k a Hk Ha); [f_equal; lia|lia|lia|].
  intros j Hj. apply Hfail. lia.
Qed.

(** X20. When each of the [retries] calls raises, [retry_operation]
    raises the exception of the last call, after one sleep less than it
    made calls; with no retries at all it makes no call and returns
    [None]. *)
Theorem retry_operation_raises_the_last_exception {A E} (calls : nat → attempt A E)
    r e :
  (∀ j, (j < r)%nat → ∃ e', calls j = Raised e') → calls r = Raised e →
  retry_operation calls (S r) = (Some (Raised e), r) ∧
  retry_operation calls 0 = (None, 0%nat).
Proof.
  intros Hfail He. split; [|done]. unfold retry_operation.
  rewrite (retry_loop_raises calls r e He); [f_equal; lia|lia|lia|].
  intros j Hj. apply Hfail. lia.
Qed.

(** ** The further properties on the trees of the examples *)

Lemma string_append_assoc (a b c : string) : (a +:+ b) +:+ c = a +:+ (b +:+ c).
Proof.
  induction a as [|x a IH]; [done|].
  change (String x ((a +:+ b) +:+ c) = String x (a +:+ (b +:+ c))). by rewrite IH.
Defined.

Lemma string_append_nil (a : string) : a +:+ EmptyString = a.
Proof.
  induction a as [|x a IH]; [done|].
  change (String x (a +:+ EmptyString) = String x a). by rewrite IH.
Defined.



Lemma readonly_source_wf : wf readonly_source.
Proof. apply (bool_decide_unpack _). vm_compute. exact I. Defined.

Lemma readonly_replica_wf : wf readonly_replica.
Proof. apply (bool_decide_unpack _). vm_compute. exact I. Defined.

Lemma read_chunks_is_a_partition_witness :
  (0 < 2)%nat ∧
  foldr String.append EmptyString (read_chunks 2 "hello") = "hello" ∧
  Forall (λ chunk, chunk ≠ EmptyString ∧ (String.length chunk ≤ 2)%nat)
    (read_chunks 2 "hello").
Proof.
  split; [lia|]. apply (read_chunks_is_a_partition 2 "hello"). lia.
Defined.

Lemma hash_file_hashes_the_whole_content_witness :
  (∀ h a b, md5_update (Env := example_env) (md5_update h a) b = md5_update h (a +:+ b)) ∧
  (∀ h, md5_update (Env := example_env) h EmptyString = h) ∧
  tree_of ex_source Source stale_state !! ["a.txt"] = Some (plain "hello" 5) ∧
  f_readable (File_ "hello" 5 true true) = true ∧
  hash_file (H := example_env) ex_source Source ["a.txt"] stale_state
  = Ok (Some "hello") stale_state.
Proof.
  split_and!; [exact string_append_assoc|exact string_append_nil|reflexivity|reflexivity|].
  exact (hash_file_hashes_the_whole_content (H := example_env) ex_source Source ["a.txt"]
           stale_state (File_ "hello" 5 true true)
           string_append_assoc string_append_nil eq_refl eq_refl).
Defined.

Lemma exclusion_ignores_pattern_order_witness :
  (∀ pattern, pattern ∈ ["*.tmp"; "*.log"] ↔ pattern ∈ ["*.log"; "*.tmp"; "*.log"]) ∧
  sync_folders (H := example_env) ex_source false ["*.tmp"; "*.log"] ex_replica
  = sync_folders (H := example_env) ex_source false ["*.log"; "*.tmp"; "*.log"] ex_replica.
Proof.
  assert (∀ pattern : string,
            pattern ∈ ["*.tmp"; "*.log"] ↔ pattern ∈ ["*.log"; "*.tmp"; "*.log"]) as Hset.
  { intros pattern. rewrite !elem_of_cons, !elem_of_nil. tauto. }
  split; [exact Hset|].
  exact (exclusion_ignores_pattern_order (H := example_env) ex_source
           ["*.tmp"; "*.log"] ["*.log"; "*.tmp"; "*.log"] false ex_replica Hset).
Defined.

Lemma replica_folder_is_ensured_witness :
  wf ex_source ∧ wf (∅ : tree) ∧
  match sync_folders (H := example_env) ex_source false ["*.tmp"] ∅ with
  | Ok _ s' | Raise _ s' =>
      st_rep s' !! [] = Some (default Dir ((∅ : tree) !! [])) ∧
      (CreatedReplicaFolder ∈ st_log s' ↔ (∅ : tree) !! [] = None) ∧
      ((∅ : tree) !! [] = None → head (st_log s') = Some CreatedReplicaFolder)
  | OutOfFuel => False
  end.
Proof.
  split_and!; [exact ex_source_wf|exact empty_wf|].
  exact (replica_folder_is_ensured (H := example_env) ex_source ["*.tmp"] ∅
           ex_source_wf empty_wf).
Defined.

(** The pass of [test_exclude_patterns]: the excluded file is not in the
    replica afterwards. *)
Lemma excluded_file_is_not_copied_witness :
  wf tmp_source ∧ wf empty_replica ∧
  tmp_source !! ["a.tmp"] = Some (plain "x" 1) ∧
  should_exclude (H := example_env) "a.tmp" ["*.tmp"] = true ∧
  match sync_folders (H := example_env) tmp_source false ["*.tmp"] empty_replica with
  | Ok _ s' | Raise _ s' =>
      st_rep s' !! ["a.tmp"] = empty_replica !! ["a.tmp"] ∧
      ∀ dp, (CopiedUpdated ["a.tmp"] dp ∉ st_log s') ∧
            (FailedToCopy ["a.tmp"] dp ∉ st_log s')
  | OutOfFuel => False
  end.
Proof.
  split_and!; [exact tmp_source_wf|exact empty_replica_wf|reflexivity|reflexivity|].
  exact (excluded_file_is_not_copied (H := example_env) tmp_source ["*.tmp"] empty_replica
           "a.tmp" [] (File_ "x" 1 true true) tmp_source_wf empty_replica_wf
           eq_refl eq_refl).
Defined.

Lemma unchanged_file_is_untouched_witness :
  wf ex_source ∧ wf ex_source ∧
  ex_source !! ["a.txt"] = Some (plain "hello" 5) ∧
  ex_source !! ["a.txt"] = Some (plain "hello" 5) ∧
  differs (H := example_env) ex_source ex_source ["a.txt"] ["a.txt"] = false ∧
  match sync_folders (H := example_env) ex_source false ["*.tmp"] ex_source with
  | Ok _ s' | Raise _ s' =>
      st_rep s' !! ["a.txt"] = Some (plain "hello" 5) ∧
      (CopiedUpdated ["a.txt"] ["a.txt"] ∉ st_log s') ∧
      (FailedToCopy ["a.txt"] ["a.txt"] ∉ st_log s')
  | OutOfFuel => False
  end.
Proof.
  split_and!; [exact ex_source_wf|exact ex_source_wf|reflexivity|reflexivity
              |vm_compute; reflexivity|].
  refine (unchanged_file_is_untouched (H := example_env) ex_source ["*.tmp"] ex_source
           ["a.txt"] (File_ "hello" 5 true true) (plain "hello" 5)
           ex_source_wf ex_source_wf eq_refl eq_refl _).
  vm_compute. reflexivity.
Defined.

(** The pass of [test_file_copy], on the trees of the examples. *)
Lemma pending_file_is_copied_witness :
  wf ex_source ∧ wf ex_replica ∧
  ex_source !! ["a.txt"] = Some (plain "hello" 5) ∧
  should_exclude (H := example_env) "a.txt" ["*.tmp"] = false ∧
  f_readable (File_ "hello" 5 true true) = true ∧
  (ex_replica !! ["a.txt"] = None ∨
   differs (H := example_env) ex_source ex_replica ["a.txt"] ["a.txt"] = true) ∧
  (∀ g, ex_replica !! [] ≠ Some (File g)) ∧
  ex_replica !! ["a.txt"] ≠ Some Dir ∧
  (∀ g, ex_replica !! ["a.txt"] = Some (File g) → f_writable g = true) ∧
  match sync_folders (H := example_env) ex_source false ["*.tmp"] ex_replica with
  | Ok _ s' =>
      st_rep s' !! ["a.txt"] = Some (plain "hello" 5) ∧
      CopiedUpdated ["a.txt"] ["a.txt"] ∈ st_log s' ∧
      FailedToCopy ["a.txt"] ["a.txt"] ∉ st_log s'
  | Raise _ _ => ∃ q g, ex_source !! q = Some Dir ∧ ex_replica !! q = Some (File g)
  | OutOfFuel => False
  end.
Proof.
  assert (ex_replica !! ["a.txt"] = None ∨
          differs (H := example_env) ex_source ex_replica ["a.txt"] ["a.txt"] = true) as H1.
  { left. reflexivity. }
  assert (∀ g, ex_replica !! [] ≠ Some (File g)) as H2.
  { intros g Hg. vm_compute in Hg. discriminate. }
  assert (ex_replica !! ["a.txt"] ≠ Some Dir) as H3.
  { intros Hg. vm_compute in Hg. discriminate. }
  assert (∀ g, ex_replica !! ["a.txt"] = Some (File g) → f_writable g = true) as H4.
  { intros g Hg. vm_compute in Hg. discriminate. }
  split_and!; [exact ex_source_wf|exact ex_replica_wf|reflexivity|reflexivity|reflexivity
              |exact H1|exact H2|exact H3|exact H4|].
  exact (pending_file_is_copied (H := example_env) ex_source ["*.tmp"] ex_replica
           "a.txt" [] (File_ "hello" 5 true true) ex_source_wf ex_replica_wf
           eq_refl eq_refl eq_refl H1 H2 H3 H4).
Defined.

(** The pass of [test_error_handling]. *)
Lemma blocked_copy_is_reported_witness :
  wf readonly_source ∧ wf readonly_replica ∧
  readonly_source !! ["readonly_file.txt"] = Some (plain "new content" 2) ∧
  should_exclude (H := example_env) "readonly_file.txt" [] = false ∧
  (readonly_replica !! ["readonly_file.txt"] = None ∨
   differs (H := example_env) readonly_source readonly_replica
     ["readonly_file.txt"] ["readonly_file.txt"] = true) ∧
  (f_readable (File_ "new content" 2 true true) = false ∨
   ∃ g, readonly_replica !! ["readonly_file.txt"] = Some (File g) ∧ f_writable g = false) ∧
  match sync_folders (H := example_env) readonly_source false [] readonly_replica with
  | Ok _ s' =>
      st_rep s' !! ["readonly_file.txt"] = readonly_replica !! ["readonly_file.txt"] ∧
      FailedToCopy ["readonly_file.txt"] ["readonly_file.txt"] ∈ st_log s' ∧
      CopiedUpdated ["readonly_file.txt"] ["readonly_file.txt"] ∉ st_log s'
  | Raise _ _ => ∃ q g, readonly_source !! q = Some Dir ∧ readonly_replica !! q = Some (File g)
  | OutOfFuel => False
  end.
Proof.
  assert (readonly_replica !! ["readonly_file.txt"] = None ∨
          differs (H := example_env) readonly_source readonly_replica
            ["readonly_file.txt"] ["readonly_file.txt"] = true) as H1.
  { right. vm_compute. reflexivity. }
  assert (f_readable (File_ "new content" 2 true true) = false ∨
          ∃ g, readonly_replica !! ["readonly_file.txt"] = Some (File g) ∧
               f_writable g = false) as H2.
  { right. exists (File_ "old" 1 true false). split; reflexivity. }
  split_and!; [exact readonly_source_wf|exact readonly_replica_wf|reflexivity|reflexivity
              |exact H1|exact H2|].
  exact (blocked_copy_is_reported (H := example_env) readonly_source [] readonly_replica
           "readonly_file.txt" [] (File_ "new content" 2 true true)
           readonly_source_wf readonly_replica_wf eq_refl eq_refl H1 H2).
Defined.

Example ex_blocked_copy :
  sync_folders (H := example_env) readonly_source false [] readonly_replica
  = Ok tt (State readonly_replica
             [FailedToCopy ["readonly_file.txt"] ["readonly_file.txt"]]
             [(["readonly_file.txt"], ["readonly_file.txt"])]).
Proof. vm_compute. reflexivity. Qed.


Lemma source_paths_are_never_pruned_witness :
  wf ex_source ∧ wf (st_rep stale_state) ∧
  st_rep stale_state !! ["a.txt"] = Some (plain "jello" 5) ∧
  is_Some (ex_source !! ["a.txt"]) ∧
  match sync_folders (H := example_env) ex_source false ["*.tmp"] (st_rep stale_state) with
  | Ok _ s' | Raise _ s' =>
      is_Some (st_rep s' !! ["a.txt"]) ∧
      (RemovedFile ["a.txt"] ∉ st_log s') ∧ (RemovedDirectory ["a.txt"] ∉ st_log s')
  | OutOfFuel => False
  end.
Proof.
  assert (wf (st_rep stale_state)) as Hwf.
  { apply (bool_decide_unpack _). vm_compute. exact I. }
  assert (is_Some (ex_source !! ["a.txt"])) as Hs by (by eexists).
  split_and!; [exact ex_source_wf|exact Hwf|reflexivity|exact Hs|].
  exact (source_paths_are_never_pruned (H := example_env) ex_source ["*.tmp"]
           (st_rep stale_state) ["a.txt"] (plain "jello" 5) ex_source_wf Hwf eq_refl Hs).
Defined.



(** The pass over the conflicting trees raises and leaves the replica as
    it was. *)
Example ex_raising_pass :
  sync_folders (H := example_env) conflict_source false [] conflict_replica
  = Raise (NotADirectoryError ["b"; "a"]) (State conflict_replica [] []).
Proof. vm_compute. reflexivity. Qed.


Example ex_main_loop :
  main (H := example_env) false [] (Some 60) [conflict_source; ex_source] conflict_replica
  = Looping (World ex_source
       [StartingFolderSynchronization;
        ErrorDuringSynchronization (NotADirectoryError ["b"; "a"]);
        PassRecord (CreatedDirectory ["d"]);
        PassRecord (CopiedUpdated ["a.txt"] ["a.txt"]);
        PassRecord (CopiedUpdated ["skip.tmp"] ["skip.tmp"]);
        PassRecord (CopiedUpdated ["b"; "d"] ["b"; "d"]);
        PassRecord (RemovedFile ["x"]);
        PassRecord (RemovedFile ["a"])]).
Proof. vm_compute. reflexivity. Qed.




Lemma retry_operation_returns_first_success_witness :
  (2 < 3)%nat ∧ flaky_calls 2 = Returned 7 ∧
  (∀ j, (j < 2)%nat → ∃ e, flaky_calls j = Raised e) ∧
  retry_operation flaky_calls 3 = (Some (Returned 7), 2%nat).
Proof.
  assert (∀ j, (j < 2)%nat → ∃ e, flaky_calls j = Raised e) as Hfail.
  { intros j Hj. exists "busy". destruct j as [|[|j]]; [reflexivity|reflexivity|lia]. }
  assert (2 < 3)%nat as Hk by lia.
  split_and!; [exact Hk|reflexivity|exact Hfail|].
  exact (retry_operation_returns_first_success flaky_calls 3 2 7 Hk eq_refl Hfail).
Defined.

Lemma retry_operation_raises_the_last_exception_witness :
  (∀ j, (j < 2)%nat → ∃ e', failing_calls j = Raised e') ∧
  failing_calls 2 = Raised "gone" ∧
  retry_operation failing_calls 3 = (Some (Raised "gone"), 2%nat) ∧
  retry_operation failing_calls 0 = (None, 0%nat).
Proof.
  assert (∀ j, (j < 2)%nat → ∃ e', failing_calls j = Raised e') as Hfail.
  { intros j Hj. by eexists. }
  split_and!; [exact Hfail|reflexivity|..];
    apply (retry_operation_raises_the_last_exception failing_calls 2 "gone" Hfail eq_refl).
Defined.

Lemma copied_file_compares_equal_witness :
  shutil_copy2 (H := example_env) ex_source ["a.txt"] ["a.txt"] stale_state
  = Ok tt (State (<[ ["a.txt"] := plain "hello" 5 ]> (st_rep stale_state)) [] []) ∧
  st_rep stale_state !! ["a.txt"] ≠ Some Dir ∧
  files_are_different (H := example_env) ex_source ["a.txt"] ["a.txt"]
    (State (<[ ["a.txt"] := plain "hello" 5 ]> (st_rep stale_state)) [] [])
  = Ok false (State (<[ ["a.txt"] := plain "hello" 5 ]> (st_rep stale_state)) [] []).
Proof.
  assert (shutil_copy2 (H := example_env) ex_source ["a.txt"] ["a.txt"] stale_state
          = Ok tt (State (<[ ["a.txt"] := plain "hello" 5 ]> (st_rep stale_state)) [] []))
    as Hcopy.
  { vm_compute. reflexivity. }
  assert (st_rep stale_state !! ["a.txt"] ≠ Some Dir) as Hnd.
  { intros Hd. vm_compute in Hd. discriminate. }
  split_and!; [exact Hcopy|exact Hnd|].
  exact (copied_file_compares_equal (H := example_env) ex_source ["a.txt"] ["a.txt"]
           stale_state _ Hcopy Hnd).
Defined.

Lemma identical_replica_is_a_fixed_point_witness :
  wf ex_source ∧ is_Some (ex_source !! []) ∧
  sync_folders (H := example_env) ex_source false ["*.tmp"] ex_source
  = Ok tt (State ex_source (scan_log (H := example_env) ex_source ex_source ["*.tmp"]) []) ∧
  Forall quiet_record (scan_log (H := example_env) ex_source ex_source ["*.tmp"]).
Proof.
  assert (is_Some (ex_source !! [])) as Hroot by (by eexists).
  split_and!; [exact ex_source_wf|exact Hroot|..];
    apply (identical_replica_is_a_fixed_point (H := example_env) ex_source ["*.tmp"]
             ex_source_wf Hroot).
Defined.


(** The lines of the scan of the pass of the examples. *)
Example ex_real_scan_log :
  real_scan_log (H := example_env) ex_source (ensure_root ex_replica) ["*.tmp"]
  = [ExcludingFile "skip.tmp"; CreatedDirectory ["d"]].
Proof. vm_compute. reflexivity. Qed.

Lemma removal_lines_are_exact_witness :
  wf ex_source ∧ wf ex_replica ∧
  (∀ p f, ex_source !! p = Some (File f) → ex_replica !! p ≠ Some Dir) ∧
  match sync_folders (H := example_env) ex_source false ["*.tmp"] ex_replica with
  | Ok _ s' =>
      ∀ n d,
        (RemovedFile (n :: d) ∈ st_log s' ↔
         (∃ f, ex_replica !! (n :: d) = Some (File f)) ∧ ex_source !! (n :: d) = None ∧
         (d = [] ∨ is_Some (ex_source !! d))) ∧
        (RemovedDirectory (n :: d) ∈ st_log s' ↔
         ex_replica !! (n :: d) = Some Dir ∧ ex_source !! (n :: d) = None ∧
         (d = [] ∨ is_Some (ex_source !! d))) ∧
        (RemovedFile [] ∉ st_log s') ∧ (RemovedDirectory [] ∉ st_log s')
  | Raise _ _ => ∃ q g, ex_source !! q = Some Dir ∧ ex_replica !! q = Some (File g)
  | OutOfFuel => False
  end.
Proof.
  assert (∀ p f, ex_source !! p = Some (File f) → ex_replica !! p ≠ Some Dir) as Hshadow.
  { intros p f Hf. exact (ex_no_shadow p (File f) Hf). }
  split_and!; [exact ex_source_wf|exact ex_replica_wf|exact Hshadow|].
  exact (removal_lines_are_exact (H := example_env) ex_source ["*.tmp"] ex_replica
           ex_source_wf ex_replica_wf Hshadow).
Defined.

Lemma dry_run_announces_the_copies_witness :
  wf ex_source ∧ wf ex_replica ∧
  match sync_folders (H := example_env) ex_source false ["*.tmp"] ex_replica with
  | Ok _ s' =>
      ∃ sd, sync_folders (H := example_env) ex_source true ["*.tmp"] ex_replica = Ok tt sd ∧
        ∀ sp dp, WouldCopyUpdate sp dp ∈ st_log sd ↔
                 CopiedUpdated sp dp ∈ st_log s' ∨ FailedToCopy sp dp ∈ st_log s'
  | Raise _ _ => ∃ q g, ex_source !! q = Some Dir ∧ ex_replica !! q = Some (File g)
  | OutOfFuel => False
  end.
Proof.
  split_and!; [exact ex_source_wf|exact ex_replica_wf|].
  exact (dry_run_announces_the_copies (H := example_env) ex_source ["*.tmp"] ex_replica
           ex_source_wf ex_replica_wf).
Defined.

Lemma dry_run_announces_the_removals_witness :
  wf ex_source ∧ wf ex_replica ∧
  (∀ p f, ex_source !! p = Some (File f) → ex_replica !! p ≠ Some Dir) ∧
  match sync_folders (H := example_env) ex_source false ["*.tmp"] ex_replica with
  | Ok _ s' =>
      ∃ sd, sync_folders (H := example_env) ex_source true ["*.tmp"] ex_replica = Ok tt sd ∧
        ∀ p,
          (RemovedFile p ∈ st_log s' → WouldRemoveFile p ∈ st_log sd) ∧
          (RemovedDirectory p ∈ st_log s' → WouldRemoveDirectory p ∈ st_log sd) ∧
          (WouldRemoveFile p ∈ st_log sd →
           RemovedFile p ∈ st_log s' ∨
           ∃ q, q `suffix_of` p ∧ q ≠ p ∧ RemovedDirectory q ∈ st_log s') ∧
          (WouldRemoveDirectory p ∈ st_log sd →
           RemovedDirectory p ∈ st_log s' ∨
           ∃ q, q `suffix_of` p ∧ q ≠ p ∧ RemovedDirectory q ∈ st_log s')
  | Raise _ _ => ∃ q g, ex_source !! q = Some Dir ∧ ex_replica !! q = Some (File g)
  | OutOfFuel => False
  end.
Proof.
  assert (∀ p f, ex_source !! p = Some (File f) → ex_replica !! p ≠ Some Dir) as Hshadow.
  { intros p f Hf. exact (ex_no_shadow p (File f) Hf). }
  split_and!; [exact ex_source_wf|exact ex_replica_wf|exact Hshadow|].
  exact (dry_run_announces_the_removals (H := example_env) ex_source ["*.tmp"] ex_replica
           ex_source_wf ex_replica_wf Hshadow).
Defined.

Lemma locked_source_wf : wf locked_source.
Proof. apply (bool_decide_unpack _). vm_compute. exact I. Defined.

Lemma locked_replica_wf : wf (st_rep locked_state).
Proof. apply (bool_decide_unpack _). vm_compute. exact I. Defined.

Lemma digest_failures_are_exact_witness :
  wf locked_source ∧ wf (st_rep locked_state) ∧
  match sync_folders (H := example_env) locked_source false [] (st_rep locked_state) with
  | Ok _ s' =>
      ∀ sd p,
        ErrorHashing sd p ∈ st_log s' ↔
        ∃ fn d f rs,
          p = fn :: d ∧ locked_source !! p = Some (File f) ∧
          should_exclude (H := example_env) fn [] = false ∧
          stat_of (H := example_env) (st_rep locked_state) p = Some rs ∧
          Z.of_nat (String.length (f_data f)) = rs.1 ∧ f_mtime f ≤ rs.2 ∧
          hash_of (H := example_env)
            (match sd with Source => locked_source | Replica => st_rep locked_state end) p
          = None
  | Raise _ _ =>
      ∃ q g, locked_source !! q = Some Dir ∧ st_rep locked_state !! q = Some (File g)
  | OutOfFuel => False
  end.
Proof.
  split_and!; [exact locked_source_wf|exact locked_replica_wf|].
  exact (digest_failures_are_exact (H := example_env) locked_source []
           (st_rep locked_state) locked_source_wf locked_replica_wf).
Defined.

(** The two files nobody may read: both digests fail, the pair is not
    pending and nothing is copied. *)
Example ex_digest_failures :
  sync_folders (H := example_env) locked_source false [] (st_rep locked_state)
  = Ok tt (State (st_rep locked_state)
             [ErrorHashing Source ["f"]; ErrorHashing Replica ["f"]] []).
Proof. vm_compute. reflexivity. Qed.

